(** * BananaWRT changelog generator: a shallow embedding of
      [.github/scripts/changelog/update_changelog.py]

    The script harvests commits of two git repositories, drops noise,
    formats and classifies every commit, and splices a release section into
    [CHANGELOG.md].  Python strings are modelled as lists of Unicode code
    points, regular expressions by a backtracking matcher with the priority
    semantics of Python's [re], dictionaries (insertion ordered) by
    association lists, and the file system and the git repositories by an
    explicit record of the values the script reads from them. *)

From Stdlib Require Import List NArith ZArith Bool String Ascii Lia Arith PeanoNat.
From Stdlib Require Import Permutation Sorted.
Import ListNotations.


(** ** Python [str] *)

(** A character is a Unicode code point; a [str] is a list of them. *)
Abbreviation char := N (only parsing).
Abbreviation str := (list N) (only parsing).

Module Utf8.

(** Source literals are written as UTF-8 text; [decode] turns the bytes of a
    literal into code points.  [need] counts the continuation bytes still
    expected and [acc] is the code point under construction. *)
Fixpoint decode_from (need : nat) (acc : N) (bs : list N) : str :=
  match bs with
  | [] => []
  | b :: bs' =>
      match need with
      | O =>
          if (b <? 128)%N then b :: decode_from O 0%N bs'
          else if (b <? 224)%N then decode_from 1 (N.land b 31) bs'
          else if (b <? 240)%N then decode_from 2 (N.land b 15) bs'
          else decode_from 3 (N.land b 7) bs'
      | S n =>
          let acc' := (acc * 64 + N.land b 63)%N in
          match n with
          | O => acc' :: decode_from O 0%N bs'
          | S _ => decode_from n acc' bs'
          end
      end
  end.

Definition decode (s : string) : str :=
  decode_from O 0%N (map (fun b => N.of_nat (Byte.to_nat b)) (list_byte_of_string s)).

End Utf8.

(** [U "text"] is the Python literal ['text']. *)
Definition U (s : string) : str := Utf8.decode s.
Arguments U s%_string.

(** One-character literal. *)
Definition ch (a : ascii) : char := N_of_ascii a.
Arguments ch a%_char.

Definition str_eqb (a b : str) : bool :=
  if list_eq_dec N.eq_dec a b then true else false.

(** *** Searching and cutting *)

(** [s.startswith(p)] *)
Fixpoint startswith (p s : str) : bool :=
  match p, s with
  | [], _ => true
  | _ :: _, [] => false
  | a :: p', b :: s' => (a =? b)%N && startswith p' s'
  end.

(** [s.find(sub)]: index of the first occurrence, [None] for Python's -1. *)
Fixpoint str_find (sub s : str) : option nat :=
  if startswith sub s then Some O
  else match s with
       | [] => None
       | _ :: s' => option_map S (str_find sub s')
       end.

(** [sub in s] *)
Definition contains (sub s : str) : bool :=
  match str_find sub s with Some _ => true | None => false end.

(** [s.split(sep, 1)] for a non-empty [sep]: [None] when [sep] does not occur
    (Python then returns the one-element list [[s]]). *)
Definition split_once (sep s : str) : option (str * str) :=
  match str_find sep s with
  | Some i => Some (firstn i s, skipn (i + List.length sep) s)
  | None => None
  end.

(** [s.split(sep)] for the one-character separator [sep]. *)
Fixpoint split_char (sep : char) (s : str) : list str :=
  match s with
  | [] => [[]]
  | c :: s' =>
      if (c =? sep)%N then [] :: split_char sep s'
      else match split_char sep s' with
           | [] => [[c]]
           | l :: ls => (c :: l) :: ls
           end
  end.

(** [sep.join(parts)] *)
Fixpoint join (sep : str) (parts : list str) : str :=
  match parts with
  | [] => []
  | [p] => p
  | p :: ps => p ++ sep ++ join sep ps
  end.

(** [lst.insert(i, x)] for [0 <= i]: past the end it appends. *)
Fixpoint list_insert {A} (i : nat) (x : A) (l : list A) : list A :=
  match i, l with
  | O, _ => x :: l
  | S _, [] => [x]
  | S i', y :: l' => y :: list_insert i' x l'
  end.

(** ** Character properties

    On ASCII the case mappings and character classes of Python are fixed and
    written out below.  Outside ASCII they come from the Unicode character
    database of the interpreter, which is not part of the script: it is taken
    as a value of type [UCD], and every result below holds for any such
    value. *)

Record UCD := {
  (** [c.isupper()] for one non-ASCII character *)
  ucd_isupper : char -> bool;
  (** [c.upper()] for one non-ASCII character (possibly several characters) *)
  ucd_upper : char -> str;
  (** lower-casing of a non-ASCII character standing between the text before
      it (nearest first) and the text after it *)
  ucd_lower : str -> char -> str -> str;
  (** [c.isspace()], also regex [\s] *)
  ucd_isspace : char -> bool;
  (** regex [\w]: alphanumeric *)
  ucd_isalnum : char -> bool;
  (** decimal value of a non-ASCII digit: regex [\d] and [int()] *)
  ucd_decimal : char -> option N;
  (** [re.IGNORECASE]: does the pattern character match the input character,
      when one of them is not ASCII *)
  ucd_ci_eq : char -> char -> bool;
  (** [re.IGNORECASE]: does the non-ASCII input character fall in the class
      range [lo-hi] *)
  ucd_ci_range : char -> char -> char -> bool
}.

(** The database that knows no letters, digits or spaces outside ASCII. *)
Definition ascii_ucd : UCD := {|
  ucd_isupper := fun _ => false;
  ucd_upper := fun c => [c];
  ucd_lower := fun _ c _ => [c];
  ucd_isspace := fun _ => false;
  ucd_isalnum := fun _ => false;
  ucd_decimal := fun _ => None;
  ucd_ci_eq := N.eqb;
  ucd_ci_range := fun lo hi c => ((lo <=? c) && (c <=? hi))%N
|}.

Definition is_ascii (c : char) : bool := (c <? 128)%N.
Definition between (lo hi c : char) : bool := ((lo <=? c) && (c <=? hi))%N.
Definition ascii_isupper (c : char) : bool := between 65 90 c.
Definition ascii_islower (c : char) : bool := between 97 122 c.
Definition ascii_isdigit (c : char) : bool := between 48 57 c.
Definition ascii_lower (c : char) : char := if ascii_isupper c then (c + 32)%N else c.
Definition ascii_upper (c : char) : char := if ascii_islower c then (c - 32)%N else c.
(** Tab, line feed, vertical tab, form feed, carriage return, the four
    separators 0x1c-0x1f and the space. *)
Definition ascii_isspace (c : char) : bool :=
  between 9 13 c || between 28 31 c || (c =? 32)%N.
Definition ascii_isword (c : char) : bool :=
  ascii_islower c || ascii_isupper c || ascii_isdigit c || (c =? 95)%N.

Section Chars.
Variable ucd : UCD.

(** [c.isupper()] for a one-character string *)
Definition char_isupper (c : char) : bool :=
  if is_ascii c then ascii_isupper c else ucd_isupper ucd c.

(** [c.upper()] for a one-character string *)
Definition char_upper (c : char) : str :=
  if is_ascii c then [ascii_upper c] else ucd_upper ucd c.

Definition isspace (c : char) : bool :=
  if is_ascii c then ascii_isspace c else ucd_isspace ucd c.

(** regex [\w] *)
Definition isword (c : char) : bool :=
  if is_ascii c then ascii_isword c else ucd_isalnum ucd c.

(** regex [\d] *)
Definition isdigit (c : char) : bool :=
  if is_ascii c then ascii_isdigit c
  else match ucd_decimal ucd c with Some _ => true | None => false end.

Definition digit_value (c : char) : option N :=
  if is_ascii c then (if ascii_isdigit c then Some (c - 48)%N else None)
  else ucd_decimal ucd c.

(** [s.lower()]; [before] is the text already passed, nearest first. *)
Fixpoint lower_from (before s : str) : str :=
  match s with
  | [] => []
  | c :: s' =>
      (if is_ascii c then [ascii_lower c] else ucd_lower ucd before c s')
        ++ lower_from (c :: before) s'
  end.

Definition lower (s : str) : str := lower_from [] s.

(** [s.lstrip()], [s.rstrip()] and [s.strip()] *)
Fixpoint lstrip (s : str) : str :=
  match s with
  | [] => []
  | c :: s' => if isspace c then lstrip s' else s
  end.

Definition rstrip (s : str) : str := rev (lstrip (rev s)).

Definition strip (s : str) : str := rstrip (lstrip s).

End Chars.

(** ** Regular expressions

    The fragment of Python's [re] syntax that the script's patterns use. *)

Inductive cls_item :=
| CChar (c : char)            (* a character *)
| CRange (lo hi : char)       (* lo-hi *)
| CDigit                      (* \d *)
| CWord                       (* \w *)
| CSpace.                     (* \s *)

Inductive re :=
| Eps                                     (* the empty pattern *)
| Lit (c : char)                          (* a literal character *)
| Dot                                     (* .  any character but line feed *)
| Cls (neg : bool) (items : list cls_item) (* [...] and [^...] *)
| Bol                                     (* ^ *)
| Eol                                     (* $ *)
| WordB                                   (* \b *)
| Seq (r1 r2 : re)
| Alt (r1 r2 : re)                        (* r1|r2, r1 tried first *)
| Star (greedy : bool) (r : re)           (* r* and r*? *)
| Group (n : nat) (r : re).               (* the n-th capturing group *)

(** A position in the subject: the text before it (nearest character first),
    the text after it, and the groups captured so far (latest first). *)
Record mstate := MState {
  before : str;
  after : str;
  caps : list (nat * str)
}.

Definition ascii_pair (a b : char) : bool := is_ascii a && is_ascii b.

Section Matcher.
Variable ucd : UCD.
(** [re.IGNORECASE] *)
Variable icase : bool.

Definition lit_match (c x : char) : bool :=
  if icase then
    if ascii_pair c x then (ascii_lower c =? ascii_lower x)%N else ucd_ci_eq ucd c x
  else (c =? x)%N.

Definition item_match (x : char) (it : cls_item) : bool :=
  match it with
  | CChar c => lit_match c x
  | CRange lo hi =>
      if icase then
        if ascii_pair lo hi && is_ascii x
        then between lo hi (ascii_lower x) || between lo hi (ascii_upper x)
        else ucd_ci_range ucd lo hi x
      else between lo hi x
  | CDigit => isdigit ucd x
  | CWord => isword ucd x
  | CSpace => isspace ucd x
  end.

Definition cls_match (neg : bool) (items : list cls_item) (x : char) : bool :=
  xorb neg (existsb (item_match x) items).

Definition word_at (s : str) : bool :=
  match s with [] => false | c :: _ => isword ucd c end.

(** [\b]: exactly one of the neighbours is a word character. *)
Definition at_boundary (st : mstate) : bool :=
  xorb (word_at (before st)) (word_at (after st)).

(** [$]: at the end, or before a line feed that ends the subject. *)
Definition at_eol (st : mstate) : bool :=
  match after st with
  | [] => true
  | [c] => (c =? 10)%N
  | _ => false
  end.

Definition at_bol (st : mstate) : bool :=
  match before st with [] => true | _ => false end.

(** Consume one character that satisfies [p]. *)
Definition step (p : char -> bool) (st : mstate) (k : mstate -> option mstate)
  : option mstate :=
  match after st with
  | x :: rest => if p x then k (MState (x :: before st) rest (caps st)) else None
  | [] => None
  end.

Definition guard (b : bool) (st : mstate) (k : mstate -> option mstate)
  : option mstate :=
  if b then k st else None.

(** The text consumed between two positions of one subject. *)
Definition consumed (st st' : mstate) : str :=
  firstn (List.length (after st) - List.length (after st')) (after st).

Definition capture (n : nat) (st st' : mstate) : mstate :=
  MState (before st') (after st') ((n, consumed st st') :: caps st').

Definition progressed (st st' : mstate) : bool :=
  List.length (after st') <? List.length (after st).

(** A repetition of [iter], greedy or lazy, followed by [k].  An iteration that
    consumed nothing is given up, which bounds the number of iterations by
    the length of the remaining subject: [fuel] starts at that length. *)
Fixpoint star_loop (iter : mstate -> (mstate -> option mstate) -> option mstate)
         (greedy : bool) (k : mstate -> option mstate) (fuel : nat) (st : mstate)
         {struct fuel} : option mstate :=
  match fuel with
  | O => k st
  | S fuel' =>
      let again (_ : unit) :=
        iter st (fun st' =>
                   if progressed st st' then star_loop iter greedy k fuel' st' else None) in
      if greedy
      then match again tt with Some e => Some e | None => k st end
      else match k st with Some e => Some e | None => again tt end
  end.

(** [run r st k]: match [r] at [st] and hand the position reached to the
    continuation [k]; alternatives are tried in Python's order and the first
    one whose continuation succeeds is the result. *)
Fixpoint run (r : re) (st : mstate) (k : mstate -> option mstate) {struct r}
  : option mstate :=
  match r with
  | Eps => k st
  | Lit c => step (lit_match c) st k
  | Dot => step (fun x => negb (x =? 10)%N) st k
  | Cls neg items => step (cls_match neg items) st k
  | Bol => guard (at_bol st) st k
  | Eol => guard (at_eol st) st k
  | WordB => guard (at_boundary st) st k
  | Seq r1 r2 => run r1 st (fun st' => run r2 st' k)
  | Alt r1 r2 =>
      match run r1 st k with
      | Some e => Some e
      | None => run r2 st k
      end
  | Group n r1 => run r1 st (fun st' => k (capture n st st'))
  | Star greedy r1 => star_loop (run r1) greedy k (List.length (after st)) st
  end.

End Matcher.

(** *** Pattern syntax

    [re_compile] reads a pattern as Python's [re.compile] does, for the
    constructs above.  A pattern that it accepts is one that [re.compile]
    accepts, with the same reading.  [None] stands for a pattern that
    [re.compile] refuses ([re.error]) and also for a pattern that uses a
    construct outside the fragment (a counted repetition, a look-around, a
    back-reference, an inline flag, ...): for such a pattern the model does
    not follow the program.  The patterns written in the script are all
    inside the fragment; the exclude patterns of a configuration are inside
    it when the configuration is a [valid_config].  [g] is the number of
    capturing groups opened so far. *)

Definition isc (c : char) (a : ascii) : bool := (c =? N_of_ascii a)%N.
Arguments isc c a%_char.

Definition is_quantifier (c : char) : bool := isc c "*" || isc c "+" || isc c "?".

Definition parse_escape (c : char) : option re :=
  if isc c "d" then Some (Cls false [CDigit])
  else if isc c "w" then Some (Cls false [CWord])
  else if isc c "s" then Some (Cls false [CSpace])
  else if isc c "b" then Some WordB
  else if is_ascii c && ascii_isword c then None
  else Some (Lit c).

Definition parse_class_escape (c : char) : option cls_item :=
  if isc c "d" then Some CDigit
  else if isc c "w" then Some CWord
  else if isc c "s" then Some CSpace
  else if is_ascii c && ascii_isword c then None
  else Some (CChar c).

(** The items of a class up to the closing bracket.  After a character,
    plain or escaped, [-hi] makes a range; a range from a category such as
    [\w], or one that runs backwards, is an error of [re.compile]. *)
Fixpoint parse_class_items (s : str) (acc : list cls_item)
  : option (list cls_item * str) :=
  match s with
  | [] => None
  | c :: s1 =>
      if isc c "]" then
        match acc with
        | [] => None
        | _ => Some (rev acc, s1)
        end
      else if isc c "\" then
        match s1 with
        | e :: s2 =>
            match parse_class_escape e with
            | Some it =>
                match s2 with
                | d :: hi :: s3 =>
                    if isc d "-" && negb (isc hi "]") then
                      match it with
                      | CChar lo =>
                          if isc hi "\" || (hi <? lo)%N then None
                          else parse_class_items s3 (CRange lo hi :: acc)
                      | _ => None
                      end
                    else parse_class_items s2 (it :: acc)
                | _ => parse_class_items s2 (it :: acc)
                end
            | None => None
            end
        | [] => None
        end
      else
        match s1 with
        | d :: hi :: s3 =>
            if isc d "-" && negb (isc hi "]") then
              if isc hi "\" || (hi <? c)%N then None
              else parse_class_items s3 (CRange c hi :: acc)
            else parse_class_items s1 (CChar c :: acc)
        | _ => parse_class_items s1 (CChar c :: acc)
        end
  end.

Definition parse_class (s : str) : option (re * str) :=
  let '(neg, s1) :=
    match s with
    | c :: s' => if isc c "^" then (true, s') else (false, s)
    | [] => (false, s)
    end in
  match parse_class_items s1 [] with
  | Some (items, rest) => Some (Cls neg items, rest)
  | None => None
  end.

(** [^], [$] and [\b] take no quantifier ([re.error]: nothing to repeat). *)
Definition is_assertion (a : re) : bool :=
  match a with
  | Bol | Eol | WordB => true
  | _ => false
  end.

(** Quantifiers after an atom: [*], [+], [?] and their lazy forms. *)
Definition parse_postfix (a : re) (s : str) : option (re * str) :=
  match s with
  | q :: s1 =>
      if is_quantifier q then
        if is_assertion a then None else
        let '(greedy, s2) :=
          match s1 with
          | l :: s2' => if isc l "?" then (false, s2') else (true, s1)
          | [] => (true, s1)
          end in
        let r :=
          if isc q "*" then Star greedy a
          else if isc q "+" then Seq a (Star greedy a)
          else if greedy then Alt a Eps else Alt Eps a in
        match s2 with
        | q2 :: _ => if is_quantifier q2 then None else Some (r, s2)
        | [] => Some (r, s2)
        end
      else if isc q "{" then None
      else Some (a, s)
  | [] => Some (a, s)
  end.

Definition seq (a r : re) : re :=
  match r with Eps => a | _ => Seq a r end.

Fixpoint parse_alt (fuel g : nat) (s : str) {struct fuel} : option (re * nat * str) :=
  match fuel with
  | O => None
  | S fuel' =>
      match parse_seq fuel' g s with
      | Some (r1, g1, s1) =>
          match s1 with
          | c :: s2 =>
              if isc c "|" then
                match parse_alt fuel' g1 s2 with
                | Some (r2, g2, s3) => Some (Alt r1 r2, g2, s3)
                | None => None
                end
              else Some (r1, g1, s1)
          | [] => Some (r1, g1, s1)
          end
      | None => None
      end
  end
with parse_seq (fuel g : nat) (s : str) {struct fuel} : option (re * nat * str) :=
  match fuel with
  | O => None
  | S fuel' =>
      match s with
      | [] => Some (Eps, g, s)
      | c :: _ =>
          if isc c "|" || isc c ")" then Some (Eps, g, s)
          else
            match parse_atom fuel' g s with
            | Some (a, g1, s1) =>
                match parse_postfix a s1 with
                | Some (a', s2) =>
                    match parse_seq fuel' g1 s2 with
                    | Some (r, g2, s3) => Some (seq a' r, g2, s3)
                    | None => None
                    end
                | None => None
                end
            | None => None
            end
      end
  end
with parse_atom (fuel g : nat) (s : str) {struct fuel} : option (re * nat * str) :=
  match fuel with
  | O => None
  | S fuel' =>
      match s with
      | [] => None
      | c :: s1 =>
          if isc c "(" then
            let '(capturing, s2) :=
              match s1 with
              | q :: c2 :: s' => if isc q "?" && isc c2 ":" then (false, s') else (true, s1)
              | _ => (true, s1)
              end in
            match s2 with
            | q :: _ => if isc q "?" then None else
                match parse_alt fuel' (if capturing then S g else g) s2 with
                | Some (r, g1, c3 :: s3) =>
                    if isc c3 ")"
                    then Some (if capturing then Group (S g) r else r, g1, s3)
                    else None
                | _ => None
                end
            | [] => None
            end
          else if isc c "[" then
            match parse_class s1 with
            | Some (r, s2) => Some (r, g, s2)
            | None => None
            end
          else if isc c "\" then
            match s1 with
            | e :: s2 =>
                match parse_escape e with
                | Some r => Some (r, g, s2)
                | None => None
                end
            | [] => None
            end
          else if isc c "." then Some (Dot, g, s1)
          else if isc c "^" then Some (Bol, g, s1)
          else if isc c "$" then Some (Eol, g, s1)
          else if is_quantifier c || isc c "{" || isc c ")" then None
          else Some (Lit c, g, s1)
      end
  end.

(** [re.compile(pattern)] *)
Definition re_compile (pattern : str) : option re :=
  match parse_alt (3 * List.length pattern + 3) O pattern with
  | Some (r, _, []) => Some r
  | _ => None
  end.

(** *** Python's [re] functions *)

(** A match object: the span matched and the groups captured (latest
    capture of a group first). *)
Record Match := {
  m_start : nat;
  m_end : nat;
  m_groups : list (nat * str)
}.

(** [m.group(n)] for [n >= 1]; [None] when the group took no part. *)
Definition group (n : nat) (m : Match) : option str :=
  option_map snd (List.find (fun p => Nat.eqb (fst p) n) (m_groups m)).

Definition exhausted (count : option nat) : bool :=
  match count with Some O => true | _ => false end.

Definition spend (count : option nat) : option nat :=
  option_map Nat.pred count.

Section Regex.
Variable ucd : UCD.

(** A match that starts exactly at the position [(bef, aft)]. *)
Definition match_at (icase : bool) (r : re) (bef aft : str) : option Match :=
  match run ucd icase r (MState bef aft []) Some with
  | Some e =>
      Some {| m_start := List.length bef;
              m_end := List.length (before e);
              m_groups := caps e |}
  | None => None
  end.

(** The leftmost position at or after [(bef, aft)] where a match starts. *)
Fixpoint search_from (icase : bool) (r : re) (bef aft : str) : option Match :=
  match match_at icase r bef aft with
  | Some m => Some m
  | None =>
      match aft with
      | [] => None
      | c :: aft' => search_from icase r (c :: bef) aft'
      end
  end.

(** [re.search(pattern, s, flags)], for a pattern inside the fragment (as
    every pattern of the script is); [None] for any other. *)
Definition re_search (icase : bool) (pattern s : str) : option Match :=
  match re_compile pattern with
  | Some r => search_from icase r [] s
  | None => None
  end.

(** [re.match(pattern, s, flags)] *)
Definition re_match (icase : bool) (pattern s : str) : option Match :=
  match re_compile pattern with
  | Some r => match_at icase r [] s
  | None => None
  end.

(** Length of the match of [r] that starts at [(bef, aft)], if any; with
    [nonempty] an empty match is not accepted. *)
Definition attempt (icase : bool) (r : re) (bef aft : str) (nonempty : bool)
  : option nat :=
  let st := MState bef aft [] in
  match run ucd icase r st
          (fun e => if nonempty && negb (progressed st e) then None else Some e) with
  | Some e => Some (List.length aft - List.length (after e))
  | None => None
  end.

(** [re.sub]: scan the subject from left to right; [skip] characters still
    belong to the match replaced last.  After an empty match the same
    position is tried once more for a non-empty one (Python 3.7 and later).
    [count = None] is Python's [count=0]: no limit.  The replacement is taken
    literally: the script's replacements hold no backslash. *)
Fixpoint sub_scan (icase : bool) (r : re) (repl : str) (count : option nat)
         (bef s : str) (skip : nat) {struct s} : str :=
  match skip with
  | S skip' =>
      match s with
      | c :: s' => sub_scan icase r repl count (c :: bef) s' skip'
      | [] => []
      end
  | O =>
      if exhausted count then s
      else
        let pass count :=
          match s with
          | c :: s' => c :: sub_scan icase r repl count (c :: bef) s' O
          | [] => []
          end in
        let replace count n :=
          repl ++ match s with
                  | c :: s' => sub_scan icase r repl count (c :: bef) s' n
                  | [] => []
                  end in
        match attempt icase r bef s false with
        | None => pass count
        | Some (S n) => replace (spend count) n
        | Some O =>
            repl ++
            (if exhausted (spend count) then s
             else match attempt icase r bef s true with
                  | Some (S n) => replace (spend (spend count)) n
                  | _ => pass (spend count)
                  end)
        end
  end.

(** [re.sub(pattern, repl, s, count, flags)] *)
Definition re_sub (icase : bool) (pattern repl s : str) (count : option nat) : str :=
  match re_compile pattern with
  | Some r => sub_scan icase r repl count [] s O
  | None => s
  end.

End Regex.

(** ** The script's tables *)

(** [FILTER_CONFIG]; [load_config] may overwrite it from
    [.changelog-config.json] before the run. *)
Record FilterConfig := {
  exclude_merge_commits : bool;
  exclude_patterns : list str;
  include_workflow_commits : bool
}.

Definition FILTER_CONFIG : FilterConfig := {|
  exclude_merge_commits := true;
  exclude_patterns :=
    [ U "^typo:\s*fix";
      U "^docs:\s*update readme only";
      U "^style:\s*whitespace|spacing|indent" ];
  include_workflow_commits := true
|}.

(** [EMOJI_MAP], in its declared order. *)
Definition EMOJI_MAP : list (str * str) :=
  [ (U "fix", U "🐛"); (U "bug", U "🐛"); (U "hotfix", U "🚑");
    (U "security", U "🔒"); (U "breaking", U "💥"); (U "feature", U "✨");
    (U "feat", U "✨"); (U "add", U "➕"); (U "new", U "🆕");
    (U "improve", U "🌟"); (U "enhance", U "🌟"); (U "optimize", U "⚡");
    (U "perf", U "⚡"); (U "refactor", U "♻️"); (U "update", U "🔄");
    (U "upgrade", U "🔼"); (U "bump", U "🔼"); (U "deps", U "📦");
    (U "docs", U "📝"); (U "doc", U "📝"); (U "test", U "🧪");
    (U "build", U "🏗️"); (U "ci", U "🔄"); (U "workflow", U "🔄");
    (U "style", U "🎨"); (U "chore", U "🧹"); (U "cleanup", U "🧹");
    (U "revert", U "⏪"); (U "remove", U "🗑️"); (U "config", U "⚙️");
    (U "ui", U "💅"); (U "translation", U "🌐"); (U "i18n", U "🌐");
    (U "network", U "🔌"); (U "core", U "🍌"); (U "package", U "📦");
    (U "misc", U "🛠️") ].

Record Category := {
  name : str;
  priority : Z;
  patterns : list str;
  file_patterns : list str
}.

(** [CATEGORIES], in its declared order. *)
Definition CATEGORIES : list (str * Category) :=
  [ (U "security_critical",
     {| name := U "🔒 Security & Critical Fixes";
        priority := 1;
        patterns :=
          [ U "security|cve|vulnerability|exploit|auth|crypto|ssl|tls|certificate";
            U "critical|emergency|hotfix|urgent" ];
        file_patterns := [ U "security/"; U "auth/"; U "crypto/" ] |});
    (U "features",
     {| name := U "✨ New Features";
        priority := 2;
        patterns :=
          [ U "^feat:|^feature:|add.*feature|new.*feature|implement";
            U "introduce|create.*new" ];
        file_patterns := [] |});
    (U "improvements",
     {| name := U "🌟 Improvements & Enhancements";
        priority := 3;
        patterns :=
          [ U "improve|enhance|optimize|refactor|update.*logic|better";
            U "performance|speed|faster" ];
        file_patterns := [] |});
    (U "bugfixes",
     {| name := U "🐛 Bug Fixes";
        priority := 4;
        patterns :=
          [ U "fix:|bug:|resolve|correct|repair|patch";
            U "issue.*#\d+|fixes.*#\d+" ];
        file_patterns := [] |});
    (U "bananawrt_core",
     {| name := U "🍌 BananaWRT Core";
        priority := 5;
        patterns := [ U "kernel|dts|openwrt|firmware|bootloader|uboot" ];
        file_patterns :=
          [ U "target/"; U "kernel/"; U "\.dts"; U "\.dtsi"; U "config/Config-kernel" ] |});
    (U "packages",
     {| name := U "📦 Packages & Applications";
        priority := 6;
        patterns :=
          [ U "luci-app-|package:|^(\w+):\s*(add|update|fix|bump)";
            U "banana-utils|linkup-optimization|modemband|sms-tool" ];
        file_patterns := [ U "package/"; U "feeds/"; U "luci/" ] |});
    (U "build_ci",
     {| name := U "🔄 Build System & CI";
        priority := 7;
        patterns := [ U "workflow|github.*action|ci:|cd:|build:|cmake|makefile" ];
        file_patterns :=
          [ U "\.github/"; U "\.yml$"; U "\.yaml$"; U "Makefile"; U "CMakeLists\.txt" ] |});
    (U "documentation",
     {| name := U "📝 Documentation";
        priority := 8;
        patterns := [ U "^docs:|documentation|readme|changelog|wiki" ];
        file_patterns := [ U "README"; U "CHANGELOG"; U "\.md$"; U "docs/" ] |});
    (U "other",
     {| name := U "🛠️ Other Changes";
        priority := 99;
        patterns := [];
        file_patterns := [] |}) ].

(** ** The [emoji] package

    [emoji.emoji_list(s)] reports the emoji found in [s], scanning from the
    left and taking at each position the longest entry of the package's emoji
    table that starts there.  The table ([EMOJI_DATA]) belongs to the package
    and is a parameter here.  The releases of the package differ in how they
    treat a text that runs into an entry without completing it (a joiner or
    a variation selector left dangling); what the statements below use is
    common to them: a text that no entry of the table starts has no emoji at
    its start, and a text that is one entry followed by ordinary characters
    has that entry there. *)

Record EmojiMatch := {
  match_start : nat;
  match_end : nat;
  emoji : str
}.

Section Emoji.
Variable emoji_data : list str.

Definition longer (best : option str) (e : str) : option str :=
  match best with
  | Some b => if List.length b <? List.length e then Some e else best
  | None => Some e
  end.

Definition emoji_prefix (s : str) : option str :=
  fold_left
    (fun best e =>
       match e with
       | [] => best
       | _ :: _ => if startswith e s then longer best e else best
       end)
    emoji_data None.

Fixpoint emoji_scan (pos : nat) (s : str) (skip : nat) {struct s} : list EmojiMatch :=
  match s with
  | [] => []
  | _ :: s' =>
      match skip with
      | S skip' => emoji_scan (S pos) s' skip'
      | O =>
          match emoji_prefix s with
          | Some e =>
              {| match_start := pos; match_end := pos + List.length e; emoji := e |}
                :: emoji_scan (S pos) s' (List.length e - 1)
          | None => emoji_scan (S pos) s' O
          end
      end
  end.

Definition emoji_list (s : str) : list EmojiMatch := emoji_scan O s O.

End Emoji.

(** ** Commits *)

(** What the script reads of a GitPython commit object. *)
Record Commit := {
  hexsha : str;
  message : str;
  author_name : str;                (* commit.author.name *)
  committer_name : str;             (* commit.committer.name *)
  committed_date : Z;               (* seconds since the epoch *)
  parents : nat;                    (* len(commit.parents) *)
  diff_paths : option (list str)    (* the a_path of every item of the diff
                                       against the first parent (or the working
                                       tree for a root commit); None when
                                       computing the diff raises *)
}.

(** The dictionary [commit_data] built by [get_recent_commits]. *)
Record CommitData := {
  cd_sha : str;
  cd_message : str;
  cd_author : str;
  cd_date : Z;
  cd_files : list str;
  cd_formatted : str;
  cd_category : str;
  cd_repo : str
}.

Definition first_line (s : str) : str :=
  match split_char 10 s with
  | l :: _ => l
  | [] => []
  end.

(** [re.escape]: a backslash before each of the characters
    [()[]{}?*+-|^$\.&~#], space, tab, line feed, carriage return, vertical tab
    and form feed. *)
Definition re_special (c : char) : bool :=
  existsb (N.eqb c) (U "()[]{}?*+-|^$\.&~# " ++ [9; 10; 13; 11; 12])%N.

Definition re_escape (s : str) : str :=
  flat_map (fun c => if re_special c then [ch "\"; c] else [c]) s.

Section Formatter.
Variable ucd : UCD.
Variable emoji_data : list str.

(** [get_emoji_for_commit] *)
Definition leading_emoji (msg : str) : option EmojiMatch :=
  match emoji_list emoji_data msg with
  | m :: _ => if Nat.eqb (match_start m) 0 then Some m else None
  | [] => None
  end.

Fixpoint first_keyword (table : list (str * str)) (msg_lower : str) : option str :=
  match table with
  | [] => None
  | (keyword, emoji_code) :: table' =>
      match re_search ucd false (U "\b" ++ keyword ++ U "\b") msg_lower with
      | Some _ => Some emoji_code
      | None => first_keyword table' msg_lower
      end
  end.

Definition get_emoji_for_commit (commit_msg : str) : str :=
  match leading_emoji commit_msg with
  | Some m => emoji m
  | None =>
      match first_keyword EMOJI_MAP (lower ucd commit_msg) with
      | Some emoji_code => emoji_code
      | None => U "🛠️"
      end
  end.

(** [extract_package_name] *)
Definition package_patterns : list str :=
  [ U "`([^`]+)`";
    U "^(\w+(?:-\w+)*):";
    U "\b(luci-app-\w+)\b";
    U "\b(banana-utils|linkup-optimization|modemband|sms-tool)\b" ].

Fixpoint first_group (pats : list str) (msg : str) : option str :=
  match pats with
  | [] => None
  | pattern :: pats' =>
      match re_search ucd true pattern msg with
      | Some m => group 1 m
      | None => first_group pats' msg
      end
  end.

Definition extract_package_name (msg : str) : option str :=
  first_group package_patterns msg.

(** The steps of [format_commit_message], in the order of the source. *)

Definition strip_leading_emoji (msg : str) : str :=
  match leading_emoji msg with
  | Some m => strip ucd (skipn (match_end m) msg)
  | None => msg
  end.

Definition has_lowercase_prefix (msg : str) : bool :=
  match re_match ucd false (U "^[a-z]+:") msg with
  | Some _ => true
  | None => false
  end.

Definition capitalize (msg : str) : str :=
  match msg with
  | c :: rest =>
      if negb (char_isupper ucd c) && negb (has_lowercase_prefix msg)
      then char_upper ucd c ++ rest
      else msg
  | [] => msg
  end.

Definition quote_package (package_name : option str) (msg : str) : str :=
  match package_name with
  | Some ((_ :: _) as pkg) =>
      if negb (contains (U "`") msg)
      then re_sub ucd true (U "\b" ++ re_escape pkg ++ U "\b")
                  (U "`" ++ pkg ++ U "`") msg (Some 1)
      else msg
  | _ => msg
  end.

Definition issue_pattern : str := U "(?:fixes?|closes?|resolves?)\s*#(\d+)".

Definition issue_number (msg : str) : option str :=
  match re_search ucd true issue_pattern msg with
  | Some m => group 1 m
  | None => None
  end.

Definition annotate_issue (msg : str) : str :=
  match issue_number msg with
  | Some issue_num =>
      if negb (contains (U "(#" ++ issue_num ++ U ")") msg)
      then msg ++ U " (#" ++ issue_num ++ U ")"
      else msg
  | None => msg
  end.

(** The message part of the formatted line. *)
Definition format_message (commit_message : str) : str :=
  let msg := strip_leading_emoji (strip ucd (first_line commit_message)) in
  let package_name := extract_package_name msg in
  annotate_issue (quote_package package_name (capitalize msg)).

Definition format_commit_message (commit : Commit) (author : str) : str :=
  let emoji_code := get_emoji_for_commit (strip ucd (first_line (message commit))) in
  emoji_code ++ U " " ++ format_message (message commit) ++ U " by @" ++ author.

End Formatter.

(** ** Dictionaries

    A Python [dict] keeps its keys in insertion order: an association list
    whose keys are distinct. *)

Fixpoint dict_get {V} (k : str) (d : list (str * V)) : option V :=
  match d with
  | [] => None
  | (k', v) :: d' => if str_eqb k' k then Some v else dict_get k d'
  end.

(** [d[k] = v] *)
Fixpoint dict_set {V} (k : str) (v : V) (d : list (str * V)) : list (str * V) :=
  match d with
  | [] => [(k, v)]
  | (k', v') :: d' =>
      if str_eqb k' k then (k', v) :: d' else (k', v') :: dict_set k v d'
  end.

Definition dict_has {V} (k : str) (d : list (str * V)) : bool :=
  match dict_get k d with Some _ => true | None => false end.

(** [max(d, key=d.get)] over the entries after [best]: the first key, in
    iteration order, whose value is the largest. *)
Fixpoint max_from (best : str * nat) (d : list (str * nat)) : str * nat :=
  match d with
  | [] => best
  | kv :: d' => if snd best <? snd kv then max_from kv d' else max_from best d'
  end.

(** ** Filter and classifier *)

Section Classifier.
Variable ucd : UCD.

Definition searches (icase : bool) (s pattern : str) : bool :=
  match re_search ucd icase pattern s with Some _ => true | None => false end.

(** [should_skip_commit]; [None] when an exclude pattern that is reached is
    refused by [re_compile]: the program raises [re.error] there if the
    pattern is no pattern of Python, and the model does not follow it if the
    pattern is one outside the fragment. *)
Fixpoint matches_exclude (pats : list str) (msg : str) : option bool :=
  match pats with
  | [] => Some false
  | pattern :: pats' =>
      match re_compile pattern with
      | None => None
      | Some _ =>
          if searches true msg pattern then Some true else matches_exclude pats' msg
      end
  end.

Definition should_skip_commit (cfg : FilterConfig) (commit : Commit) : option bool :=
  let message_lower := lower ucd (message commit) in
  if exclude_merge_commits cfg && (1 <? parents commit) then Some true
  else
    match matches_exclude (exclude_patterns cfg) (message commit) with
    | None => None
    | Some true => Some true
    | Some false =>
        if negb (include_workflow_commits cfg) && contains (U "workflow") message_lower
        then Some true
        else Some false
    end.

(** The two scoring loops of [categorize_commit] for one category. *)
Definition message_score (details : Category) (commit_msg_lower : str) (score : nat) : nat :=
  fold_left
    (fun score pattern =>
       if searches true commit_msg_lower pattern then score + 2 else score)
    (patterns details) score.

Definition files_score (details : Category) (files_changed : list str) (score : nat) : nat :=
  fold_left
    (fun score file_path =>
       fold_left
         (fun score pattern =>
            if searches true file_path pattern then score + 1 else score)
         (file_patterns details) score)
    files_changed score.

Definition category_score (details : Category) (commit_msg_lower : str)
           (files_changed : list str) : nat :=
  files_score details files_changed (message_score details commit_msg_lower 0).

Section Table.
(** The category table, [CATEGORIES.items()]. *)
Variable table : list (str * Category).

Definition category_scores (commit_msg_lower : str) (files_changed : list str)
  : list (str * nat) :=
  fold_left
    (fun scores '(category, details) =>
       let score := category_score details commit_msg_lower files_changed in
       if 0 <? score then dict_set category score scores else scores)
    table [].

Definition categorize_commit_in (commit_msg : str) (files_changed : list str) : str :=
  let commit_msg_lower := lower ucd commit_msg in
  match category_scores commit_msg_lower files_changed with
  | first :: others =>
      let '(best_category, best_score) := max_from first others in
      if (best_score <? 2) && dict_has (U "other") table
      then U "other"
      else best_category
  | [] => U "other"
  end.

End Table.

(** [categorize_commit] *)
Definition categorize_commit (commit_msg : str) (files_changed : list str) : str :=
  categorize_commit_in CATEGORIES commit_msg files_changed.

End Classifier.

(** ** Dates

    [datetime.strptime(s, '%Y-%m-%d')] and [strftime('%B %d, %Y')], as CPython's
    [_strptime] and the C library implement them. *)

Fixpoint uint_to_str (d : Decimal.uint) : str :=
  match d with
  | Decimal.Nil => []
  | Decimal.D0 d' => 48 :: uint_to_str d'
  | Decimal.D1 d' => 49 :: uint_to_str d'
  | Decimal.D2 d' => 50 :: uint_to_str d'
  | Decimal.D3 d' => 51 :: uint_to_str d'
  | Decimal.D4 d' => 52 :: uint_to_str d'
  | Decimal.D5 d' => 53 :: uint_to_str d'
  | Decimal.D6 d' => 54 :: uint_to_str d'
  | Decimal.D7 d' => 55 :: uint_to_str d'
  | Decimal.D8 d' => 56 :: uint_to_str d'
  | Decimal.D9 d' => 57 :: uint_to_str d'
  end%N.

(** [str(n)] for a natural number *)
Definition str_of_N (n : N) : str := uint_to_str (N.to_uint n).

Definition is_leap (y : N) : bool :=
  ((y mod 4 =? 0) && (negb (y mod 100 =? 0) || (y mod 400 =? 0)))%N.

Definition days_in_month (y m : N) : N :=
  (if m =? 2 then (if is_leap y then 29 else 28)
   else if (m =? 4) || (m =? 6) || (m =? 9) || (m =? 11) then 30
   else 31)%N.

Definition month_name (m : N) : str :=
  nth (N.to_nat m - 1)
      [ U "January"; U "February"; U "March"; U "April"; U "May"; U "June";
        U "July"; U "August"; U "September"; U "October"; U "November";
        U "December" ] [].

Section Dates.
Variable ucd : UCD.

(** [int(s)] for a string of digits, after leading and trailing spaces. *)
Definition py_int (s : str) : option N :=
  match strip ucd s with
  | [] => None
  | ds =>
      fold_left
        (fun acc c =>
           match acc, digit_value ucd c with
           | Some n, Some d => Some (10 * n + d)%N
           | _, _ => None
           end)
        ds (Some 0%N)
  end.

(** The regular expression [_strptime] builds for ['%Y-%m-%d'] (its groups are
    named Y, m and d there) and matches ignoring case. *)
Definition ymd_pattern : str :=
  U "(\d\d\d\d)-(1[0-2]|0[1-9]|[1-9])-(3[0-1]|[1-2]\d|0[1-9]|[1-9]| [1-9])".

(** [None] is [ValueError]: no match, unconverted data after the match, or a
    day that the month does not have. *)
Definition strptime_ymd (s : str) : option (N * N * N) :=
  match re_match ucd true ymd_pattern s with
  | Some m =>
      if Nat.eqb (m_end m) (List.length s) then
        match group 1 m, group 2 m, group 3 m with
        | Some gy, Some gm, Some gd =>
            match py_int gy, py_int gm, py_int gd with
            | Some y, Some mo, Some d =>
                if ((1 <=? y) && (1 <=? mo) && (mo <=? 12)
                    && (1 <=? d) && (d <=? days_in_month y mo))%N
                then Some (y, mo, d)
                else None
            | _, _, _ => None
            end
        | _, _, _ => None
        end
      else None
  | None => None
  end.

Definition two_digits (n : N) : str :=
  if (n <? 10)%N then 48%N :: str_of_N n else str_of_N n.

(** [date.strftime('%B %d, %Y')] in the C locale *)
Definition strftime_BdY (date : N * N * N) : str :=
  let '(y, mo, d) := date in
  month_name mo ++ U " " ++ two_digits d ++ U ", " ++ str_of_N y.

End Dates.

(** ** Harvest, rendering and merge *)

(** Stable insertion sort: [precedes y x] says that [y] sorts strictly before
    [x]; elements that do not strictly precede one another keep their order. *)
Fixpoint insert_stable {A} (precedes : A -> A -> bool) (x : A) (l : list A) : list A :=
  match l with
  | [] => [x]
  | y :: l' => if precedes y x then y :: insert_stable precedes x l' else x :: l
  end.

Definition sort_stable {A} (precedes : A -> A -> bool) (l : list A) : list A :=
  fold_right (insert_stable precedes) [] l.

(** What a repository yields: [repo.iter_commits(all=True)], newest first, or
    an exception of GitPython. *)
Inductive Repo :=
| RepoError
| RepoCommits (commits : list Commit).

(** The values the run reads from its environment, for a run that reaches
    the harvest and can read its document: a run in which
    [get_last_changelog_date] raises (an overflow on a huge [DAYS_BACK]), or
    in which reading [CHANGELOG.md] fails for another reason than the file
    being absent, ends at the top-level handler without writing and is no
    [World]. *)
Record World := {
  RELEASE_DATE : str;
  CHANGELOG_STATS : str;            (* os.environ.get('CHANGELOG_STATS', 'false') *)
  filter_config : FilterConfig;     (* FILTER_CONFIG after load_config() *)
  last_changelog_date : Z;          (* get_last_changelog_date(), seconds since the epoch *)
  main_repo : Repo;
  main_repo_name : str;             (* os.path.basename(MAIN_REPO_PATH) *)
  packages_repo : option Repo;      (* None: PACKAGES_REPO_PATH is no git checkout *)
  packages_repo_name : str;
  changelog : option str            (* CHANGELOG.md; None: the file does not exist *)
}.

(** How a run ends. *)
Inductive Outcome :=
| NoNewCommits                      (* returns before the document is read *)
| AlreadyPresent                    (* the release heading exists: returns *)
| Written (content : str)           (* the document is overwritten *)
| Failed.                           (* an exception reaches the top level *)

Section Pipeline.
Variable ucd : UCD.
Variable emoji_data : list str.
(** [hashlib.md5(s.encode()).hexdigest()] *)
Variable md5_hexdigest : str -> str.
(** [str(d)] for the UTC datetime of a timestamp *)
Variable datetime_str : Z -> str.

(** [get_commit_files] *)
Definition get_commit_files (commit : Commit) : list str :=
  match diff_paths commit with
  | Some paths => paths
  | None => []
  end.

(** [get_commit_hash]: the text that is hashed, and its digest. *)
Definition unique_string (commit : CommitData) : str :=
  cd_sha commit ++ U ":" ++ cd_author commit ++ U ":" ++ datetime_str (cd_date commit).

Definition get_commit_hash (commit : CommitData) : str :=
  md5_hexdigest (unique_string commit).

Definition resolve_author (commit : Commit) : str :=
  if str_eqb (author_name commit) (U "GitHub Actions") then
    if negb (str_eqb (committer_name commit) (U "GitHub Actions"))
    then committer_name commit
    else U "SuperKali"
  else author_name commit.

Definition commit_data (repo_name : str) (commit : Commit) : CommitData :=
  let author := resolve_author commit in
  let files_changed := get_commit_files commit in
  {| cd_sha := hexsha commit;
     cd_message := message commit;
     cd_author := author;
     cd_date := committed_date commit;
     cd_files := files_changed;
     cd_formatted := format_commit_message ucd emoji_data commit author;
     cd_category := categorize_commit ucd (message commit) files_changed;
     cd_repo := repo_name |}.

(** [s.encode()], to UTF-8, raises for a string that holds a surrogate
    (U+D800 to U+DFFF). *)
Definition encodable (s : str) : bool :=
  forallb (fun c => negb (between 55296 57343 c)) s.

(** [datetime.fromtimestamp(t, tz=timezone.utc)] exists for the years 1 to
    9999, that is from -62135596800 to 253402300799; for any other
    timestamp it raises. *)
Definition fromtimestamp_ok (t : Z) : bool :=
  ((-62135596800 <=? t) && (t <=? 253402300799))%Z.

(** The loop of [get_recent_commits]: [seen_hashes] are the fingerprints kept
    so far; [None] when the body raises: for a commit whose timestamp
    [fromtimestamp] cannot convert, for an exclude pattern that [re] refuses,
    and for a fingerprint text that [encode] refuses. *)
Fixpoint walk_commits (cfg : FilterConfig) (repo_name : str) (since_date : Z)
         (commits : list Commit) (seen_hashes : list str)
  : option (list CommitData) :=
  match commits with
  | [] => Some []
  | commit :: rest =>
      if negb (fromtimestamp_ok (committed_date commit)) then None
      else if (committed_date commit <=? since_date)%Z then Some []
      else
        match should_skip_commit ucd cfg commit with
        | None => None
        | Some true => walk_commits cfg repo_name since_date rest seen_hashes
        | Some false =>
            let data := commit_data repo_name commit in
            if negb (encodable (unique_string data)) then None
            else
            let commit_hash := get_commit_hash data in
            if existsb (str_eqb commit_hash) seen_hashes
            then walk_commits cfg repo_name since_date rest seen_hashes
            else option_map (cons data)
                   (walk_commits cfg repo_name since_date rest
                                 (commit_hash :: seen_hashes))
        end
  end.

(** [get_recent_commits]: any exception yields the empty list. *)
Definition get_recent_commits (cfg : FilterConfig) (repo : Repo) (repo_name : str)
           (since_date : Z) : list CommitData :=
  match repo with
  | RepoError => []
  | RepoCommits commits =>
      match walk_commits cfg repo_name since_date commits [] with
      | Some kept => kept
      | None => []
      end
  end.

(** [sort_commits]: newest first, [sorted(..., reverse=True)] is stable. *)
Definition sort_commits (commits : list CommitData) : list CommitData :=
  sort_stable (fun y x => (cd_date x <? cd_date y)%Z) commits.

(** [generate_changelog_entry] *)
Definition sorted_categories : list (str * Category) :=
  sort_stable (fun y x => (priority (snd y) <? priority (snd x))%Z) CATEGORIES.

Definition category_lines (categorized_commits : list (str * list str))
           (entry : str * Category) : list str :=
  match dict_get (fst entry) categorized_commits with
  | Some ((_ :: _) as commits) =>
      (U "### " ++ name (snd entry) ++ [10%N])
        :: map (fun commit => U "- " ++ commit) commits ++ [[]]
  | _ => []
  end.

Definition total_commits (categorized_commits : list (str * list str)) : nat :=
  fold_left (fun n kv => n + List.length (snd kv)) categorized_commits 0.

Definition generate_changelog_entry (stats : str)
           (categorized_commits : list (str * list str)) (release_date : str)
  : option (list str) :=
  let body := flat_map (category_lines categorized_commits) sorted_categories in
  match body with
  | [] => None
  | _ :: _ =>
      Some
        ((([10%N] ++ U "## [" ++ release_date ++ U "]" ++ [10%N]) :: body)
           ++ (if str_eqb (lower ucd stats) (U "true")
               then [[10%N] ++ U "**Total changes:** "
                       ++ str_of_N (N.of_nat (total_commits categorized_commits))
                       ++ U " commits" ++ [10%N]]
               else [])
           ++ [U "---" ++ [10%N]])
  end.

End Pipeline.

Section Merge.
Variable ucd : UCD.
Variable emoji_data : list str.
Variable md5_hexdigest : str -> str.
Variable datetime_str : Z -> str.

Definition date_pattern : str := U "📅 Release date: \*\*.*?\*\*".

Definition is_blank (line : str) : bool :=
  match strip ucd line with [] => true | _ :: _ => false end.

(** The index of the first blank line that is not the first line. *)
Fixpoint first_blank_from (i : nat) (lines : list str) : option nat :=
  match lines with
  | [] => None
  | line :: lines' =>
      if is_blank line && (0 <? i) then Some i
      else first_blank_from (S i) lines'
  end.

(** [update_release_date]; [None] when [strptime] raises [ValueError]. *)
Definition update_release_date (content release_date : str) : option str :=
  match strptime_ymd ucd release_date with
  | None => None
  | Some date_obj =>
      let formatted_date := strftime_BdY date_obj in
      let new_date_line := U "📅 Release date: **" ++ formatted_date ++ U "**" in
      match re_search ucd false date_pattern content with
      | Some _ => Some (re_sub ucd false date_pattern new_date_line content None)
      | None =>
          let lines := split_char 10 content in
          Some (join [10%N]
                  (match first_blank_from 0 lines with
                   | Some i => list_insert i new_date_line lines
                   | None => lines ++ [new_date_line]
                   end))
      end
  end.

(** The grouping loop of [update_changelog]. *)
Definition categorize (all_commits : list CommitData) : list (str * list str) :=
  fold_left
    (fun categorized_commits commit =>
       let category := cd_category commit in
       let sofar :=
         match dict_get category categorized_commits with
         | Some l => l
         | None => []
         end in
       dict_set category (sofar ++ [cd_formatted commit]) categorized_commits)
    all_commits [].

(** Where the new entry goes. *)
Definition splice (content : str) (new_entry : list str) : str :=
  let entry := join [] new_entry in
  match split_once (U "---") content with
  | Some (part0, part1) => part0 ++ U "---" ++ [10%N] ++ entry ++ part1
  | None =>
      match str_find [10%N; 10%N] content with
      | Some title_end =>
          firstn (title_end + 2) content ++ U "---" ++ [10%N] ++ entry
            ++ skipn (title_end + 2) content
      | None => content ++ [10%N] ++ U "---" ++ [10%N] ++ entry
      end
  end.

Definition all_commits (w : World) : list CommitData :=
  get_recent_commits ucd emoji_data md5_hexdigest datetime_str
    (filter_config w) (main_repo w) (main_repo_name w) (last_changelog_date w)
  ++ match packages_repo w with
     | Some repo =>
         get_recent_commits ucd emoji_data md5_hexdigest datetime_str
           (filter_config w) repo (packages_repo_name w) (last_changelog_date w)
     | None => []
     end.

(** [update_changelog] *)
Definition update_changelog (w : World) : Outcome :=
  match all_commits w with
  | [] => NoNewCommits
  | (_ :: _) as commits =>
      let categorized_commits := categorize (sort_commits commits) in
      let content :=
        match changelog w with
        | Some text => text
        | None => U "# Changelog" ++ [10%N; 10%N]
        end in
      if contains (U "## [" ++ RELEASE_DATE w ++ U "]") content then AlreadyPresent
      else
        let content :=
          match generate_changelog_entry ucd (CHANGELOG_STATS w)
                  categorized_commits (RELEASE_DATE w) with
          | Some new_entry => splice content new_entry
          | None => content
          end in
        match update_release_date content (RELEASE_DATE w) with
        | Some content => Written content
        | None => Failed
        end
  end.

(** [CHANGELOG.md] after the run. *)
Definition changelog_after (w : World) : option str :=
  match update_changelog w with
  | Written content => Some content
  | _ => changelog w
  end.

End Merge.

(** ** What it means for a pattern to match

    [matches r b w a cs]: at the position with [b] before it (nearest
    character first) and [w ++ a] after it, the pattern [r] can consume
    exactly [w], capturing the groups [cs] (latest first).  This is the
    declarative reading of the pattern language, against which the
    backtracking matcher [run] is verified below. *)

Section MatchSpec.
Variable ucd : UCD.
Variable icase : bool.

Inductive matches : re -> str -> str -> str -> list (nat * str) -> Prop :=
| M_Eps b a : matches Eps b [] a []
| M_Lit c x b a : lit_match ucd icase c x = true -> matches (Lit c) b [x] a []
| M_Dot x b a : (x =? 10)%N = false -> matches Dot b [x] a []
| M_Cls neg items x b a :
    cls_match ucd icase neg items x = true -> matches (Cls neg items) b [x] a []
| M_Bol a : matches Bol [] [] a []
| M_Eol b a : at_eol (MState b a []) = true -> matches Eol b [] a []
| M_WordB b a : at_boundary ucd (MState b a []) = true -> matches WordB b [] a []
| M_Seq r1 r2 b w1 w2 a cs1 cs2 :
    matches r1 b w1 (w2 ++ a) cs1 ->
    matches r2 (rev w1 ++ b) w2 a cs2 ->
    matches (Seq r1 r2) b (w1 ++ w2) a (cs2 ++ cs1)
| M_AltL r1 r2 b w a cs : matches r1 b w a cs -> matches (Alt r1 r2) b w a cs
| M_AltR r1 r2 b w a cs : matches r2 b w a cs -> matches (Alt r1 r2) b w a cs
| M_Star0 g r b a : matches (Star g r) b [] a []
| M_StarS g r b w1 w2 a cs1 cs2 :
    w1 <> [] ->
    matches r b w1 (w2 ++ a) cs1 ->
    matches (Star g r) (rev w1 ++ b) w2 a cs2 ->
    matches (Star g r) b (w1 ++ w2) a (cs2 ++ cs1)
| M_Group n r b w a cs :
    matches r b w a cs -> matches (Group n r) b w a ((n, w) :: cs).

End MatchSpec.

(** ** Reference readings used in the statements below *)

(** [CATEGORIES[key]] *)
Definition category (key : str) : Category :=
  match dict_get key CATEGORIES with
  | Some details => details
  | None => {| name := []; priority := 99; patterns := []; file_patterns := [] |}
  end.

(** The score as the specification words it: 2 for every message pattern that
    matches, and 1 for every changed file that matches any file pattern. *)
Definition spec_score (ucd : UCD) (details : Category) (commit_msg : str)
           (files_changed : list str) : nat :=
  2 * List.length
        (filter (searches ucd true (lower ucd commit_msg)) (patterns details))
  + List.length
      (filter (fun file_path => existsb (searches ucd true file_path) (file_patterns details))
              files_changed).

(** The score as the loops compute it: every pair of a changed file and a
    file pattern that matches counts 1. *)
Definition pair_score (ucd : UCD) (details : Category) (commit_msg : str)
           (files_changed : list str) : nat :=
  2 * List.length
        (filter (searches ucd true (lower ucd commit_msg)) (patterns details))
  + list_sum
      (map (fun file_path =>
              List.length (filter (searches ucd true file_path) (file_patterns details)))
           files_changed).

(** The table with the priorities replaced by [f key]. *)
Definition with_priority (p : Z) (details : Category) : Category :=
  {| name := name details; priority := p;
     patterns := patterns details; file_patterns := file_patterns details |}.

Definition reprioritize (f : str -> Z) (table : list (str * Category))
  : list (str * Category) :=
  map (fun entry => (fst entry, with_priority (f (fst entry)) (snd entry))) table.

(** The entries of the table that score above 0, in the table's order. *)
Definition positive_scores (ucd : UCD) (table : list (str * Category))
           (commit_msg_lower : str) (files_changed : list str) : list (str * nat) :=
  flat_map
    (fun entry =>
       let score := category_score ucd (snd entry) commit_msg_lower files_changed in
       if 0 <? score then [(fst entry, score)] else [])
    table.

(** The score of a table entry for a commit. *)
Definition score_of (ucd : UCD) (commit_msg : str) (files_changed : list str)
           (entry : str * Category) : nat :=
  category_score ucd (snd entry) (lower ucd commit_msg) files_changed.

(** Are the strings of [l] pairwise different? *)
Fixpoint distinct (l : list str) : bool :=
  match l with
  | [] => true
  | x :: l' => negb (existsb (str_eqb x) l') && distinct l'
  end.

(** The elements of [l] that are the first with their key, in order. *)
Fixpoint first_seen {A} (key : A -> str) (l : list A) : list A :=
  match l with
  | [] => []
  | x :: l' => x :: filter (fun y => negb (str_eqb (key y) (key x))) (first_seen key l')
  end.

(** The commits of a repository walk that reach the formatter: those before
    the first commit at or below the cutoff that the filter does not skip. *)
Fixpoint survivors (ucd : UCD) (cfg : FilterConfig) (since_date : Z)
         (commits : list Commit) : list Commit :=
  match commits with
  | [] => []
  | commit :: rest =>
      if (committed_date commit <=? since_date)%Z then []
      else
        match should_skip_commit ucd cfg commit with
        | Some false => commit :: survivors ucd cfg since_date rest
        | _ => survivors ucd cfg since_date rest
        end
  end.

(** Every exclude pattern of the configuration is a pattern. *)
Definition valid_config (cfg : FilterConfig) : Prop :=
  Forall (fun pattern => re_compile pattern <> None) (exclude_patterns cfg).

(** A commit that the loop body of [get_recent_commits] handles without
    raising: [fromtimestamp] converts its timestamp, and [encode] accepts
    the text of its fingerprint. *)
Definition well_formed (datetime_str : Z -> str) (commit : Commit) : Prop :=
  fromtimestamp_ok (committed_date commit) = true
  /\ encodable (hexsha commit ++ U ":" ++ resolve_author commit ++ U ":"
                  ++ datetime_str (committed_date commit)) = true.

(** Has the fingerprint of [d] not been seen? *)
Definition unseen (fingerprint : CommitData -> str) (seen : list str) (d : CommitData)
  : bool :=
  negb (existsb (str_eqb (fingerprint d)) seen).

(** ** Sample inputs for the examples below

    The library values that the model takes as parameters are instantiated in
    the examples with [ascii_ucd], an emoji table that lists the glyphs of
    [EMOJI_MAP], an injective stand-in for the digest and the decimal
    timestamp for [str(datetime)]; no example depends on the choice. *)

Definition sample_emoji_data : list str :=
  map snd EMOJI_MAP.

Definition sample_digest (s : str) : str := s.

Definition sample_datetime_str (t : Z) : str := str_of_N (Z.to_N t).

Definition sample_commit (sha msg author : str) (date : Z) (paths : list str) : Commit :=
  {| hexsha := sha; message := msg; author_name := author; committer_name := author;
     committed_date := date; parents := 1; diff_paths := Some paths |}.

(** A main repository and a packages repository that both hold the commit
    [3f2a9c] (as a submodule relationship produces). *)
Definition shared_commit : Commit :=
  sample_commit (U "3f2a9c") (U "fix: resolve login crash") (U "alice") 1704103200 [].

Definition two_repositories : World :=
  {| RELEASE_DATE := U "2024-01-01";
     CHANGELOG_STATS := U "false";
     filter_config := FILTER_CONFIG;
     last_changelog_date := 1701388800;
     main_repo := RepoCommits [shared_commit];
     main_repo_name := U "BananaWRT";
     packages_repo := Some (RepoCommits [shared_commit]);
     packages_repo_name := U "banana-packages";
     changelog := Some (U "# Changelog" ++ [10; 10]%N ++ U "---" ++ [10%N]) |}.

(** A conventional-commit prefix: one or more lower-case letters [a]-[z]
    followed by a colon, at the start of the message. *)
Definition conventional_prefix (msg : str) : Prop :=
  exists p rest,
    p <> [] /\ Forall (fun c => ascii_islower c = true) p /\ msg = p ++ ch ":" :: rest.

(** The pattern [^[a-z]+:] as [re_compile] reads it. *)
Definition lowercase_prefix_re : re :=
  Seq Bol (Seq (Seq (Cls false [CRange 97 122]) (Star true (Cls false [CRange 97 122])))
               (Lit 58)).

(** ** The release-date banner *)

(** The fixed opening of the banner. *)
Definition banner_open : str := U "📅 Release date: **".

(** [literal_then p r]: the characters of [p], then [r]. *)
Definition literal_then (p : str) (r : re) : re :=
  fold_right (fun c r => Seq (Lit c) r) r p.

(** [date_pattern] as [re_compile] reads it. *)
Definition date_re : re :=
  literal_then banner_open (Seq (Star false Dot) (Seq (Lit 42) (Lit 42))).

(** The length of the shortest prefix of [s] that ends in two asterisks and
    has no line feed before them. *)
Fixpoint stars_on_line (s : str) : option nat :=
  if startswith [42; 42]%N s then Some 2
  else match s with
       | [] => None
       | c :: s' => if (c =? 10)%N then None else option_map S (stars_on_line s')
       end.

(** The length of the banner that starts [s], if one does. *)
Definition banner_len (s : str) : option nat :=
  if startswith banner_open s
  then option_map (fun n => List.length banner_open + n)
                  (stars_on_line (skipn (List.length banner_open) s))
  else None.

(** Every banner of [s] replaced by [new], from left to right; [skip]
    characters still belong to the banner replaced last. *)
Fixpoint rewrite_banners (new s : str) (skip : nat) {struct s} : str :=
  match s with
  | [] => []
  | c :: s' =>
      match skip with
      | S skip' => rewrite_banners new s' skip'
      | O =>
          match banner_len s with
          | Some n => new ++ rewrite_banners new s' (n - 1)
          | None => c :: rewrite_banners new s' O
          end
      end
  end.

(** Does a banner start somewhere in [s]? *)
Fixpoint has_banner (s : str) : bool :=
  match banner_len s with
  | Some _ => true
  | None => match s with [] => false | _ :: s' => has_banner s' end
  end.

(** A banner: the opening, a body without line feed, and the first pair of
    asterisks after the opening. *)
Definition is_banner (x : str) : Prop :=
  exists body,
    x = banner_open ++ body ++ [42; 42]%N
    /\ ~ In 10%N body
    /\ contains [42; 42]%N (body ++ [42%N]) = false.

(** [rewritten new s s']: [s'] is [s] with every banner replaced by [new],
    the banners taken from left to right, and every other character kept. *)
Inductive rewritten (new : str) : str -> str -> Prop :=
| rw_end : rewritten new [] []
| rw_banner x rest rest' :
    is_banner x -> rewritten new rest rest' ->
    rewritten new (x ++ rest) (new ++ rest')
| rw_char c s s' :
    (forall x rest, is_banner x -> c :: s <> x ++ rest) ->
    rewritten new s s' ->
    rewritten new (c :: s) (c :: s').

(** The document holds a banner somewhere. *)
Definition holds_banner (s : str) : Prop :=
  exists before_ x after_, s = before_ ++ x ++ after_ /\ is_banner x.

(** The banner line for a release date. *)
Definition new_date_line (date : N * N * N) : str :=
  U "📅 Release date: **" ++ strftime_BdY date ++ U "**".

(** The banner line as the specification places it: after the first blank
    line, or at the end when no line is blank. *)
Fixpoint insert_after_first_blank (ucd : UCD) (new : str) (lines : list str) : list str :=
  match lines with
  | [] => [new]
  | line :: lines' =>
      if is_blank ucd line then line :: new :: lines'
      else line :: insert_after_first_blank ucd new lines'
  end.

(** ** Characters a pattern can consume *)

(** Can some character-consuming part of [r] consume [x]? *)
Fixpoint accepts (ucd : UCD) (icase : bool) (r : re) (x : char) : bool :=
  match r with
  | Lit c => lit_match ucd icase c x
  | Dot => negb (x =? 10)%N
  | Cls neg items => cls_match ucd icase neg items x
  | Seq r1 r2 | Alt r1 r2 => accepts ucd icase r1 x || accepts ucd icase r2 x
  | Star _ r1 | Group _ r1 => accepts ucd icase r1 x
  | Eps | Bol | Eol | WordB => false
  end.

(** [ymd_pattern] as [re_compile] reads it. *)
Definition ymd_re : re :=
  Eval vm_compute in
    match re_compile ymd_pattern with
    | Some r => r
    | None => Eps
    end.

(** The heading of a release section. *)
Definition release_heading (release_date : str) : str :=
  U "## [" ++ release_date ++ U "]".

(** Did the run write the document? *)
Definition wrote (o : Outcome) : bool :=
  match o with
  | Written _ => true
  | _ => false
  end.

(** The commit was classified into a category of the table. *)
Definition known_category (d : CommitData) : Prop :=
  In (cd_category d) (map fst CATEGORIES).

(** The dictionary holds at least one line under the key [k]. *)
Definition filled (k : str) (d : list (str * list str)) : Prop :=
  exists x l, dict_get k d = Some (x :: l).

(** The world [w] with [text] as its changelog document. *)
Definition set_changelog (w : World) (text : str) : World :=
  {| RELEASE_DATE := RELEASE_DATE w;
     CHANGELOG_STATS := CHANGELOG_STATS w;
     filter_config := filter_config w;
     last_changelog_date := last_changelog_date w;
     main_repo := main_repo w;
     main_repo_name := main_repo_name w;
     packages_repo := packages_repo w;
     packages_repo_name := packages_repo_name w;
     changelog := Some text |}.

(** ** End-to-end scenario A *)

(** The document of the scenario: a title, a blank line and a marker. *)
Definition scenario_document : str :=
  U "# Changelog" ++ [10; 10]%N ++ U "---" ++ [10%N].

Definition scenario_message : str := U "fix: resolve login crash".




(** One repository with the one commit of the scenario, by alice, for the
    release label 2024-01-01. *)
Definition scenario_a : World :=
  {| RELEASE_DATE := U "2024-01-01";
     CHANGELOG_STATS := U "false";
     filter_config := FILTER_CONFIG;
     last_changelog_date := 1701388800;
     main_repo :=
       RepoCommits [sample_commit (U "3f2a9c") scenario_message (U "alice") 1704103200 []];
     main_repo_name := U "BananaWRT";
     packages_repo := None;
     packages_repo_name := U "banana-packages";
     changelog := Some scenario_document |}.

(** ** Further readings and sample inputs *)

(** [commit] with another message. *)
Definition with_message (commit : Commit) (msg : str) : Commit :=
  {| hexsha := hexsha commit; message := msg; author_name := author_name commit;
     committer_name := committer_name commit; committed_date := committed_date commit;
     parents := parents commit; diff_paths := diff_paths commit |}.

(** The document the run works on: [CHANGELOG.md], or the title alone when
    the file does not exist. *)
Definition document_read (w : World) : str :=
  match changelog w with
  | Some text => text
  | None => U "# Changelog" ++ [10%N; 10%N]
  end.

(** [scenario_a] without its [CHANGELOG.md]. *)
Definition scenario_without_file : World :=
  {| RELEASE_DATE := RELEASE_DATE scenario_a;
     CHANGELOG_STATS := CHANGELOG_STATS scenario_a;
     filter_config := filter_config scenario_a;
     last_changelog_date := last_changelog_date scenario_a;
     main_repo := main_repo scenario_a;
     main_repo_name := main_repo_name scenario_a;
     packages_repo := packages_repo scenario_a;
     packages_repo_name := packages_repo_name scenario_a;
     changelog := None |}.

(** [scenario_a] with a release label that is no date. *)
Definition scenario_bad_label : World :=
  {| RELEASE_DATE := U "next";
     CHANGELOG_STATS := CHANGELOG_STATS scenario_a;
     filter_config := filter_config scenario_a;
     last_changelog_date := last_changelog_date scenario_a;
     main_repo := main_repo scenario_a;
     main_repo_name := main_repo_name scenario_a;
     packages_repo := packages_repo scenario_a;
     packages_repo_name := packages_repo_name scenario_a;
     changelog := changelog scenario_a |}.

(** A literal word as [re_compile] reads it. *)
Fixpoint word_re (p : str) : re :=
  match p with
  | [] => Eps
  | [c] => Lit c
  | c :: p' => Seq (Lit c) (word_re p')
  end.

(** [w] is the word [p] up to case: character by character, as
    [re.IGNORECASE] compares a pattern character with a subject character. *)
Definition same_ignoring_case (ucd : UCD) (p w : str) : Prop :=
  Forall2 (fun c x => lit_match ucd true c x = true) p w.

(** The first alternative, [^style:\s*whitespace], of the third exclude
    pattern, as [re_compile] reads it. *)
Definition style_whitespace_re : re :=
  Eval vm_compute in
    match re_compile (U "^style:\s*whitespace") with
    | Some r => r
    | None => Eps
    end.

(** Neither an asterisk nor a line feed: the characters of a formatted
    date. *)
Definition plain (c : char) : Prop := c <> 42%N /\ c <> 10%N.

(** The text [w] settles the search for the closing asterisks: it holds a
    pair of them, or a line feed. *)
Definition tail_free (w : str) : bool :=
  contains [42; 42]%N w || existsb (N.eqb 10) w.

(** Can [r] match the empty text? *)
Fixpoint nullable (r : re) : bool :=
  match r with
  | Eps | Bol | Eol | WordB | Star _ _ => true
  | Lit _ | Dot | Cls _ _ => false
  | Seq r1 r2 => nullable r1 && nullable r2
  | Alt r1 r2 => nullable r1 || nullable r2
  | Group _ r1 => nullable r1
  end.

(** Does every group of [r] capture at least one character? *)
Fixpoint groups_nonempty (r : re) : bool :=
  match r with
  | Group _ r1 => negb (nullable r1) && groups_nonempty r1
  | Seq r1 r2 | Alt r1 r2 => groups_nonempty r1 && groups_nonempty r2
  | Star _ r1 => groups_nonempty r1
  | _ => true
  end.

(** The patterns whose groups all capture something. *)
Definition captures_text (pattern : str) : Prop :=
  match re_compile pattern with
  | Some r => groups_nonempty r = true
  | None => True
  end.

(** [\bfix\b], the pattern of the first keyword of [EMOJI_MAP], as
    [re_compile] reads it. *)
Definition fix_word_re : re :=
  Seq WordB (Seq (Lit 102) (Seq (Lit 105) (Seq (Lit 120) WordB))).

(* ================================================================== *)
(** * Properties *)

(** ** Strings *)

Lemma str_eqb_eq (a b : str) : str_eqb a b = true <-> a = b.
Proof.
  unfold str_eqb. destruct (list_eq_dec N.eq_dec a b); split; congruence.
Qed.

Lemma str_eqb_refl (a : str) : str_eqb a a = true.
Proof. now apply str_eqb_eq. Qed.


(** ** The matcher against the declarative reading of patterns *)

Section MatcherFacts.
Variable ucd : UCD.
Variable icase : bool.

Lemma consumed_app b w a cs b' cs' :
  consumed (MState b (w ++ a) cs) (MState b' a cs') = w.
Proof.
  unfold consumed; simpl. rewrite length_app.
  replace (List.length w + List.length a - List.length a) with (List.length w + 0) by lia.
  rewrite firstn_app_2. simpl. now rewrite app_nil_r.
Qed.

Lemma progressed_app b w a cs b' cs' :
  progressed (MState b (w ++ a) cs) (MState b' a cs') = negb (match w with [] => true | _ => false end).
Proof.
  unfold progressed; simpl. rewrite length_app.
  destruct w; simpl.
  - apply Nat.ltb_irrefl.
  - apply Nat.ltb_lt. lia.
Qed.

Definition sound_at (r : re) : Prop :=
  forall st k e,
    run ucd icase r st k = Some e ->
    exists w a cs,
      after st = w ++ a /\ matches ucd icase r (before st) w a cs /\
      k (MState (rev w ++ before st) a (cs ++ caps st)) = Some e.

Lemma step_sound p st k e :
  step p st k = Some e ->
  exists x a, after st = x :: a /\ p x = true /\
              k (MState (x :: before st) a (caps st)) = Some e.
Proof.
  unfold step. destruct (after st) as [|x a]; [discriminate|].
  destruct (p x) eqn:Hp; [|discriminate]. intros H. now exists x, a.
Qed.

Lemma star_sound g r :
  sound_at r ->
  forall fuel st k e,
    star_loop (run ucd icase r) g k fuel st = Some e ->
    exists w a cs,
      after st = w ++ a /\ matches ucd icase (Star g r) (before st) w a cs /\
      k (MState (rev w ++ before st) a (cs ++ caps st)) = Some e.
Proof.
  intros IHr fuel.
  assert (Hstop : forall st (k : mstate -> option mstate) e, k st = Some e ->
            exists w a cs,
              after st = w ++ a /\ matches ucd icase (Star g r) (before st) w a cs /\
              k (MState (rev w ++ before st) a (cs ++ caps st)) = Some e).
  { intros [b a cs] k e H. exists [], a, []. simpl. repeat split; auto. constructor. }
  induction fuel as [|fuel IH]; intros st k e H; simpl in H.
  - now apply Hstop.
  - assert (Hagain : forall e',
              run ucd icase r st
                (fun st' => if progressed st st'
                            then star_loop (run ucd icase r) g k fuel st' else None) = Some e' ->
              exists w a cs,
                after st = w ++ a /\ matches ucd icase (Star g r) (before st) w a cs /\
                k (MState (rev w ++ before st) a (cs ++ caps st)) = Some e').
    { intros e' H'. apply IHr in H'. destruct H' as (w1 & a1 & cs1 & Ha & Hm & Hk).
      destruct st as [b a0 cs0]; simpl in *. subst a0.
      rewrite progressed_app in Hk.
      assert (Hne : w1 <> []) by (intro; subst w1; discriminate).
      replace (negb _) with true in Hk by (destruct w1; [congruence | reflexivity]).
      apply IH in Hk. destruct Hk as (w2 & a2 & cs2 & Ha2 & Hm2 & Hk2).
      cbn [before after caps] in *.
      subst a1. exists (w1 ++ w2), a2, (cs2 ++ cs1).
      repeat split.
      - now rewrite <- app_assoc.
      - eapply M_StarS; eauto.
      - rewrite rev_app_distr, <- !app_assoc. exact Hk2. }
    destruct g.
    + destruct (run _ _ _ _ _) eqn:E in H.
      * inversion H; subst. now apply Hagain.
      * now apply Hstop.
    + destruct (k st) eqn:E.
      * inversion H; subst. now apply Hstop.
      * now apply Hagain.
Qed.

Lemma run_sound r : sound_at r.
Proof.
  induction r; intros st k e H; simpl in H.
  - destruct st as [b a cs]. exists [], a, []. repeat split; auto. constructor.
  - apply step_sound in H. destruct H as (x & a & Ha & Hp & Hk).
    exists [x], a, []. repeat split; auto. now constructor.
  - apply step_sound in H. destruct H as (x & a & Ha & Hp & Hk).
    exists [x], a, []. repeat split; auto. constructor. now apply negb_true_iff.
  - apply step_sound in H. destruct H as (x & a & Ha & Hp & Hk).
    exists [x], a, []. repeat split; auto. now constructor.
  - unfold guard in H. destruct (at_bol st) eqn:E; [|discriminate].
    destruct st as [b a cs]. unfold at_bol in E; simpl in E. destruct b; [|discriminate].
    exists [], a, []. repeat split; auto. constructor.
  - unfold guard in H. destruct (at_eol st) eqn:E; [|discriminate].
    destruct st as [b a cs]. exists [], a, []. repeat split; auto. now constructor.
  - unfold guard in H. destruct (at_boundary ucd st) eqn:E; [|discriminate].
    destruct st as [b a cs]. exists [], a, []. repeat split; auto. now constructor.
  - apply IHr1 in H. destruct H as (w1 & a1 & cs1 & Ha1 & Hm1 & H).
    apply IHr2 in H. destruct H as (w2 & a2 & cs2 & Ha2 & Hm2 & H). simpl in *.
    subst a1. exists (w1 ++ w2), a2, (cs2 ++ cs1). repeat split.
    + now rewrite <- app_assoc.
    + now constructor.
    + now rewrite rev_app_distr, <- !app_assoc.
  - destruct (run ucd icase r1 st k) eqn:E.
    + inversion H; subst. apply IHr1 in E. destruct E as (w & a & cs & ? & ? & ?).
      exists w, a, cs. repeat split; auto. now apply M_AltL.
    + apply IHr2 in H. destruct H as (w & a & cs & ? & ? & ?).
      exists w, a, cs. repeat split; auto. now apply M_AltR.
  - now apply star_sound in H.
  - apply IHr in H. destruct H as (w & a & cs & Ha & Hm & H).
    destruct st as [b a0 cs0]; simpl in *. subst a0.
    unfold capture in H. rewrite consumed_app in H. simpl in H.
    exists w, a, ((n, w) :: cs). repeat split; auto. now constructor.
Qed.


Definition complete_at (r : re) : Prop :=
  forall b w a cs,
    matches ucd icase r b w a cs ->
    forall k caps0,
      (forall caps', k (MState (rev w ++ b) a caps') <> None) ->
      run ucd icase r (MState b (w ++ a) caps0) k <> None.

Lemma star_complete g r :
  complete_at r ->
  forall b w a cs,
    matches ucd icase (Star g r) b w a cs ->
    forall fuel k caps0,
      List.length (w ++ a) <= fuel ->
      (forall caps', k (MState (rev w ++ b) a caps') <> None) ->
      star_loop (run ucd icase r) g k fuel (MState b (w ++ a) caps0) <> None.
Proof.
  intros Hbody b w a cs Hm. remember (Star g r) as r0 eqn:Heq.
  induction Hm; try discriminate; injection Heq as Hg Hr; subst g0 r0;
    intros fuel k caps0 Hfuel Hk.
  - specialize (Hk caps0). simpl in Hk.
    destruct fuel; simpl; auto.
    destruct g.
    + destruct (run _ _ _ _ _); [discriminate | exact Hk].
    + destruct (k _) eqn:E; [discriminate | contradiction].
  - clear IHHm1. specialize (IHHm2 eq_refl).
    rewrite length_app in Hfuel.
    destruct fuel as [|fuel]; [destruct w1; [congruence | simpl in Hfuel; lia]|].
    assert (Hagain :
              run ucd icase r (MState b ((w1 ++ w2) ++ a) caps0)
                (fun st' =>
                   if progressed (MState b ((w1 ++ w2) ++ a) caps0) st'
                   then star_loop (run ucd icase r) g k fuel st' else None) <> None).
    { rewrite <- app_assoc. apply (Hbody _ _ _ _ Hm1). intros caps'.
      rewrite progressed_app.
      replace (negb _) with true by (destruct w1; [congruence | reflexivity]).
      apply IHHm2.
      - destruct w1; [congruence|]. simpl in Hfuel. rewrite length_app in *. lia.
      - intros caps''. specialize (Hk caps'').
        now rewrite rev_app_distr, <- app_assoc in Hk. }
    simpl. destruct g.
    + destruct (run _ _ _ _ _); [discriminate | contradiction].
    + destruct (k _); [discriminate | exact Hagain].
Qed.

Lemma run_complete r : complete_at r.
Proof.
  induction r; intros b w a cs Hm k caps0 Hk; inversion Hm; subst; simpl;
    try (unfold step, guard, at_bol, at_eol, at_boundary in *; simpl in *;
         match goal with H : _ = _ :> bool |- _ => rewrite H end; simpl; now apply Hk).
  - apply Hk.
  - apply Hk.
  - rewrite <- app_assoc.
    match goal with H : matches ucd icase r1 _ _ _ _ |- _ => apply (IHr1 _ _ _ _ H) end.
    intros caps'.
    match goal with H : matches ucd icase r2 _ _ _ _ |- _ => apply (IHr2 _ _ _ _ H) end.
    intros caps''. specialize (Hk caps'').
    now rewrite rev_app_distr, <- app_assoc in Hk.
  - destruct (run ucd icase r1 _ k) eqn:E; [discriminate|].
    exfalso. revert E.
    match goal with H : matches ucd icase r1 _ _ _ _ |- _ => now apply (IHr1 _ _ _ _ H) end.
  - destruct (run ucd icase r1 _ k) eqn:E; [discriminate|].
    match goal with H : matches ucd icase r2 _ _ _ _ |- _ => now apply (IHr2 _ _ _ _ H) end.
  - refine (@star_complete _ _ IHr _ _ _ _ Hm _ k caps0 _ Hk). apply Nat.le_refl.
  - refine (@star_complete _ _ IHr _ _ _ _ Hm _ k caps0 _ Hk). apply Nat.le_refl.
  - match goal with H : matches ucd icase r _ _ _ _ |- _ => apply (IHr _ _ _ _ H) end.
    intros caps'. apply Hk.
Qed.

End MatcherFacts.

(** ** Classifier: scores *)

Section ScoreFacts.
Variable ucd : UCD.

Lemma count_loop (p : str -> bool) (step_ : nat) (l : list str) (score : nat) :
  fold_left (fun score x => if p x then score + step_ else score) l score
  = score + step_ * List.length (filter p l).
Proof.
  revert score. induction l as [|x l IH]; intros score; simpl.
  - lia.
  - rewrite IH. destruct (p x); simpl; lia.
Qed.

Lemma message_score_eq details msg_lower score :
  message_score ucd details msg_lower score
  = score + 2 * List.length (filter (searches ucd true msg_lower) (patterns details)).
Proof. unfold message_score. now rewrite count_loop. Qed.

Lemma files_score_eq details files score :
  files_score ucd details files score
  = score + list_sum
              (map (fun file_path =>
                      List.length (filter (searches ucd true file_path)
                                          (file_patterns details)))
                   files).
Proof.
  unfold files_score. revert score.
  induction files as [|f files IH]; intros score; simpl.
  - lia.
  - rewrite IH, count_loop. lia.
Qed.

End ScoreFacts.

(** C3, as the code has it.  For every message and changed-file list the score
    of a category is 2 for each of its message patterns that matches the
    lower-cased message (case-insensitive search) plus 1 for every pair of a
    changed file and a file pattern of the category that matches it: a file
    that matches several file patterns of one category counts once per
    pattern. *)
Theorem category_score_counts_pairs (ucd : UCD) (details : Category) (commit_msg : str)
        (files_changed : list str) :
  category_score ucd details (lower ucd commit_msg) files_changed
  = pair_score ucd details commit_msg files_changed.
Proof.
  unfold category_score, pair_score.
  rewrite files_score_eq, message_score_eq. lia.
Qed.

(** C3 as stated fails: [README.md] matches two file patterns of the
    documentation category ([README] and [\.md$]); the code scores 2 where
    "at most 1 per file" gives 1. *)
Lemma category_score_not_one_per_file :
  category_score ascii_ucd (category (U "documentation"))
                 (lower ascii_ucd (U "tidy up")) [U "README.md"] = 2
  /\ spec_score ascii_ucd (category (U "documentation")) (U "tidy up") [U "README.md"] = 1.
Proof. split; vm_compute; reflexivity. Qed.

(** ** Dictionaries *)

Lemma dict_get_none_notin {V} k (d : list (str * V)) :
  dict_get k d = None <-> ~ In k (map fst d).
Proof.
  induction d as [|[k' v] d IH]; simpl.
  - tauto.
  - destruct (str_eqb k' k) eqn:E.
    + apply str_eqb_eq in E. split; [discriminate | tauto].
    + rewrite IH. split.
      * intros H [Heq|Hin]; [|tauto]. subst. now rewrite str_eqb_refl in E.
      * tauto.
Qed.

Lemma dict_set_fresh {V} k (v : V) d :
  ~ In k (map fst d) -> dict_set k v d = d ++ [(k, v)].
Proof.
  induction d as [|[k' v'] d IH]; simpl; intros H.
  - reflexivity.
  - destruct (str_eqb k' k) eqn:E.
    + apply str_eqb_eq in E. tauto.
    + rewrite IH by tauto. reflexivity.
Qed.

(** ** Classifier: selection *)

Section SelectionFacts.
Variable ucd : UCD.

Lemma positive_scores_keys table msg files k :
  In k (map fst (positive_scores ucd table msg files)) -> In k (map fst table).
Proof.
  unfold positive_scores. induction table as [|[k' d] table IH]; simpl; auto.
  rewrite map_app, in_app_iff. intros [H|H]; auto.
  destruct (0 <? _); simpl in H; tauto.
Qed.

Lemma category_scores_from table msg files acc :
  NoDup (map fst acc ++ map fst table) ->
  fold_left
    (fun scores '(category, details) =>
       let score := category_score ucd details msg files in
       if 0 <? score then dict_set category score scores else scores)
    table acc
  = acc ++ positive_scores ucd table msg files.
Proof.
  revert acc. induction table as [|[k d] table IH]; intros acc Hnd; simpl.
  - now rewrite app_nil_r.
  - assert (Hk : ~ In k (map fst acc)).
    { intros Hin. apply NoDup_remove_2 in Hnd. apply Hnd.
      apply in_or_app. now left. }
    destruct (0 <? category_score ucd d msg files) eqn:E.
    + rewrite IH.
      * rewrite dict_set_fresh by assumption. now rewrite <- app_assoc.
      * rewrite dict_set_fresh by assumption.
        rewrite map_app; simpl. rewrite <- app_assoc. simpl.
        simpl in Hnd. exact Hnd.
    + rewrite IH; [reflexivity|].
      simpl in Hnd. apply NoDup_remove_1 in Hnd. exact Hnd.
Qed.

Lemma category_scores_eq table msg files :
  NoDup (map fst table) ->
  category_scores ucd table msg files = positive_scores ucd table msg files.
Proof.
  intros H. unfold category_scores. now rewrite category_scores_from.
Qed.

End SelectionFacts.

Lemma max_from_le best d : snd best <= snd (max_from best d).
Proof.
  revert best. induction d as [|kv d IH]; intros best; simpl; auto.
  destruct (snd best <? snd kv) eqn:E.
  - apply Nat.ltb_lt in E. specialize (IH kv). lia.
  - apply IH.
Qed.

Lemma max_from_stays best d :
  Forall (fun kv => snd kv <= snd best) d -> max_from best d = best.
Proof.
  induction 1 as [|kv d Hkv _ IH]; simpl; auto.
  replace (snd best <? snd kv) with false; auto.
  symmetry. apply Nat.ltb_ge. exact Hkv.
Qed.

Lemma max_from_reaches best l1 kv l2 :
  snd best < snd kv ->
  Forall (fun e => snd e < snd kv) l1 ->
  max_from best (l1 ++ kv :: l2) = max_from kv l2.
Proof.
  revert best. induction l1 as [|x l1 IH]; intros best Hb Hl; simpl.
  - apply Nat.ltb_lt in Hb. now rewrite Hb.
  - inversion Hl; subst. destruct (snd best <? snd x); apply IH; auto.
Qed.

Lemma max_from_bound best d m :
  snd best <= m -> Forall (fun kv => snd kv <= m) d -> snd (max_from best d) <= m.
Proof.
  revert best. induction d as [|kv d IH]; intros best Hb Hd; simpl; auto.
  inversion Hd; subst. destruct (snd best <? snd kv); apply IH; auto.
Qed.

Lemma distinct_NoDup l : distinct l = true -> NoDup l.
Proof.
  induction l as [|x l IH]; simpl; intros H; constructor.
  - apply andb_prop in H. destruct H as [H _]. apply negb_true_iff in H.
    intros Hin. assert (existsb (str_eqb x) l = true); [|congruence].
    apply existsb_exists. exists x. split; auto. apply str_eqb_refl.
  - apply IH. apply andb_prop in H. tauto.
Qed.

Lemma CATEGORIES_keys_distinct : NoDup (map fst CATEGORIES).
Proof. apply distinct_NoDup. vm_compute. reflexivity. Qed.

Section CategorizeFacts.
Variable ucd : UCD.

Lemma positive_scores_app t1 t2 msg files :
  positive_scores ucd (t1 ++ t2) msg files
  = positive_scores ucd t1 msg files ++ positive_scores ucd t2 msg files.
Proof. unfold positive_scores. apply flat_map_app. Qed.

Lemma positive_scores_Forall (P : nat -> Prop) table msg files :
  Forall (fun e => P (category_score ucd (snd e) msg files)) table ->
  Forall (fun kv => P (snd kv)) (positive_scores ucd table msg files).
Proof.
  induction 1 as [|e table He _ IH]; simpl.
  - constructor.
  - apply Forall_app. split; auto.
    destruct (0 <? _); repeat constructor. exact He.
Qed.

Lemma categorize_first_max table msg files pre k d post m :
  NoDup (map fst table) ->
  table = pre ++ (k, d) :: post ->
  score_of ucd msg files (k, d) = m ->
  2 <= m ->
  Forall (fun e => score_of ucd msg files e < m) pre ->
  Forall (fun e => score_of ucd msg files e <= m) post ->
  categorize_commit_in ucd table msg files = k.
Proof.
  intros Hnd Ht Hm H2 Hpre Hpost. unfold categorize_commit_in.
  rewrite category_scores_eq by assumption. subst table.
  rewrite positive_scores_app.
  change (positive_scores ucd ((k, d) :: post) (lower ucd msg) files)
    with ((if 0 <? score_of ucd msg files (k, d)
           then [(k, score_of ucd msg files (k, d))] else [])
            ++ positive_scores ucd post (lower ucd msg) files).
  rewrite Hm. replace (0 <? m) with true by (symmetry; apply Nat.ltb_lt; lia).
  simpl app.
  pose proof (positive_scores_Forall (fun s => s < m) pre (lower ucd msg) files Hpre) as HP.
  pose proof (positive_scores_Forall (fun s => s <= m) post (lower ucd msg) files Hpost) as HQ.
  assert (Hnot : (m <? 2) = false) by (apply Nat.ltb_ge; lia).
  destruct (positive_scores ucd pre (lower ucd msg) files) as [|p P];
    simpl app; cbv beta iota.
  - rewrite max_from_stays by exact HQ. now rewrite Hnot.
  - inversion HP; subst.
    rewrite max_from_reaches by assumption.
    rewrite max_from_stays by exact HQ. now rewrite Hnot.
Qed.

Lemma categorize_below_two table msg files :
  NoDup (map fst table) ->
  dict_has (U "other") table = true ->
  Forall (fun e => score_of ucd msg files e <= 1) table ->
  categorize_commit_in ucd table msg files = U "other".
Proof.
  intros Hnd Hother Hall. unfold categorize_commit_in.
  rewrite category_scores_eq by assumption.
  pose proof (positive_scores_Forall (fun s => s <= 1) table (lower ucd msg) files Hall) as HP.
  destruct (positive_scores ucd table (lower ucd msg) files) as [|p P]; auto.
  inversion HP; subst.
  pose proof (@max_from_bound p P 1 H1 H2) as Hb. cbv beta iota.
  destruct (max_from p P) as [bk bs]. simpl in Hb.
  replace (bs <? 2) with true by (symmetry; apply Nat.ltb_lt; lia).
  now rewrite Hother.
Qed.

Lemma category_scores_reprioritize f table msg files :
  category_scores ucd (reprioritize f table) msg files
  = category_scores ucd table msg files.
Proof.
  unfold category_scores. generalize (@nil (str * nat)).
  induction table as [|[k d] table IH]; intros acc; simpl; auto.
Qed.

Lemma dict_get_reprioritize f table k :
  dict_get k (reprioritize f table)
  = option_map (with_priority (f k)) (dict_get k table).
Proof.
  induction table as [|[k' d] table IH]; simpl; auto.
  destruct (str_eqb k' k) eqn:E; auto.
  apply str_eqb_eq in E. now subst.
Qed.

Lemma categorize_reprioritize f table msg files :
  categorize_commit_in ucd (reprioritize f table) msg files
  = categorize_commit_in ucd table msg files.
Proof.
  unfold categorize_commit_in. rewrite category_scores_reprioritize.
  unfold dict_has. rewrite dict_get_reprioritize.
  destruct (dict_get (U "other") table); reflexivity.
Qed.

End CategorizeFacts.

(** C5, as the code has it.  When a category reaches a score of at least 2,
    no category before it in the table's order reaches that score, and none
    after it exceeds it (so it may be tied with later ones), the classifier
    returns that category: among tied categories the earliest in the declared
    order wins.  The result is the same whatever priorities the table
    carries. *)
Theorem tie_goes_to_earliest_category (ucd : UCD) (commit_msg : str)
        (files_changed : list str) pre k d post m :
  CATEGORIES = pre ++ (k, d) :: post ->
  score_of ucd commit_msg files_changed (k, d) = m ->
  2 <= m ->
  Forall (fun e => score_of ucd commit_msg files_changed e < m) pre ->
  Forall (fun e => score_of ucd commit_msg files_changed e <= m) post ->
  categorize_commit ucd commit_msg files_changed = k
  /\ forall f : str -> Z,
      categorize_commit_in ucd (reprioritize f CATEGORIES) commit_msg files_changed = k.
Proof.
  intros Ht Hm H2 Hpre Hpost.
  assert (H : categorize_commit ucd commit_msg files_changed = k).
  { unfold categorize_commit.
    eapply categorize_first_max; eauto using CATEGORIES_keys_distinct. }
  split; [exact H|]. intros f. now rewrite categorize_reprioritize.
Qed.

(** The message [fix: improve logging] scores 2 for both improvements and
    bugfixes; improvements is declared first. *)
Lemma tie_goes_to_earliest_category_witness :
  categorize_commit ascii_ucd (U "fix: improve logging") [] = U "improvements"
  /\ forall f : str -> Z,
      categorize_commit_in ascii_ucd (reprioritize f CATEGORIES)
                           (U "fix: improve logging") [] = U "improvements".
Proof.
  apply (@tie_goes_to_earliest_category ascii_ucd (U "fix: improve logging") []
           (firstn 2 CATEGORIES) (U "improvements") (category (U "improvements"))
           (skipn 3 CATEGORIES) 2).
  - reflexivity.
  - vm_compute. reflexivity.
  - lia.
  - repeat constructor; vm_compute; lia.
  - repeat constructor; vm_compute; lia.
Defined.

(** C5 as stated fails for a tie at score 1: [package/Makefile] scores 1 for
    packages and 1 for build_ci, and the commit goes to the catch-all category,
    not to packages. *)
Lemma tie_below_two_goes_to_other :
  category_scores ascii_ucd CATEGORIES (lower ascii_ucd (U "tidy up")) [U "package/Makefile"]
  = [(U "packages", 1); (U "build_ci", 1)]
  /\ categorize_commit ascii_ucd (U "tidy up") [U "package/Makefile"] = U "other".
Proof. split; vm_compute; reflexivity. Qed.

(** C6.  When the largest score of any category is below 2 (a positive score
    of 1 as well as no positive score at all), the classifier returns the
    catch-all category [other]. *)
Theorem low_score_goes_to_other (ucd : UCD) (commit_msg : str) (files_changed : list str) :
  list_max (map (score_of ucd commit_msg files_changed) CATEGORIES) < 2 ->
  categorize_commit ucd commit_msg files_changed = U "other".
Proof.
  intros H. unfold categorize_commit.
  apply categorize_below_two.
  - apply CATEGORIES_keys_distinct.
  - reflexivity.
  - assert (H1 : list_max (map (score_of ucd commit_msg files_changed) CATEGORIES) <= 1) by lia.
    apply list_max_le in H1. rewrite Forall_map in H1. exact H1.
Qed.

(** [src/README] is a single file-pattern hit for documentation (score 1). *)
Lemma low_score_goes_to_other_witness :
  categorize_commit ascii_ucd (U "tidy up") [U "src/README"] = U "other".
Proof.
  apply low_score_goes_to_other. vm_compute. lia.
Defined.

(** ** Formatter: a blank first line *)

Section StripFacts.
Variable ucd : UCD.

Lemma lstrip_spaces s :
  Forall (fun c => isspace ucd c = true) s -> lstrip ucd s = [].
Proof.
  induction 1 as [|c s Hc _ IH]; simpl; auto. now rewrite Hc.
Qed.

Lemma strip_spaces s :
  Forall (fun c => isspace ucd c = true) s -> strip ucd s = [].
Proof.
  intros H. unfold strip. now rewrite lstrip_spaces.
Qed.

End StripFacts.

(** C10.  When the first line of the commit message is empty or holds only
    white space, [format_commit_message] returns (it is a total function: no
    exception is modelled or needed) the fallback glyph, an empty message
    part and the author: the tools glyph, two spaces, [by @author]. *)
Theorem blank_first_line_formats_to_fallback (ucd : UCD) (emoji_data : list str)
        (commit : Commit) (author : str) :
  Forall (fun c => isspace ucd c = true) (first_line (message commit)) ->
  format_commit_message ucd emoji_data commit author = U "🛠️  by @" ++ author.
Proof.
  intros H. unfold format_commit_message, format_message.
  rewrite (strip_spaces ucd _ H).
  vm_compute. reflexivity.
Qed.

(** A message whose first line is three spaces. *)
Lemma blank_first_line_formats_to_fallback_witness :
  format_commit_message ascii_ucd []
    {| hexsha := U "0a1b2c"; message := U "   " ++ [10%N] ++ U "body";
       author_name := U "alice"; committer_name := U "alice";
       committed_date := 1700000000%Z; parents := 1; diff_paths := Some [] |}
    (U "alice")
  = U "🛠️  by @" ++ U "alice".
Proof.
  apply blank_first_line_formats_to_fallback.
  vm_compute. repeat constructor.
Defined.

(** ** Deduplication *)

Lemma filter_filter {A} (p q : A -> bool) l :
  filter p (filter q l) = filter (fun x => q x && p x) l.
Proof.
  induction l as [|x l IH]; simpl; auto.
  destruct (q x); simpl; [destruct (p x)|]; now rewrite IH.
Qed.

Lemma first_seen_keys {A} (key : A -> str) l x :
  In x (first_seen key l) -> In x l.
Proof.
  revert x. induction l as [|y l IH]; simpl; auto.
  intros x [H|H]; auto. apply filter_In in H. right. apply IH. tauto.
Qed.

Lemma NoDup_map_filter {A B} (f : A -> B) (p : A -> bool) l :
  NoDup (map f l) -> NoDup (map f (filter p l)).
Proof.
  induction l as [|x l IH]; simpl; auto.
  intros H. inversion H; subst. destruct (p x); simpl; auto.
  constructor; auto. intros Hin. apply H2.
  apply in_map_iff in Hin. destruct Hin as (y & Hy & Hin).
  apply filter_In in Hin. apply in_map_iff. exists y. tauto.
Qed.

Lemma first_seen_NoDup {A} (key : A -> str) l :
  NoDup (map key (first_seen key l)).
Proof.
  induction l as [|x l IH]; simpl; constructor.
  - intros Hin. apply in_map_iff in Hin. destruct Hin as (y & Hy & Hin).
    apply filter_In in Hin. destruct Hin as [_ Hneq].
    rewrite Hy, str_eqb_refl in Hneq. discriminate.
  - now apply NoDup_map_filter.
Qed.

Section DedupFacts.
Variable ucd : UCD.
Variable emoji_data : list str.
Variable md5_hexdigest : str -> str.
Variable datetime_str : Z -> str.

Let fingerprint := get_commit_hash md5_hexdigest datetime_str.
Let data := commit_data ucd emoji_data.
Let walk := walk_commits ucd emoji_data md5_hexdigest datetime_str.

Lemma matches_exclude_valid pats msg :
  Forall (fun pattern => re_compile pattern <> None) pats ->
  matches_exclude ucd pats msg <> None.
Proof.
  induction 1 as [|p pats Hp _ IH]; simpl; [discriminate|].
  destruct (re_compile p); [|contradiction].
  destruct (searches ucd true msg p); [discriminate | exact IH].
Qed.

Lemma should_skip_commit_valid cfg commit :
  valid_config cfg -> should_skip_commit ucd cfg commit <> None.
Proof.
  intros H. unfold should_skip_commit.
  destruct (_ && _); [discriminate|].
  pose proof (@matches_exclude_valid (exclude_patterns cfg) (message commit) H) as Hm.
  destruct (matches_exclude ucd _ _) as [[|]|]; [discriminate | | contradiction].
  destruct (_ && _); discriminate.
Qed.

Lemma walk_commits_spec cfg repo_name since_date commits seen :
  valid_config cfg ->
  Forall (well_formed datetime_str) commits ->
  walk cfg repo_name since_date commits seen
  = Some (filter (unseen fingerprint seen)
            (first_seen fingerprint
               (map (data repo_name) (survivors ucd cfg since_date commits)))).
Proof.
  intros Hcfg Hwf. revert seen.
  induction Hwf as [|c rest [Hdate Henc] _ IH]; intros seen; simpl; auto.
  rewrite Hdate. cbn [negb].
  destruct (committed_date c <=? since_date)%Z; auto.
  pose proof (@should_skip_commit_valid cfg c Hcfg) as Hs.
  destruct (should_skip_commit ucd cfg c) as [[|]|]; [apply IH | | contradiction].
  change (unique_string datetime_str (commit_data ucd emoji_data repo_name c))
    with (hexsha c ++ U ":" ++ resolve_author c ++ U ":"
            ++ datetime_str (committed_date c)).
  rewrite Henc. cbn [negb].
  simpl. fold data fingerprint.
  unfold unseen at 1.
  destruct (existsb (str_eqb (fingerprint (data repo_name c))) seen) eqn:E; simpl.
  - fold walk. rewrite IH. f_equal. rewrite filter_filter.
    apply filter_ext_in. intros d _. unfold unseen.
    destruct (str_eqb (fingerprint d) (fingerprint (data repo_name c))) eqn:Ed; simpl; auto.
    apply str_eqb_eq in Ed. rewrite Ed, E. reflexivity.
  - fold walk. rewrite IH. simpl. f_equal. f_equal. rewrite filter_filter.
    apply filter_ext_in. intros d _. unfold unseen. simpl.
    now rewrite negb_orb.
Qed.

Lemma filter_true {A} (l : list A) : filter (fun _ => true) l = l.
Proof. induction l; simpl; congruence. Qed.

Lemma get_recent_commits_spec cfg commits repo_name since_date :
  valid_config cfg ->
  Forall (well_formed datetime_str) commits ->
  get_recent_commits ucd emoji_data md5_hexdigest datetime_str cfg
                     (RepoCommits commits) repo_name since_date
  = first_seen fingerprint
      (map (data repo_name) (survivors ucd cfg since_date commits)).
Proof.
  intros H Hwf. unfold get_recent_commits. fold walk.
  rewrite walk_commits_spec by assumption.
  unfold unseen. simpl. apply filter_true.
Qed.

(** Whatever the walk keeps is new: no fingerprint is kept twice, and none
    that was seen before. *)
Lemma walk_commits_fresh cfg repo_name since_date commits :
  forall seen kept,
    walk cfg repo_name since_date commits seen = Some kept ->
    NoDup (map fingerprint kept)
    /\ Forall (fun d => existsb (str_eqb (fingerprint d)) seen = false) kept.
Proof.
  induction commits as [|c rest IH]; intros seen kept; simpl.
  - intros [= <-]. split; constructor.
  - destruct (negb (fromtimestamp_ok (committed_date c))); [discriminate|].
    destruct (committed_date c <=? since_date)%Z.
    { intros [= <-]. split; constructor. }
    destruct (should_skip_commit ucd cfg c) as [[|]|]; [apply IH | | discriminate].
    destruct (negb (encodable _)); [discriminate|].
    fold fingerprint data.
    destruct (existsb (str_eqb (fingerprint (data repo_name c))) seen) eqn:E;
      [apply IH|].
    fold walk.
    destruct (walk cfg repo_name since_date rest _) as [kept'|] eqn:Hw; [|discriminate].
    intros [= <-]. destruct (IH _ _ Hw) as [Hnd Hall].
    assert (Hout : Forall (fun d => str_eqb (fingerprint (data repo_name c)) (fingerprint d)
                                    = false
                                    /\ existsb (str_eqb (fingerprint d)) seen = false)
                          kept').
    { eapply Forall_impl; [|exact Hall]. intros d Hd. cbn [existsb] in Hd.
      apply orb_false_iff in Hd. destruct Hd as [Hd1 Hd2]. split; [|exact Hd2].
      destruct (str_eqb (fingerprint (data repo_name c)) (fingerprint d)) eqn:Ed; auto.
      apply str_eqb_eq in Ed. rewrite Ed, str_eqb_refl in Hd1. discriminate. }
    split.
    + cbn [map]. constructor; [|exact Hnd].
      intros Hin. apply in_map_iff in Hin. destruct Hin as (d & Hd & Hin).
      rewrite Forall_forall in Hout. destruct (Hout d Hin) as [Hne _].
      rewrite Hd, str_eqb_refl in Hne. discriminate.
    + constructor; [exact E|].
      eapply Forall_impl; [|exact Hout]. intros d [_ Hd]. exact Hd.
Qed.

Lemma get_recent_commits_NoDup cfg repo repo_name since_date :
  NoDup (map fingerprint
             (get_recent_commits ucd emoji_data md5_hexdigest datetime_str cfg
                                 repo repo_name since_date)).
Proof.
  unfold get_recent_commits. destruct repo as [|commits]; [constructor|].
  fold walk.
  destruct (walk cfg repo_name since_date commits []) as [kept|] eqn:Hw; [|constructor].
  now apply walk_commits_fresh in Hw.
Qed.

End DedupFacts.

(** C2, as the code has it.  The fingerprint is the MD5 digest of identity
    hash, resolved author and timestamp joined by colons.  The list that
    [get_recent_commits] returns for one repository never holds a
    fingerprint twice.  When the walk does not raise (every exclude pattern
    of the configuration is a pattern, and every commit has a timestamp that
    [fromtimestamp] converts and a fingerprint text that [encode] accepts),
    the list is exactly this: of the commits that reach the formatter, the
    first one with each fingerprint, a commit whose fingerprint was seen
    before being dropped.  The lists of the repositories are concatenated as
    they are, and fingerprints are never compared across repositories. *)
Theorem dedup_is_per_repository (ucd : UCD) (emoji_data : list str)
        (md5_hexdigest : str -> str) (datetime_str : Z -> str)
        (cfg : FilterConfig) (commits : list Commit) (repo_name : str) (since_date : Z) :
  let fingerprint := get_commit_hash md5_hexdigest datetime_str in
  let kept :=
    get_recent_commits ucd emoji_data md5_hexdigest datetime_str cfg
                       (RepoCommits commits) repo_name since_date in
  (forall d, fingerprint d
             = md5_hexdigest (cd_sha d ++ U ":" ++ cd_author d ++ U ":"
                                     ++ datetime_str (cd_date d)))
  /\ NoDup (map fingerprint kept)
  /\ (valid_config cfg ->
      Forall (well_formed datetime_str) commits ->
      kept = first_seen fingerprint
               (map (commit_data ucd emoji_data repo_name)
                    (survivors ucd cfg since_date commits)))
  /\ (forall w,
        all_commits ucd emoji_data md5_hexdigest datetime_str w
        = get_recent_commits ucd emoji_data md5_hexdigest datetime_str
            (filter_config w) (main_repo w) (main_repo_name w) (last_changelog_date w)
          ++ match packages_repo w with
             | Some repo =>
                 get_recent_commits ucd emoji_data md5_hexdigest datetime_str
                   (filter_config w) repo (packages_repo_name w) (last_changelog_date w)
             | None => []
             end).
Proof.
  intros fingerprint kept. repeat split.
  - apply get_recent_commits_NoDup.
  - intros Hcfg Hwf. now apply get_recent_commits_spec.
Qed.

Lemma FILTER_CONFIG_valid : valid_config FILTER_CONFIG.
Proof. repeat constructor; vm_compute; discriminate. Qed.

(** A walk that meets the same commit twice keeps it once. *)
Lemma dedup_is_per_repository_witness :
  let kept :=
    get_recent_commits ascii_ucd sample_emoji_data sample_digest sample_datetime_str
      FILTER_CONFIG (RepoCommits [shared_commit; shared_commit]) (U "BananaWRT")
      1701388800 in
  map cd_sha kept = [U "3f2a9c"]
  /\ NoDup (map (get_commit_hash sample_digest sample_datetime_str) kept).
Proof.
  destruct (@dedup_is_per_repository ascii_ucd sample_emoji_data sample_digest
              sample_datetime_str FILTER_CONFIG [shared_commit; shared_commit]
              (U "BananaWRT") 1701388800%Z)
    as (_ & Hnodup & Hkept & _).
  split.
  - rewrite (Hkept FILTER_CONFIG_valid).
    + vm_compute. reflexivity.
    + repeat constructor; vm_compute; reflexivity.
  - exact Hnodup.
Defined.

(** C2 as stated fails across repositories: the commit [3f2a9c] arrives from
    both repositories with the same identity hash, resolved author and
    timestamp, hence the same fingerprint, and both copies are kept. *)
Lemma duplicate_across_repositories_kept :
  let kept :=
    all_commits ascii_ucd sample_emoji_data sample_digest sample_datetime_str
                two_repositories in
  map cd_repo kept = [U "BananaWRT"; U "banana-packages"]
  /\ map cd_sha kept = [U "3f2a9c"; U "3f2a9c"]
  /\ map cd_author kept = [U "alice"; U "alice"]
  /\ map cd_date kept = [1704103200%Z; 1704103200%Z]
  /\ map (get_commit_hash sample_digest sample_datetime_str) kept
     = [U "3f2a9c:alice:1704103200"; U "3f2a9c:alice:1704103200"].
Proof. vm_compute. repeat split; reflexivity. Qed.

(** ** Reading a match derivation *)

Section MatchInversion.
Variable ucd : UCD.
Variable icase : bool.

Lemma matches_eps_inv b w a cs :
  matches ucd icase Eps b w a cs -> w = [] /\ cs = [].
Proof. inversion 1; auto. Qed.

Lemma matches_lit_inv c b w a cs :
  matches ucd icase (Lit c) b w a cs ->
  exists x, w = [x] /\ cs = [] /\ lit_match ucd icase c x = true.
Proof. inversion 1; subst; eauto. Qed.

Lemma matches_dot_inv b w a cs :
  matches ucd icase Dot b w a cs ->
  exists x, w = [x] /\ cs = [] /\ x <> 10%N.
Proof.
  inversion 1; subst. eexists; repeat split; eauto. now apply N.eqb_neq.
Qed.

Lemma matches_cls_inv neg items b w a cs :
  matches ucd icase (Cls neg items) b w a cs ->
  exists x, w = [x] /\ cs = [] /\ cls_match ucd icase neg items x = true.
Proof. inversion 1; subst; eauto. Qed.

Lemma matches_bol_inv b w a cs :
  matches ucd icase Bol b w a cs -> b = [] /\ w = [] /\ cs = [].
Proof. inversion 1; auto. Qed.

Lemma matches_seq_inv r1 r2 b w a cs :
  matches ucd icase (Seq r1 r2) b w a cs ->
  exists w1 w2 cs1 cs2,
    w = w1 ++ w2 /\ cs = cs2 ++ cs1 /\
    matches ucd icase r1 b w1 (w2 ++ a) cs1 /\
    matches ucd icase r2 (rev w1 ++ b) w2 a cs2.
Proof. inversion 1; subst. do 4 eexists; eauto. Qed.

Lemma matches_alt_inv r1 r2 b w a cs :
  matches ucd icase (Alt r1 r2) b w a cs ->
  matches ucd icase r1 b w a cs \/ matches ucd icase r2 b w a cs.
Proof. inversion 1; auto. Qed.

Lemma matches_group_inv n r b w a cs :
  matches ucd icase (Group n r) b w a cs ->
  exists cs', cs = (n, w) :: cs' /\ matches ucd icase r b w a cs'.
Proof. inversion 1; subst; eauto. Qed.

(** A repetition of a character class consumes characters of the class and
    captures nothing. *)
Lemma matches_star_cls_inv g neg items b w a cs :
  matches ucd icase (Star g (Cls neg items)) b w a cs ->
  Forall (fun x => cls_match ucd icase neg items x = true) w /\ cs = [].
Proof.
  intros H. remember (Star g (Cls neg items)) as r eqn:Hr.
  induction H; try discriminate; injection Hr as Hg Hbody; subst.
  - split; auto.
  - destruct (IHmatches2 eq_refl) as [Hw2 Hcs2].
    apply matches_cls_inv in H0. destruct H0 as (x & -> & -> & Hx).
    subst. split; auto. constructor; auto.
Qed.

Lemma matches_star_cls g neg items w :
  Forall (fun x => cls_match ucd icase neg items x = true) w ->
  forall b a, matches ucd icase (Star g (Cls neg items)) b w a [].
Proof.
  induction 1 as [|x w Hx _ IH]; intros b a.
  - constructor.
  - change (x :: w) with ([x] ++ w). change (@nil (nat * str)) with (@nil (nat * str) ++ []).
    apply M_StarS; [discriminate | now constructor | apply IH].
Qed.

End MatchInversion.

Section MatchAt.
Variable ucd : UCD.
Variable icase : bool.

(** A match starts at a position exactly when the pattern can consume a
    prefix of the text after it. *)
Lemma match_at_iff r b s :
  match_at ucd icase r b s <> None
  <-> exists w a cs, s = w ++ a /\ matches ucd icase r b w a cs.
Proof.
  unfold match_at. split.
  - destruct (run ucd icase r _ _) as [e|] eqn:E; [|congruence].
    intros _. apply run_sound in E. destruct E as (w & a & cs & Hs & Hm & _).
    now exists w, a, cs.
  - intros (w & a & cs & -> & Hm).
    assert (Hrun : run ucd icase r (MState b (w ++ a) []) Some <> None).
    { apply (@run_complete ucd icase r b w a cs Hm). discriminate. }
    destruct (run ucd icase r _ _); congruence.
Qed.

End MatchAt.

(** ** Formatter: capitalisation *)

Section CapitalizeFacts.
Variable ucd : UCD.

Lemma lowercase_prefix_compiles :
  re_compile (U "^[a-z]+:") = Some lowercase_prefix_re.
Proof. vm_compute. reflexivity. Qed.

Lemma lower_class x :
  cls_match ucd false false [CRange 97 122] x = ascii_islower x.
Proof.
  unfold cls_match, ascii_islower. simpl. now rewrite orb_false_r.
Qed.

Lemma has_lowercase_prefix_iff msg :
  has_lowercase_prefix ucd msg = true <-> conventional_prefix msg.
Proof.
  unfold has_lowercase_prefix, re_match. rewrite lowercase_prefix_compiles.
  transitivity (match_at ucd false lowercase_prefix_re [] msg <> None).
  { destruct (match_at ucd false lowercase_prefix_re [] msg); split; congruence. }
  rewrite match_at_iff. split.
  - intros (w & a & cs & Hmsg & Hm). unfold lowercase_prefix_re in Hm.
    apply matches_seq_inv in Hm. destruct Hm as (w0 & w' & cs0 & cs' & -> & -> & H0 & Hm).
    apply matches_bol_inv in H0. destruct H0 as (_ & -> & ->). simpl in *.
    apply matches_seq_inv in Hm. destruct Hm as (w1 & w2 & cs1 & cs2 & -> & -> & Hm & Hcolon).
    apply matches_lit_inv in Hcolon. destruct Hcolon as (y & -> & -> & Hy).
    apply matches_seq_inv in Hm. destruct Hm as (w3 & w4 & cs3 & cs4 & -> & -> & Hfirst & Hstar).
    apply matches_cls_inv in Hfirst. destruct Hfirst as (x & -> & -> & Hx).
    apply matches_star_cls_inv in Hstar. destruct Hstar as (Hw4 & ->).
    unfold lit_match in Hy. apply N.eqb_eq in Hy. subst y.
    exists ([x] ++ w4), a. repeat split.
    + discriminate.
    + constructor.
      * now rewrite <- lower_class.
      * eapply Forall_impl; [|exact Hw4]. intros c Hc. now rewrite <- lower_class.
    + rewrite Hmsg. now rewrite <- app_assoc.
  - intros (p & rest & Hp & Hlow & ->).
    destruct p as [|x p]; [congruence|]. inversion Hlow; subst.
    exists ((x :: p) ++ [58%N]), rest, [].
    split; [now rewrite <- app_assoc|].
    unfold lowercase_prefix_re.
    change ((x :: p) ++ [58%N]) with ([] ++ ((x :: p) ++ [58%N])).
    change (@nil (nat * str)) with (@nil (nat * str) ++ []).
    apply M_Seq; [constructor|].
    change (@nil (nat * str)) with (@nil (nat * str) ++ []).
    apply M_Seq; [|constructor; apply N.eqb_refl].
    change (x :: p) with ([x] ++ p).
    change (@nil (nat * str)) with (@nil (nat * str) ++ []).
    apply M_Seq.
    + constructor. now rewrite lower_class.
    + apply matches_star_cls. eapply Forall_impl; [|eassumption].
      intros c Hc. now rewrite lower_class.
Qed.

End CapitalizeFacts.

(** C7.  For a non-empty first-line message whose first character is not
    upper case (in particular a lower-case one): when the message starts with
    a conventional-commit prefix (lower-case letters [a]-[z] and a colon) the
    capitalisation step leaves it as it is; otherwise the step upper-cases the
    first character and leaves the rest of the message unchanged. *)
Theorem capitalize_first_character (ucd : UCD) (c : char) (rest : str) :
  char_isupper ucd c = false ->
  (conventional_prefix (c :: rest) -> capitalize ucd (c :: rest) = c :: rest)
  /\ (~ conventional_prefix (c :: rest) ->
      capitalize ucd (c :: rest) = char_upper ucd c ++ rest).
Proof.
  intros Hc. unfold capitalize. rewrite Hc. simpl.
  destruct (has_lowercase_prefix ucd (c :: rest)) eqn:E; simpl.
  - apply has_lowercase_prefix_iff in E. split; auto. tauto.
  - split; auto. intros H. apply (proj2 (has_lowercase_prefix_iff ucd _)) in H. congruence.
Qed.

(** [fix: crash] is left alone, [add tests] becomes [Add tests]. *)
Lemma capitalize_first_character_witness :
  capitalize ascii_ucd (U "fix: crash") = U "fix: crash"
  /\ capitalize ascii_ucd (U "add tests") = U "Add tests".
Proof.
  split.
  - apply (proj1 (@capitalize_first_character ascii_ucd 102 (U "ix: crash") eq_refl)).
    apply (has_lowercase_prefix_iff ascii_ucd). vm_compute. reflexivity.
  - apply (proj2 (@capitalize_first_character ascii_ucd 97 (U "dd tests") eq_refl)).
    intros H. apply (has_lowercase_prefix_iff ascii_ucd) in H. vm_compute in H.
    discriminate.
Defined.

(** ** Formatter: issue annotation *)

(** C8 on the code.  The alternative [fixes?] of the issue pattern reads
    [fixe] or [fixes], never the bare [fix] (its siblings [closes?] and
    [resolves?] do read [close] and [resolve]): for [fix #42 leak] no issue
    number is found and nothing is appended, whereas [fixes #42 leak] and
    [close #42 leak] are annotated; an annotated message is left alone. *)
Theorem bare_fix_is_not_annotated (ucd : UCD) :
  issue_number ucd (U "Fix #42 leak") = None
  /\ annotate_issue ucd (U "Fix #42 leak") = U "Fix #42 leak"
  /\ annotate_issue ucd (U "Fixes #42 leak") = U "Fixes #42 leak (#42)"
  /\ annotate_issue ucd (U "Close #42 leak") = U "Close #42 leak (#42)"
  /\ annotate_issue ucd (U "Fixes #42 leak (#42)") = U "Fixes #42 leak (#42)"
  /\ format_commit_message ucd sample_emoji_data
       (sample_commit (U "3f2a9c") (U "fix #42 leak") (U "alice") 1704103200 [])
       (U "alice")
     = U "🐛 Fix #42 leak by @alice".
Proof. repeat split; vm_compute; reflexivity. Qed.

(** ** The banner pattern *)

Lemma date_pattern_compiles : re_compile date_pattern = Some date_re.
Proof. vm_compute. reflexivity. Qed.

Lemma startswith_length p s : startswith p s = true -> List.length p <= List.length s.
Proof.
  revert s. induction p as [|a p IH]; intros s; simpl.
  - lia.
  - destruct s as [|b s]; [discriminate|]. intros H.
    apply andb_prop in H. destruct H as [_ H]. apply IH in H. simpl. lia.
Qed.

Lemma startswith_app p s : startswith p (p ++ s) = true.
Proof.
  induction p as [|a p IH]; simpl; auto. now rewrite N.eqb_refl.
Qed.

Lemma startswith_split p s :
  startswith p s = true -> s = p ++ skipn (List.length p) s.
Proof.
  revert s. induction p as [|a p IH]; intros s; simpl; auto.
  destruct s as [|b s]; [discriminate|]. intros H.
  apply andb_prop in H. destruct H as [Hab H]. apply N.eqb_eq in Hab. subst.
  simpl. f_equal. now apply IH.
Qed.

Lemma firstn_startswith p s n :
  startswith p s = true ->
  firstn (List.length p + n) s = p ++ firstn n (skipn (List.length p) s).
Proof.
  revert s. induction p as [|a p IH]; intros s; simpl; auto.
  destruct s as [|b s]; [discriminate|]. intros H.
  apply andb_prop in H. destruct H as [Hab H]. apply N.eqb_eq in Hab. subst.
  f_equal. now apply IH.
Qed.

Section BannerFacts.
Variable ucd : UCD.

Lemma run_literal_then p r b s cs k :
  run ucd false (literal_then p r) (MState b s cs) k
  = if startswith p s
    then run ucd false r (MState (rev p ++ b) (skipn (List.length p) s) cs) k
    else None.
Proof.
  revert b s. induction p as [|c p IH]; intros b s; simpl.
  - reflexivity.
  - unfold step; simpl. destruct s as [|x s]; auto.
    unfold lit_match. destruct (c =? x)%N eqn:E; simpl; auto.
    apply N.eqb_eq in E. subst x. rewrite IH. now rewrite <- app_assoc.
Qed.

(** The lazy repetition of [.] followed by two asterisks stops at the first
    pair of asterisks on the line. *)
Lemma run_lazy_stars k L :
  (forall e, List.length (after e) < L -> k e = Some e) ->
  forall s fuel b cs,
    List.length s <= fuel -> List.length s <= L ->
    star_loop (run ucd false Dot) false
              (fun st' => run ucd false (Seq (Lit 42) (Lit 42)) st' k)
              fuel (MState b s cs)
    = match stars_on_line s with
      | Some n => Some (MState (rev (firstn n s) ++ b) (skipn n s) cs)
      | None => None
      end.
Proof.
  intros Hk. induction s as [|c s IH]; intros fuel b cs Hfuel HL.
  - destruct fuel; simpl; reflexivity.
  - destruct fuel as [|fuel]; [simpl in Hfuel; lia|].
    cbn [star_loop].
    assert (Hcont :
              run ucd false (Seq (Lit 42) (Lit 42)) (MState b (c :: s) cs) k
              = if startswith [42; 42]%N (c :: s)
                then Some (MState (rev (firstn 2 (c :: s)) ++ b) (skipn 2 (c :: s)) cs)
                else None).
    { cbn [run]. unfold step, lit_match. cbn [after before caps startswith].
      destruct (42 =? c)%N eqn:E1; cbn [andb]; [|reflexivity].
      destruct s as [|d s']; [reflexivity|].
      destruct (42 =? d)%N eqn:E2; cbn [andb]; [|reflexivity].
      apply N.eqb_eq in E1, E2. subst c d. rewrite Hk; [reflexivity|].
      cbn [after]. simpl in HL. lia. }
    rewrite Hcont. cbn [stars_on_line].
    destruct (startswith [42; 42]%N (c :: s)); auto.
    cbn [run]. unfold step. cbn [after before caps].
    destruct (c =? 10)%N; simpl negb; cbv iota; auto.
    unfold progressed. cbn [after]. simpl List.length.
    rewrite (proj2 (Nat.ltb_lt _ _) (Nat.lt_succ_diag_r _)).
    rewrite IH by (simpl in *; lia).
    destruct (stars_on_line s) as [n|]; simpl; auto.
    now rewrite <- app_assoc.
Qed.

Lemma stars_on_line_bounds s n :
  stars_on_line s = Some n -> 2 <= n <= List.length s.
Proof.
  revert n. induction s as [|c s IH]; intros n.
  - simpl. discriminate.
  - cbn [stars_on_line].
    destruct (startswith [42; 42]%N (c :: s)) eqn:E.
    + intros H; inversion H; subst. apply startswith_length in E. simpl in *. lia.
    + destruct (c =? 10)%N; [discriminate|].
      destruct (stars_on_line s) eqn:E'; [|discriminate].
      intros H; inversion H; subst. specialize (IH _ eq_refl). simpl. lia.
Qed.

Lemma banner_len_bounds s n :
  banner_len s = Some n -> 20 <= n <= List.length s.
Proof.
  unfold banner_len. destruct (startswith banner_open s) eqn:E; [|discriminate].
  destruct (stars_on_line _) as [m|] eqn:Em; [|discriminate].
  intros H; inversion H; subst. apply stars_on_line_bounds in Em.
  rewrite length_skipn in Em. apply startswith_length in E.
  change (List.length banner_open) with 18 in *. clear H. simpl. lia.
Qed.

Lemma run_date_re k b s cs :
  (forall e, List.length (after e) < List.length s -> k e = Some e) ->
  run ucd false date_re (MState b s cs) k
  = match banner_len s with
    | Some n => Some (MState (rev (firstn n s) ++ b) (skipn n s) cs)
    | None => None
    end.
Proof.
  intros Hk. unfold date_re, banner_len. rewrite run_literal_then.
  destruct (startswith banner_open s) eqn:E; [|reflexivity].
  cbn [run].
  rewrite (@run_lazy_stars k (List.length s) Hk); cbn [after];
    try (rewrite length_skipn; lia).
  destruct (stars_on_line _) as [n|] eqn:En; [|reflexivity].
  cbn [option_map]. rewrite (firstn_startswith _ _ n E).
  rewrite rev_app_distr, <- app_assoc, skipn_skipn.
  now rewrite (Nat.add_comm n).
Qed.

Lemma attempt_date_re b s nonempty :
  attempt ucd false date_re b s nonempty = banner_len s.
Proof.
  unfold attempt. rewrite run_date_re.
  - destruct (banner_len s) as [n|] eqn:E; [|reflexivity].
    cbn [after]. apply banner_len_bounds in E. rewrite length_skipn. f_equal. lia.
  - intros e He. unfold progressed. cbn [after].
    rewrite (proj2 (Nat.ltb_lt _ _) He). now rewrite andb_false_r.
Qed.

Lemma match_at_date_re b s :
  match_at ucd false date_re b s = None <-> banner_len s = None.
Proof.
  unfold match_at. rewrite run_date_re by reflexivity.
  destruct (banner_len s); split; congruence.
Qed.

Lemma search_date_re b s :
  search_from ucd false date_re b s = None <-> has_banner s = false.
Proof.
  revert b. induction s as [|c s IH]; intros b; cbn [search_from has_banner].
  - pose proof (match_at_date_re b []) as H.
    destruct (match_at ucd false date_re b []), (banner_len []);
      split; try congruence; intros _; exfalso;
      destruct H as [H1 H2]; try (specialize (H1 eq_refl)); try (specialize (H2 eq_refl));
      congruence.
  - pose proof (match_at_date_re b (c :: s)) as H.
    destruct (match_at ucd false date_re b (c :: s)), (banner_len (c :: s));
      try (split; congruence); try apply IH;
      exfalso; destruct H as [H1 H2];
      try (specialize (H1 eq_refl)); try (specialize (H2 eq_refl)); congruence.
Qed.

Lemma sub_scan_date_re new b s skip :
  sub_scan ucd false date_re new None b s skip = rewrite_banners new s skip.
Proof.
  revert b skip. induction s as [|c s IH]; intros b skip.
  - destruct skip; cbn [sub_scan rewrite_banners]; auto;
      cbn [exhausted]; rewrite attempt_date_re; reflexivity.
  - destruct skip as [|skip]; cbn [sub_scan rewrite_banners]; auto.
    cbn [exhausted]. rewrite attempt_date_re.
    destruct (banner_len (c :: s)) as [n|] eqn:E.
    + apply banner_len_bounds in E. destruct n as [|n]; [lia|].
      cbn [spend option_map]. rewrite IH. f_equal. f_equal. lia.
    + now rewrite IH.
Qed.

End BannerFacts.

(** ** Banners, declaratively *)

Lemma contains_cons sub c s :
  contains sub (c :: s) = startswith sub (c :: s) || contains sub s.
Proof.
  unfold contains. cbn [str_find].
  destruct (startswith sub (c :: s)); auto.
  destruct (str_find sub s); reflexivity.
Qed.

Lemma two_stars_head c s t :
  startswith [42; 42]%N (c :: s ++ 42%N :: t) = startswith [42; 42]%N (c :: s ++ [42%N]).
Proof.
  cbn [startswith]. destruct (42 =? c)%N; cbn [andb]; [|reflexivity].
  destruct s as [|d s]; cbn [app startswith]; now rewrite ?andb_true_r.
Qed.

Lemma stars_on_line_iff s n :
  stars_on_line s = Some n
  <-> exists body rest,
      s = body ++ [42; 42]%N ++ rest /\ n = List.length body + 2
      /\ ~ In 10%N body /\ contains [42; 42]%N (body ++ [42%N]) = false.
Proof.
  split.
  - revert n. induction s as [|c s IH]; intros n.
    + simpl. discriminate.
    + cbn [stars_on_line].
      destruct (startswith [42; 42]%N (c :: s)) eqn:E.
      * intros H. inversion H; subst.
        exists [], (skipn 2 (c :: s)). repeat split; auto.
        apply (startswith_split [42; 42]%N _ E).
      * destruct (c =? 10)%N eqn:Ec; [discriminate|].
        destruct (stars_on_line s) as [m|] eqn:Em; [|discriminate].
        intros H. inversion H; subst.
        destruct (IH _ eq_refl) as (body & rest & -> & -> & Hnl & Hno).
        exists (c :: body), rest. repeat split; auto.
        { intros [Hc|Hin]; [|tauto]. subst. discriminate. }
        { cbn [app]. rewrite contains_cons, Hno, orb_false_r.
          rewrite <- E. symmetry. apply (two_stars_head c body (42%N :: rest)). }
  - intros (body & rest & -> & -> & Hnl & Hno).
    induction body as [|c body IH].
    + reflexivity.
    + cbn [app] in Hno. rewrite contains_cons in Hno.
      apply orb_false_elim in Hno. destruct Hno as [Hhead Hno].
      cbn [app stars_on_line].
      match goal with
      | |- context [startswith ?p ?t] => replace (startswith p t) with false
      end.
      2: { rewrite <- Hhead. symmetry. apply (two_stars_head c body (42%N :: rest)). }
      destruct (c =? 10)%N eqn:Ec.
      { apply N.eqb_eq in Ec. subst. exfalso. apply Hnl. now left. }
      cbn [app] in IH. rewrite IH; auto.
      intros Hin. apply Hnl. now right.
Qed.

Lemma banner_len_iff s n :
  banner_len s = Some n
  <-> exists x rest, s = x ++ rest /\ is_banner x /\ n = List.length x.
Proof.
  unfold banner_len. split.
  - destruct (startswith banner_open s) eqn:E; [|discriminate].
    destruct (stars_on_line _) as [m|] eqn:Em; [|discriminate].
    intros H. inversion H; subst.
    apply stars_on_line_iff in Em.
    destruct Em as (body & rest & Hs & -> & Hnl & Hno).
    exists (banner_open ++ body ++ [42; 42]%N), rest. repeat split.
    + rewrite (startswith_split _ _ E), Hs. now rewrite <- !app_assoc.
    + exists body. auto.
    + rewrite !length_app. change (List.length banner_open) with 18. cbn [List.length]. lia.
  - intros (x & rest & -> & (body & -> & Hnl & Hno) & ->).
    rewrite <- !app_assoc. rewrite startswith_app.
    rewrite skipn_app, Nat.sub_diag, skipn_all. cbn [app skipn].
    assert (Hst : stars_on_line (body ++ [42; 42]%N ++ rest)
                  = Some (List.length body + 2)).
    { apply stars_on_line_iff. exists body, rest. auto. }
    cbn [app] in Hst. rewrite Hst.
    cbn [option_map]. f_equal. rewrite !length_app.
    change (List.length banner_open) with 18. cbn [List.length]. lia.
Qed.

Lemma has_banner_iff s : has_banner s = true <-> holds_banner s.
Proof.
  split.
  - induction s as [|c s IH]; cbn [has_banner].
    + destruct (banner_len []) eqn:E; [|discriminate].
      apply banner_len_bounds in E. simpl in E. lia.
    + destruct (banner_len (c :: s)) eqn:E.
      * intros _. apply banner_len_iff in E. destruct E as (x & rest & Hs & Hx & _).
        exists [], x, rest. auto.
      * intros H. destruct (IH H) as (b & x & a & -> & Hx).
        exists (c :: b), x, a. auto.
  - intros (b & x & a & -> & Hx).
    induction b as [|c b IH]; cbn [app].
    + assert (E : banner_len (x ++ a) = Some (List.length x)).
      { apply banner_len_iff. exists x, a. auto. }
      destruct x as [|c x]; [apply banner_len_bounds in E; simpl in E; lia|].
      cbn [app has_banner] in *. now rewrite E.
    + cbn [has_banner]. rewrite IH. now destruct (banner_len _).
Qed.

Lemma rewrite_banners_skip new s k :
  k <= List.length s ->
  rewrite_banners new s k = rewrite_banners new (skipn k s) 0.
Proof.
  revert k. induction s as [|c s IH]; intros k Hk.
  - destruct k; reflexivity.
  - destruct k as [|k]; [reflexivity|].
    cbn [rewrite_banners skipn]. apply IH. simpl in Hk. lia.
Qed.

Lemma rewrite_banners_rewritten new s :
  rewritten new s (rewrite_banners new s 0).
Proof.
  remember (List.length s) as n eqn:Hn. revert s Hn.
  induction n as [n IH] using lt_wf_ind. intros s Hn.
  destruct s as [|c s]; [constructor|].
  cbn [rewrite_banners].
  destruct (banner_len (c :: s)) as [m|] eqn:E.
  - pose proof (banner_len_bounds _ _ E) as Hb.
    apply banner_len_iff in E. destruct E as (x & rest & Hs & Hx & ->).
    rewrite rewrite_banners_skip by (simpl in Hb; lia).
    assert (Hrest : skipn (List.length x - 1) s = rest).
    { change (skipn (List.length x - 1) s) with (skipn (S (List.length x - 1)) (c :: s)).
      replace (S (List.length x - 1)) with (List.length x) by lia.
      rewrite Hs, skipn_app, Nat.sub_diag, skipn_all. reflexivity. }
    rewrite Hrest, Hs. constructor; auto.
    apply (IH (List.length rest)); auto.
    subst n. rewrite Hs, length_app. lia.
  - constructor.
    + intros x rest Hx Hs.
      assert (E' : banner_len (c :: s) = Some (List.length x)).
      { apply banner_len_iff. exists x, rest. auto. }
      congruence.
    + apply (IH (List.length s)); auto. subst n. simpl. lia.
Qed.

(** ** Lines *)

Lemma split_char_nonempty sep s : split_char sep s <> [].
Proof.
  destruct s as [|c s]; simpl; [discriminate|].
  destruct (c =? sep)%N; [discriminate|].
  destruct (split_char sep s); discriminate.
Qed.

Lemma join_cons sep p l :
  l <> [] -> join sep (p :: l) = p ++ sep ++ join sep l.
Proof. destruct l; [congruence | reflexivity]. Qed.

Lemma join_split sep s : join [sep] (split_char sep s) = s.
Proof.
  induction s as [|c s IH]; simpl; auto.
  destruct (c =? sep)%N eqn:E.
  - apply N.eqb_eq in E. subst c.
    rewrite join_cons by apply split_char_nonempty. simpl. now rewrite IH.
  - pose proof (split_char_nonempty sep s) as Hne.
    destruct (split_char sep s) as [|l ls]; [congruence|].
    destruct ls as [|l' ls]; simpl in *; now rewrite <- IH.
Qed.

Lemma join_app_one sep l x :
  l <> [] -> join sep (l ++ [x]) = join sep l ++ sep ++ x.
Proof.
  induction l as [|p l IH]; [congruence|]. intros _.
  destruct l as [|q l].
  - reflexivity.
  - cbn [app]. rewrite (join_cons sep p (q :: l ++ [x])) by discriminate.
    cbn [app] in IH. rewrite IH by discriminate.
    rewrite (join_cons sep p (q :: l)) by discriminate. now rewrite <- !app_assoc.
Qed.

Lemma list_insert_app {A} (l1 l2 : list A) x :
  list_insert (List.length l1) x (l1 ++ l2) = l1 ++ x :: l2.
Proof. induction l1 as [|y l1 IH]; simpl; [now destruct l2 | now rewrite IH]. Qed.

Section BlankLines.
Variable ucd : UCD.

Lemma first_blank_found i l1 blank l2 :
  0 < i ->
  Forall (fun l => is_blank ucd l = false) l1 ->
  is_blank ucd blank = true ->
  first_blank_from ucd i (l1 ++ blank :: l2) = Some (i + List.length l1).
Proof.
  intros Hi Hl1 Hb. revert i Hi.
  induction Hl1 as [|l l1 Hl _ IH]; intros i Hi; simpl.
  - rewrite Hb. replace (0 <? i) with true by (symmetry; now apply Nat.ltb_lt).
    simpl. f_equal. lia.
  - rewrite Hl. simpl. rewrite IH by lia. f_equal. lia.
Qed.

Lemma first_blank_missing i lines :
  Forall (fun l => is_blank ucd l = false) lines ->
  first_blank_from ucd i lines = None.
Proof.
  intros H. revert i. induction H as [|l lines Hl _ IH]; intros i; simpl; auto.
  rewrite Hl. simpl. apply IH.
Qed.

Lemma first_blank_skips_first first rest :
  first_blank_from ucd 0 (first :: rest) = first_blank_from ucd 1 rest.
Proof. simpl. now rewrite andb_false_r. Qed.

Lemma lstrip_nil_spaces s :
  lstrip ucd s = [] -> Forall (fun c => isspace ucd c = true) s.
Proof.
  induction s as [|c s IH]; simpl; auto.
  destruct (isspace ucd c) eqn:E; [|discriminate]. auto.
Qed.

Lemma lstrip_head s c s' : lstrip ucd s = c :: s' -> isspace ucd c = false.
Proof.
  induction s as [|d s IH]; simpl; [discriminate|].
  destruct (isspace ucd d) eqn:E; auto. intros H. inversion H. now subst.
Qed.

(** A line is blank for the script exactly when it holds only white space. *)
Lemma is_blank_spaces line :
  is_blank ucd line = true <-> Forall (fun c => isspace ucd c = true) line.
Proof.
  unfold is_blank. split.
  - destruct (strip ucd line) eqn:E; [|discriminate]. intros _.
    unfold strip, rstrip in E.
    assert (E' : lstrip ucd (rev (lstrip ucd line)) = []).
    { apply (f_equal (@rev char)) in E. now rewrite rev_involutive in E. }
    apply lstrip_nil_spaces in E'. apply Forall_rev in E'.
    rewrite rev_involutive in E'.
    destruct (lstrip ucd line) as [|c s'] eqn:El.
    + now apply lstrip_nil_spaces.
    + apply lstrip_head in El. inversion E'; subst. congruence.
  - intros H. now rewrite strip_spaces.
Qed.

End BlankLines.

(** ** The release-date step *)

Section ReleaseDateFacts.
Variable ucd : UCD.

Lemma re_search_date_pattern content :
  re_search ucd false date_pattern content = None <-> has_banner content = false.
Proof.
  unfold re_search. rewrite date_pattern_compiles. apply search_date_re.
Qed.

(** What [update_release_date] returns, in terms of banners and lines. *)
Lemma update_release_date_eq content release_date date :
  strptime_ymd ucd release_date = Some date ->
  update_release_date ucd content release_date
  = Some (if has_banner content
          then rewrite_banners (new_date_line date) content 0
          else join [10%N]
                 (match first_blank_from ucd 0 (split_char 10 content) with
                  | Some i => list_insert i (new_date_line date) (split_char 10 content)
                  | None => split_char 10 content ++ [new_date_line date]
                  end)).
Proof.
  intros Hd. unfold update_release_date. rewrite Hd.
  pose proof (re_search_date_pattern content) as Hs.
  destruct (re_search ucd false date_pattern content) as [m|] eqn:E.
  - destruct (has_banner content).
    + unfold re_sub. rewrite date_pattern_compiles.
      now rewrite sub_scan_date_re.
    + destruct Hs as [_ Hs]. specialize (Hs eq_refl). discriminate.
  - destruct Hs as [Hs _]. rewrite (Hs eq_refl). reflexivity.
Qed.

End ReleaseDateFacts.

(** C9, as the code has it.  For a release label that parses as a date:
    when the document holds a banner (the opening, then the text up to the
    next pair of asterisks on the same line), every banner, from left to
    right, is replaced by the new banner text and every other character is
    kept; when it holds none, the new banner line is inserted immediately
    before the first blank line (empty or only white space) that is not the
    first line, and when there is no such line it is appended as a new last
    line. *)
Theorem release_date_banner (ucd : UCD) (content release_date : str) (date : N * N * N) :
  strptime_ymd ucd release_date = Some date ->
  let new := new_date_line date in
  (holds_banner content ->
   exists content',
     update_release_date ucd content release_date = Some content'
     /\ rewritten new content content')
  /\ (~ holds_banner content ->
      forall first l1 blank l2,
        split_char 10 content = first :: l1 ++ blank :: l2 ->
        Forall (fun line => is_blank ucd line = false) l1 ->
        is_blank ucd blank = true ->
        update_release_date ucd content release_date
        = Some (join [10%N] (first :: l1 ++ new :: blank :: l2)))
  /\ (~ holds_banner content ->
      Forall (fun line => is_blank ucd line = false) (tl (split_char 10 content)) ->
      update_release_date ucd content release_date
      = Some (content ++ [10%N] ++ new)).
Proof.
  intros Hd new. rewrite (update_release_date_eq ucd content _ _ Hd). fold new.
  repeat split.
  - intros H. apply has_banner_iff in H. rewrite H.
    eexists. split; [reflexivity|]. apply rewrite_banners_rewritten.
  - intros H first l1 blank l2 Hlines Hl1 Hblank.
    destruct (has_banner content) eqn:E;
      [exfalso; apply H; now apply has_banner_iff|].
    rewrite Hlines, first_blank_skips_first.
    rewrite (first_blank_found ucd 1 l1 blank l2) by auto.
    change (1 + List.length l1) with (List.length (first :: l1)).
    change (first :: l1 ++ blank :: l2) with ((first :: l1) ++ blank :: l2).
    now rewrite list_insert_app.
  - intros H Hnone.
    destruct (has_banner content) eqn:E;
      [exfalso; apply H; now apply has_banner_iff|].
    pose proof (split_char_nonempty 10 content) as Hne.
    destruct (split_char 10 content) as [|first rest] eqn:Hlines; [congruence|].
    rewrite first_blank_skips_first, first_blank_missing by exact Hnone.
    rewrite join_app_one by discriminate.
    rewrite <- Hlines, join_split. reflexivity.
Qed.

(** A title, a blank line and a paragraph: the banner goes between the title
    and the blank line. *)
Lemma release_date_banner_witness :
  update_release_date ascii_ucd (U "# Changelog" ++ [10; 10]%N ++ U "Text") (U "2024-01-01")
  = Some (U "# Changelog" ++ [10%N] ++ U "📅 Release date: **January 01, 2024**"
            ++ [10; 10]%N ++ U "Text").
Proof.
  refine (proj1 (proj2 (@release_date_banner ascii_ucd
                          (U "# Changelog" ++ [10; 10]%N ++ U "Text") (U "2024-01-01")
                          (2024, 1, 1)%N eq_refl))
                _ (U "# Changelog") [] [] [U "Text"] eq_refl _ eq_refl).
  - intros H. apply has_banner_iff in H. vm_compute in H. discriminate.
  - constructor.
Defined.

(** C9 as stated fails: the code puts the banner before the first blank
    line; "after the first blank line" would put it behind it. *)
Lemma banner_goes_before_blank_line :
  update_release_date ascii_ucd (U "# Changelog" ++ [10; 10]%N ++ U "Text") (U "2024-01-01")
  = Some (U "# Changelog" ++ [10%N] ++ U "📅 Release date: **January 01, 2024**"
            ++ [10; 10]%N ++ U "Text")
  /\ join [10%N]
       (insert_after_first_blank ascii_ucd (new_date_line (2024, 1, 1)%N)
          (split_char 10 (U "# Changelog" ++ [10; 10]%N ++ U "Text")))
     = U "# Changelog" ++ [10; 10]%N ++ U "📅 Release date: **January 01, 2024**"
         ++ [10%N] ++ U "Text".
Proof. split; vm_compute; reflexivity. Qed.

(** ** The shape of a release label *)

Lemma ymd_pattern_compiles : re_compile ymd_pattern = Some ymd_re.
Proof. vm_compute. reflexivity. Qed.

Section LabelFacts.
Variable ucd : UCD.

Lemma matches_accepts icase r b w a cs :
  matches ucd icase r b w a cs ->
  Forall (fun x => accepts ucd icase r x = true) w.
Proof.
  induction 1; simpl; auto.
  - constructor; auto. now apply negb_true_iff.
  - apply Forall_app. split.
    + eapply Forall_impl; [|exact IHmatches1]. intros x Hx. now rewrite Hx.
    + eapply Forall_impl; [|exact IHmatches2]. intros x Hx. rewrite Hx. apply orb_true_r.
  - eapply Forall_impl; [|exact IHmatches]. intros x Hx. now rewrite Hx.
  - eapply Forall_impl; [|exact IHmatches]. intros x Hx. rewrite Hx. apply orb_true_r.
  - apply Forall_app. split; auto.
Qed.

(** A full match consumes the whole subject. *)
Lemma full_match_accepts icase r s m :
  match_at ucd icase r [] s = Some m ->
  m_end m = List.length s ->
  Forall (fun x => accepts ucd icase r x = true) s.
Proof.
  unfold match_at. destruct (run ucd icase r _ _) as [e|] eqn:E; [|discriminate].
  intros H Hend. inversion H; subst; clear H. cbn [m_end] in Hend.
  apply run_sound in E. destruct E as (w & a & cs & Hs & Hm & He).
  cbn [after before caps] in *. inversion He; subst e; clear He.
  cbn [before] in Hend. subst s.
  rewrite app_nil_r, length_rev, length_app in Hend.
  assert (a = []) by (destruct a; [auto | simpl in Hend; lia]). subst a.
  rewrite app_nil_r. eapply matches_accepts; eauto.
Qed.

Lemma strptime_ymd_chars release_date date :
  strptime_ymd ucd release_date = Some date ->
  Forall (fun x => accepts ucd true ymd_re x = true) release_date.
Proof.
  unfold strptime_ymd, re_match. rewrite ymd_pattern_compiles.
  destruct (match_at ucd true ymd_re [] release_date) as [m|] eqn:E; [|discriminate].
  destruct (Nat.eqb (m_end m) (List.length release_date)) eqn:Hend; [|discriminate].
  intros _. apply Nat.eqb_eq in Hend. eapply full_match_accepts; eauto.
Qed.

Lemma label_has_no (c : char) release_date date :
  accepts ucd true ymd_re c = false ->
  strptime_ymd ucd release_date = Some date ->
  ~ In c release_date.
Proof.
  intros Hc Hd Hin. apply strptime_ymd_chars in Hd.
  rewrite Forall_forall in Hd. specialize (Hd _ Hin). congruence.
Qed.

Lemma label_has_no_R release_date date :
  strptime_ymd ucd release_date = Some date -> ~ In 82%N release_date.
Proof. apply label_has_no. vm_compute. reflexivity. Qed.

Lemma label_has_no_newline release_date date :
  strptime_ymd ucd release_date = Some date -> ~ In 10%N release_date.
Proof. apply label_has_no. vm_compute. reflexivity. Qed.

End LabelFacts.

(** ** A line that survives the release-date step *)

Lemma contains_startswith p s : startswith p s = true -> contains p s = true.
Proof.
  intros H. unfold contains. destruct s; simpl in *; now rewrite H.
Qed.

Lemma contains_app p x y : contains p (x ++ p ++ y) = true.
Proof.
  induction x as [|c x IH]; cbn [app].
  - apply contains_startswith. apply startswith_app.
  - rewrite contains_cons, IH. apply orb_true_r.
Qed.

Lemma contains_join p sep l : In p l -> contains p (join sep l) = true.
Proof.
  induction l as [|q l IH]; [contradiction|].
  intros [->|Hin].
  - destruct l as [|q' l].
    + cbn [join]. rewrite <- (app_nil_r p) at 2. apply (contains_app p [] []).
    + rewrite join_cons by discriminate. apply (contains_app p []).
  - destruct l as [|q' l]; [contradiction|].
    rewrite join_cons by discriminate. specialize (IH Hin).
    revert IH. generalize (join sep (q' :: l)). intros t Ht.
    rewrite app_assoc. generalize (q ++ sep). intros u.
    induction u as [|c u IHu]; cbn [app]; auto.
    rewrite contains_cons, IHu. apply orb_true_r.
Qed.

Lemma split_char_app sep a c :
  split_char sep (a ++ sep :: c) = split_char sep a ++ split_char sep c.
Proof.
  induction a as [|x a IH]; cbn [app split_char].
  - now rewrite N.eqb_refl.
  - destruct (x =? sep)%N.
    + now rewrite IH.
    + rewrite IH. pose proof (split_char_nonempty sep a) as Hne.
      destruct (split_char sep a); [congruence | reflexivity].
Qed.

Lemma split_char_line sep h : ~ In sep h -> split_char sep h = [h].
Proof.
  induction h as [|x h IH]; intros Hn; cbn [split_char]; auto.
  destruct (x =? sep)%N eqn:E.
  - apply N.eqb_eq in E. subst. exfalso. apply Hn. now left.
  - rewrite IH; auto. intros Hin. apply Hn. now right.
Qed.

Lemma In_list_insert {A} (x y : A) i l : In x l -> In x (list_insert i y l).
Proof.
  revert i. induction l as [|z l IH]; intros i; [contradiction|].
  destruct i; simpl; intuition.
Qed.

Lemma banner_open_head :
  banner_open = 128197%N :: 32%N :: 82%N :: skipn 3 banner_open.
Proof. reflexivity. Qed.

Lemma banner_has_no_newline s n :
  banner_len s = Some n -> ~ In 10%N (firstn n s).
Proof.
  intros H. apply banner_len_iff in H.
  destruct H as (x & rest & -> & (body & -> & Hnl & _) & ->).
  rewrite firstn_app, Nat.sub_diag, firstn_all. cbn [firstn]. rewrite app_nil_r.
  rewrite !in_app_iff. intros [H|[H|H]].
  - vm_compute in H. repeat (destruct H as [H|H]; [discriminate|]). exact H.
  - tauto.
  - simpl in H. destruct H as [H|[H|H]]; try discriminate. exact H.
Qed.

Lemma rewrite_banners_line new a c k :
  ~ In 10%N (firstn k (a ++ 10%N :: c)) ->
  exists a', rewrite_banners new (a ++ 10%N :: c) k
             = a' ++ 10%N :: rewrite_banners new c 0.
Proof.
  revert k. induction a as [|x a IH]; intros k Hk.
  - destruct k as [|k]; [|exfalso; apply Hk; now left].
    exists []. cbn [app rewrite_banners].
    replace (banner_len (10%N :: c)) with (@None nat); [reflexivity|].
    unfold banner_len. rewrite banner_open_head. reflexivity.
  - cbn [app rewrite_banners]. destruct k as [|k].
    + destruct (banner_len (x :: a ++ 10%N :: c)) as [n|] eqn:E.
      * pose proof (banner_has_no_newline _ _ E) as Hn.
        pose proof (banner_len_bounds _ _ E) as Hb.
        destruct n as [|n]; [lia|]. cbn [firstn] in Hn.
        replace (S n - 1) with n by lia.
        destruct (IH n) as (a' & Ha'); [intros H; apply Hn; now right|].
        exists (new ++ a'). rewrite Ha'. now rewrite <- app_assoc.
      * destruct (IH 0) as (a' & Ha'); [simpl; tauto|].
        exists (x :: a'). now rewrite Ha'.
    + cbn [app firstn] in Hk.
      destruct (IH k) as (a' & Ha'); [intros H; apply Hk; now right|].
      exists a'. exact Ha'.
Qed.

Lemma no_banner_without_R h c :
  ~ In 82%N h -> startswith banner_open (h ++ 10%N :: c) = false.
Proof.
  intros Hn. rewrite banner_open_head.
  destruct h as [|x [|y [|z h]]]; cbn [app startswith].
  - reflexivity.
  - destruct (128197 =? x)%N; reflexivity.
  - destruct (128197 =? x)%N, (32 =? y)%N; reflexivity.
  - destruct (82 =? z)%N eqn:E.
    + apply N.eqb_eq in E. subst z. exfalso. apply Hn. simpl. tauto.
    + destruct (128197 =? x)%N, (32 =? y)%N; reflexivity.
Qed.

Lemma rewrite_banners_keeps new h c :
  ~ In 82%N h ->
  rewrite_banners new (h ++ 10%N :: c) 0 = h ++ 10%N :: rewrite_banners new c 0.
Proof.
  induction h as [|x h IH]; intros Hn;
    pose proof (no_banner_without_R _ c Hn) as E;
    cbn [app] in *; cbn [rewrite_banners]; unfold banner_len; rewrite E.
  - reflexivity.
  - rewrite IH; [reflexivity|]. intros H. apply Hn. now right.
Qed.

Section HeadingSurvives.
Variable ucd : UCD.

Lemma update_release_date_keeps_line a h b release_date content' :
  ~ In 82%N h -> ~ In 10%N h ->
  update_release_date ucd (a ++ 10%N :: h ++ 10%N :: b) release_date = Some content' ->
  contains h content' = true.
Proof.
  intros HR Hnl H.
  destruct (strptime_ymd ucd release_date) as [date|] eqn:Hd;
    [|unfold update_release_date in H; rewrite Hd in H; discriminate].
  rewrite (update_release_date_eq ucd _ _ _ Hd) in H.
  inversion H; subst; clear H.
  destruct (has_banner _).
  - destruct (rewrite_banners_line (new_date_line date) a (h ++ 10%N :: b) 0)
      as (a' & Ha'); [simpl; tauto|].
    rewrite Ha', rewrite_banners_keeps by assumption.
    change (a' ++ 10%N :: h ++ 10%N :: rewrite_banners (new_date_line date) b 0)
      with (a' ++ [10%N] ++ h ++ 10%N :: rewrite_banners (new_date_line date) b 0).
    rewrite app_assoc. apply contains_app.
  - apply contains_join.
    assert (Hin : In h (split_char 10 (a ++ 10%N :: h ++ 10%N :: b))).
    { rewrite !split_char_app, (split_char_line 10 h) by assumption.
      apply in_or_app. right. now left. }
    destruct (first_blank_from ucd 0 _).
    + now apply In_list_insert.
    + apply in_or_app. now left.
Qed.

End HeadingSurvives.

(** ** Every commit lands in a category of the table *)

Lemma max_from_in best d : In (max_from best d) (best :: d).
Proof.
  revert best. induction d as [|kv d IH]; intros best; simpl; auto.
  destruct (snd best <? snd kv); destruct (IH kv), (IH best); intuition.
Qed.

Lemma dict_has_in {V} k (d : list (str * V)) : dict_has k d = true -> In k (map fst d).
Proof.
  unfold dict_has. intros H.
  destruct (in_dec (list_eq_dec N.eq_dec) k (map fst d)) as [Hin|Hout]; auto.
  apply dict_get_none_notin in Hout. rewrite Hout in H. discriminate.
Qed.

Lemma categorize_commit_key ucd msg files :
  In (categorize_commit ucd msg files) (map fst CATEGORIES).
Proof.
  assert (Hother : In (U "other") (map fst CATEGORIES)).
  { apply dict_has_in. reflexivity. }
  unfold categorize_commit, categorize_commit_in.
  rewrite category_scores_eq by apply CATEGORIES_keys_distinct.
  destruct (positive_scores ucd CATEGORIES (lower ucd msg) files) as [|p P] eqn:E; auto.
  pose proof (max_from_in p P) as Hin.
  destruct (max_from p P) as [bk bs].
  destruct (_ && _); auto.
  apply (positive_scores_keys ucd CATEGORIES (lower ucd msg) files).
  rewrite E. apply (in_map fst) in Hin. exact Hin.
Qed.

Section PipelineFacts.
Variable ucd : UCD.
Variable emoji_data : list str.
Variable md5_hexdigest : str -> str.
Variable datetime_str : Z -> str.

Lemma walk_commits_categories cfg repo_name since_date commits seen kept :
  walk_commits ucd emoji_data md5_hexdigest datetime_str cfg repo_name since_date
               commits seen = Some kept ->
  Forall known_category kept.
Proof.
  revert seen kept. induction commits as [|c rest IH]; intros seen kept; simpl.
  - intros H; inversion H. constructor.
  - destruct (negb (fromtimestamp_ok (committed_date c))); [discriminate|].
    destruct (committed_date c <=? since_date)%Z.
    + intros H; inversion H. constructor.
    + destruct (should_skip_commit ucd cfg c) as [[|]|]; [apply IH | | discriminate].
      destruct (negb (encodable _)); [discriminate|].
      destruct (existsb _ seen); [apply IH|].
      destruct (walk_commits _ _ _ _ _ _ _ rest _) as [kept'|] eqn:E; [|discriminate].
      intros H; inversion H; subst. constructor.
      * apply categorize_commit_key.
      * eapply IH; eauto.
Qed.

Lemma get_recent_commits_categories cfg repo repo_name since_date :
  Forall known_category
         (get_recent_commits ucd emoji_data md5_hexdigest datetime_str cfg repo
                             repo_name since_date).
Proof.
  unfold get_recent_commits. destruct repo as [|commits]; [constructor|].
  destruct (walk_commits _ _ _ _ _ _ _ _ _) eqn:E; [|constructor].
  eapply walk_commits_categories; eauto.
Qed.

Lemma all_commits_categories w :
  Forall known_category (all_commits ucd emoji_data md5_hexdigest datetime_str w).
Proof.
  unfold all_commits. apply Forall_app. split.
  - apply get_recent_commits_categories.
  - destruct (packages_repo w); [apply get_recent_commits_categories | constructor].
Qed.

End PipelineFacts.

(** ** Sorting and grouping *)

Lemma insert_stable_In {A} (p : A -> A -> bool) x y l :
  In x (insert_stable p y l) <-> x = y \/ In x l.
Proof.
  induction l as [|z l IH]; simpl.
  - intuition.
  - destruct (p z y); simpl; rewrite ?IH; intuition.
Qed.

Lemma sort_stable_In {A} (p : A -> A -> bool) x l :
  In x (sort_stable p l) <-> In x l.
Proof.
  induction l as [|y l IH]; simpl; [tauto|].
  rewrite insert_stable_In, IH. intuition.
Qed.

Lemma dict_get_set_same {V} k (v : V) d : dict_get k (dict_set k v d) = Some v.
Proof.
  induction d as [|[k' v'] d IH]; simpl.
  - now rewrite str_eqb_refl.
  - destruct (str_eqb k' k) eqn:E; simpl; now rewrite E.
Qed.

Lemma dict_get_set_other {V} k k' (v : V) d :
  k <> k' -> dict_get k (dict_set k' v d) = dict_get k d.
Proof.
  intros Hne. induction d as [|[k0 v0] d IH]; simpl.
  - destruct (str_eqb k' k) eqn:E; auto. apply str_eqb_eq in E. congruence.
  - destruct (str_eqb k0 k') eqn:E; simpl.
    + apply str_eqb_eq in E. subst k0.
      destruct (str_eqb k' k) eqn:E2; [|reflexivity].
      apply str_eqb_eq in E2. congruence.
    + now rewrite IH.
Qed.

Lemma categorize_step_filled k acc d :
  filled k acc \/ k = cd_category d ->
  filled k (dict_set (cd_category d)
              (match dict_get (cd_category d) acc with Some l => l | None => [] end
                 ++ [cd_formatted d]) acc).
Proof.
  intros H. unfold filled.
  destruct (list_eq_dec N.eq_dec k (cd_category d)) as [->|Hne].
  - rewrite dict_get_set_same.
    destruct (dict_get (cd_category d) acc) as [[|x l]|]; simpl; eauto.
  - rewrite dict_get_set_other by assumption. destruct H; [assumption | contradiction].
Qed.

Lemma categorize_from_filled k commits acc :
  filled k acc \/ (exists d, In d commits /\ k = cd_category d) ->
  filled k
    (fold_left
       (fun categorized_commits commit =>
          let category := cd_category commit in
          let sofar :=
            match dict_get category categorized_commits with
            | Some l => l
            | None => []
            end in
          dict_set category (sofar ++ [cd_formatted commit]) categorized_commits)
       commits acc).
Proof.
  revert acc. induction commits as [|d commits IH]; intros acc H; simpl.
  - destruct H as [H|(d & [] & _)]. exact H.
  - apply IH. destruct H as [H|(d' & [->|Hin] & Hk)].
    + left. apply categorize_step_filled. now left.
    + left. apply categorize_step_filled. now right.
    + right. eauto.
Qed.

Lemma categorize_filled d commits :
  In d commits -> filled (cd_category d) (categorize commits).
Proof.
  intros H. unfold categorize. apply categorize_from_filled. right. eauto.
Qed.

(** ** The rendered entry and its place in the document *)

Lemma sorted_categories_eq : sorted_categories = CATEGORIES.
Proof. vm_compute. reflexivity. Qed.

Lemma join_nil_cons p l : join [] (p :: l) = p ++ join [] l.
Proof.
  destruct l; cbn [join]; [now rewrite app_nil_r | reflexivity].
Qed.

Lemma flat_map_nonempty {A B} (f : A -> list B) l x :
  In x l -> f x <> [] -> flat_map f l <> [].
Proof.
  induction l as [|y l IH]; [contradiction|].
  intros [->|Hin] Hx; simpl.
  - destruct (f x); [congruence | discriminate].
  - destruct (f y); [now apply IH | discriminate].
Qed.

Section EntryFacts.
Variable ucd : UCD.

Lemma generate_changelog_entry_head stats categorized release_date k :
  In k (map fst CATEGORIES) ->
  filled k categorized ->
  exists rest,
    generate_changelog_entry ucd stats categorized release_date
    = Some (([10%N] ++ release_heading release_date ++ [10%N]) :: rest).
Proof.
  intros Hk (x & l & Hget). unfold generate_changelog_entry.
  assert (Hbody : flat_map (category_lines categorized) sorted_categories <> []).
  { rewrite sorted_categories_eq. apply in_map_iff in Hk.
    destruct Hk as (entry & Hfst & Hin).
    apply (flat_map_nonempty _ _ entry Hin).
    unfold category_lines. rewrite Hfst, Hget. discriminate. }
  destruct (flat_map _ _) as [|line body]; [congruence|].
  eexists. unfold release_heading. rewrite <- !app_assoc. reflexivity.
Qed.

Lemma splice_shape (content h : str) (rest : list str) :
  exists a b, splice content (([10%N] ++ h ++ [10%N]) :: rest)
              = a ++ 10%N :: h ++ 10%N :: b.
Proof.
  unfold splice. rewrite join_nil_cons.
  destruct (split_once (U "---") content) as [[part0 part1]|].
  - exists (part0 ++ U "---" ++ [10%N]), (join [] rest ++ part1).
    now rewrite <- !app_assoc.
  - destruct (str_find [10%N; 10%N] content) as [title_end|].
    + exists (firstn (title_end + 2) content ++ U "---" ++ [10%N]),
             (join [] rest ++ skipn (title_end + 2) content).
      now rewrite <- !app_assoc.
    + exists (content ++ [10%N] ++ U "---" ++ [10%N]), (join [] rest).
      now rewrite <- !app_assoc.
Qed.

End EntryFacts.

Section RunFacts.
Variable ucd : UCD.
Variable emoji_data : list str.
Variable md5_hexdigest : str -> str.
Variable datetime_str : Z -> str.

Let run_update := update_changelog ucd emoji_data md5_hexdigest datetime_str.

(** A run that finds the heading does not write. *)
Lemma heading_present_no_write w content :
  changelog w = Some content ->
  contains (release_heading (RELEASE_DATE w)) content = true ->
  wrote (run_update w) = false.
Proof.
  intros Hc Hh. unfold run_update, update_changelog.
  destruct (all_commits _ _ _ _ w); [reflexivity|].
  rewrite Hc. fold (release_heading (RELEASE_DATE w)). now rewrite Hh.
Qed.

(** A run that writes leaves the heading of its release label in the document. *)
Lemma written_document_has_heading w content' :
  run_update w = Written content' ->
  contains (release_heading (RELEASE_DATE w)) content' = true.
Proof.
  unfold run_update, update_changelog.
  pose proof (all_commits_categories ucd emoji_data md5_hexdigest datetime_str w) as Hcat.
  destruct (all_commits _ _ _ _ w) as [|d commits] eqn:Hall; [discriminate|].
  set (content := match changelog w with Some text => text | None => _ end).
  fold (release_heading (RELEASE_DATE w)).
  destruct (contains (release_heading (RELEASE_DATE w)) content); [discriminate|].
  assert (Hin : In d (sort_commits (d :: commits))).
  { apply sort_stable_In. now left. }
  inversion Hcat as [|? ? Hd _]; subst.
  destruct (generate_changelog_entry_head ucd (CHANGELOG_STATS w)
              (categorize (sort_commits (d :: commits))) (RELEASE_DATE w)
              (cd_category d) Hd (categorize_filled d _ Hin)) as (rest & ->).
  cbv beta iota.
  destruct (splice_shape content (release_heading (RELEASE_DATE w)) rest)
    as (a & b & ->).
  destruct (update_release_date ucd _ (RELEASE_DATE w)) as [c|] eqn:Hu; [|discriminate].
  intros H. inversion H; subst; clear H.
  assert (Hdate : exists date, strptime_ymd ucd (RELEASE_DATE w) = Some date).
  { unfold update_release_date in Hu.
    destruct (strptime_ymd ucd (RELEASE_DATE w)); [eauto | discriminate]. }
  destruct Hdate as (date & Hdate).
  eapply update_release_date_keeps_line; [| |exact Hu].
  - unfold release_heading. rewrite !in_app_iff.
    intros [H|[H|H]].
    + vm_compute in H. repeat (destruct H as [H|H]; [discriminate|]). exact H.
    + revert H. eapply label_has_no_R; eauto.
    + vm_compute in H. repeat (destruct H as [H|H]; [discriminate|]). exact H.
  - unfold release_heading. rewrite !in_app_iff.
    intros [H|[H|H]].
    + vm_compute in H. repeat (destruct H as [H|H]; [discriminate|]). exact H.
    + revert H. eapply label_has_no_newline; eauto.
    + vm_compute in H. repeat (destruct H as [H|H]; [discriminate|]). exact H.
Qed.

End RunFacts.

(** C1.  When the changelog document already contains the heading
    [## [label]] of the run's release label, the run does not write and the
    document stays as it is.  And whenever a run does write, the document it
    writes contains that heading, so that a later run with the same release
    label on the written document (whatever commits it harvests) writes
    nothing either: no second section for the label is ever created. *)
Theorem release_section_is_added_once (ucd : UCD) (emoji_data : list str)
        (md5_hexdigest : str -> str) (datetime_str : Z -> str) :
  let run := update_changelog ucd emoji_data md5_hexdigest datetime_str in
  let document_after := changelog_after ucd emoji_data md5_hexdigest datetime_str in
  (forall w content,
      changelog w = Some content ->
      contains (release_heading (RELEASE_DATE w)) content = true ->
      wrote (run w) = false /\ document_after w = Some content)
  /\ (forall w content' w',
         run w = Written content' ->
         RELEASE_DATE w' = RELEASE_DATE w ->
         changelog w' = Some content' ->
         wrote (run w') = false /\ document_after w' = Some content').
Proof.
  intros run document_after.
  assert (Hfirst : forall w content,
             changelog w = Some content ->
             contains (release_heading (RELEASE_DATE w)) content = true ->
             wrote (run w) = false /\ document_after w = Some content).
  { intros w content Hc Hh.
    pose proof (heading_present_no_write ucd emoji_data md5_hexdigest datetime_str
                  w content Hc Hh) as Hw.
    change (wrote (run w) = false) in Hw.
    split; [exact Hw|].
    unfold document_after, changelog_after. fold run.
    destruct (run w); try exact Hc. discriminate Hw. }
  split; [exact Hfirst|].
  intros w content' w' Hrun Hlabel Hc. apply Hfirst; [exact Hc|].
  rewrite Hlabel.
  exact (written_document_has_heading ucd emoji_data md5_hexdigest datetime_str
           w content' Hrun).
Qed.

(** The first run on [two_repositories] writes a document; run again on that
    document, the update is a no-op. *)
Lemma release_section_is_added_once_witness :
  exists doc,
    update_changelog ascii_ucd sample_emoji_data sample_digest sample_datetime_str
                     two_repositories = Written doc
    /\ wrote (update_changelog ascii_ucd sample_emoji_data sample_digest
                               sample_datetime_str (set_changelog two_repositories doc))
       = false
    /\ changelog_after ascii_ucd sample_emoji_data sample_digest sample_datetime_str
                       (set_changelog two_repositories doc) = Some doc.
Proof.
  eexists. split.
  - vm_compute. reflexivity.
  - apply (proj2 (@release_section_is_added_once ascii_ucd sample_emoji_data
                    sample_digest sample_datetime_str) two_repositories _
                 (set_changelog two_repositories _)).
    + vm_compute. reflexivity.
    + reflexivity.
    + reflexivity.
Defined.

(** ** Scenario A, end to end *)

Lemma no_banner_at_other_glyph c s : c <> 128197%N -> banner_len (c :: s) = None.
Proof.
  intros Hc. unfold banner_len. rewrite banner_open_head. cbn [startswith].
  replace (128197 =? c)%N with false; [reflexivity|].
  symmetry. apply N.eqb_neq. congruence.
Qed.

Lemma has_banner_app_no_glyph x y :
  ~ In 128197%N x -> has_banner (x ++ y) = has_banner y.
Proof.
  induction x as [|c x IH]; intros Hn; cbn [app]; auto.
  cbn [has_banner]. rewrite no_banner_at_other_glyph.
  - apply IH. intros H. apply Hn. now right.
  - intros ->. apply Hn. now left.
Qed.



Section ScenarioFacts.
Variable ucd : UCD.
Variable emoji_data : list str.



End ScenarioFacts.





Lemma is_blank_nil ucd : is_blank ucd [] = true.
Proof. reflexivity. Qed.

(** With a title line followed by a blank line and no banner, the banner line
    goes between the two. *)
Lemma release_date_after_title ucd title rest release_date date :
  ~ In 10%N title ->
  has_banner (title ++ 10%N :: 10%N :: rest) = false ->
  strptime_ymd ucd release_date = Some date ->
  update_release_date ucd (title ++ 10%N :: 10%N :: rest) release_date
  = Some (title ++ 10%N :: new_date_line date ++ 10%N :: 10%N :: rest).
Proof.
  intros Ht Hb Hd. rewrite (update_release_date_eq ucd _ _ _ Hd), Hb.
  change (title ++ 10%N :: 10%N :: rest) with (title ++ 10%N :: ([] ++ 10%N :: rest)).
  rewrite !split_char_app, (split_char_line 10 title Ht).
  change (split_char 10 []) with [@nil char].
  cbn [app]. rewrite first_blank_skips_first.
  pose proof (first_blank_found ucd 1 [] [] (split_char 10 rest) Nat.lt_0_1
                (Forall_nil _) (is_blank_nil ucd)) as Hf.
  cbn [app List.length Nat.add] in Hf. rewrite Hf.
  cbn [list_insert].
  pose proof (split_char_nonempty 10 rest) as Hne.
  rewrite (join_cons [10%N] title) by discriminate.
  rewrite (join_cons [10%N] (new_date_line date)) by discriminate.
  rewrite (join_cons [10%N] []) by assumption.
  rewrite join_split. reflexivity.
Qed.



Section ScenarioRun.
Variable ucd : UCD.
Variable emoji_data : list str.
Variable md5_hexdigest : str -> str.
Variable datetime_str : Z -> str.


End ScenarioRun.




(** ** The harvest of one repository *)

Section HarvestFacts.
Variable ucd : UCD.
Variable emoji_data : list str.
Variable md5_hexdigest : str -> str.
Variable datetime_str : Z -> str.

Let walk := walk_commits ucd emoji_data md5_hexdigest datetime_str.

(** What is known of a commit that the walk keeps. *)
Lemma walk_commits_kept cfg repo_name since_date commits seen kept :
  walk cfg repo_name since_date commits seen = Some kept ->
  Forall (fun d =>
            exists commit,
              In commit commits
              /\ d = commit_data ucd emoji_data repo_name commit
              /\ (since_date < committed_date commit)%Z
              /\ should_skip_commit ucd cfg commit = Some false)
         kept.
Proof.
  revert seen kept.
  induction commits as [|c rest IH]; intros seen kept; simpl.
  - intros [= <-]. constructor.
  - destruct (negb (fromtimestamp_ok (committed_date c))); [discriminate|].
    destruct (committed_date c <=? since_date)%Z eqn:Hd.
    { intros [= <-]. constructor. }
    apply Z.leb_gt in Hd.
    assert (Hrest : forall seen' kept',
               walk cfg repo_name since_date rest seen' = Some kept' ->
               Forall (fun d =>
                         exists commit,
                           In (A:=Commit) commit (c :: rest)
                           /\ d = commit_data ucd emoji_data repo_name commit
                           /\ (since_date < committed_date commit)%Z
                           /\ should_skip_commit ucd cfg commit = Some false)
                      kept').
    { intros seen' kept' H. apply IH in H.
      eapply Forall_impl; [|exact H].
      intros d (commit & Hin & Hrest). exists commit. split; [now right | exact Hrest]. }
    destruct (should_skip_commit ucd cfg c) as [[|]|] eqn:Hs; [apply Hrest | | discriminate].
    destruct (negb (encodable _)); [discriminate|].
    destruct (existsb _ seen); [apply Hrest|].
    fold walk.
    destruct (walk cfg repo_name since_date rest _) as [kept'|] eqn:Hw; [|discriminate].
    intros [= <-]. constructor; [|eapply Hrest; eauto].
    exists c. repeat split; auto using in_eq.
Qed.

(** The walk ends at the first commit at or before the cutoff. *)
Lemma walk_commits_break cfg repo_name since_date newer old rest seen :
  fromtimestamp_ok (committed_date old) = true ->
  (committed_date old <= since_date)%Z ->
  walk cfg repo_name since_date (newer ++ old :: rest) seen
  = walk cfg repo_name since_date newer seen.
Proof.
  intros Hok Hold. revert seen.
  induction newer as [|c newer IH]; intros seen; simpl.
  - apply Z.leb_le in Hold. now rewrite Hok, Hold.
  - destruct (negb (fromtimestamp_ok (committed_date c))); auto.
    destruct (committed_date c <=? since_date)%Z; auto.
    destruct (should_skip_commit ucd cfg c) as [[|]|]; auto.
    destruct (negb (encodable _)); auto.
    destruct (existsb _ seen); auto.
    fold walk. now rewrite IH.
Qed.

Lemma resolve_author_not_the_bot commit :
  resolve_author commit <> U "GitHub Actions".
Proof.
  unfold resolve_author.
  destruct (str_eqb (author_name commit) (U "GitHub Actions")) eqn:Ea.
  - destruct (str_eqb (committer_name commit) (U "GitHub Actions")) eqn:Ec; simpl.
    + vm_compute. discriminate.
    + intros H. apply str_eqb_eq in H. congruence.
  - intros H. apply str_eqb_eq in H. congruence.
Qed.

End HarvestFacts.

(** Every commit that [get_recent_commits] keeps comes from a commit of the
    repository that is strictly newer than the cutoff and that the filter
    does not skip, and carries the name of the repository. *)
Theorem kept_commits_pass_cutoff_and_filter (ucd : UCD) (emoji_data : list str)
        (md5_hexdigest : str -> str) (datetime_str : Z -> str)
        (cfg : FilterConfig) (commits : list Commit) (repo_name : str) (since_date : Z) :
  Forall (fun d =>
            (since_date < cd_date d)%Z
            /\ cd_repo d = repo_name
            /\ exists commit,
                In commit commits
                /\ d = commit_data ucd emoji_data repo_name commit
                /\ should_skip_commit ucd cfg commit = Some false)
         (get_recent_commits ucd emoji_data md5_hexdigest datetime_str cfg
                             (RepoCommits commits) repo_name since_date).
Proof.
  unfold get_recent_commits.
  destruct (walk_commits _ _ _ _ _ _ _ _ _) as [kept|] eqn:Hw; [|constructor].
  apply walk_commits_kept in Hw.
  eapply Forall_impl; [|exact Hw].
  intros d (commit & Hin & -> & Hdate & Hskip).
  repeat split; auto. exists commit. auto.
Qed.

(** The cutoff ends the walk: whatever the repository lists after the first
    commit at or before the cutoff is never looked at, newer commits
    included.  (The timestamp of that commit is one that [fromtimestamp]
    converts: for any other the walk raises there, and the harvest is
    empty.) *)
Theorem harvest_stops_at_first_old_commit (ucd : UCD) (emoji_data : list str)
        (md5_hexdigest : str -> str) (datetime_str : Z -> str)
        (cfg : FilterConfig) (newer : list Commit) (old : Commit) (rest : list Commit)
        (repo_name : str) (since_date : Z) :
  fromtimestamp_ok (committed_date old) = true ->
  (committed_date old <= since_date)%Z ->
  get_recent_commits ucd emoji_data md5_hexdigest datetime_str cfg
                     (RepoCommits (newer ++ old :: rest)) repo_name since_date
  = get_recent_commits ucd emoji_data md5_hexdigest datetime_str cfg
                       (RepoCommits newer) repo_name since_date.
Proof.
  intros Hok Hold. unfold get_recent_commits.
  now rewrite walk_commits_break.
Qed.

(** A commit of 2024-01-02 listed after one of 2023-11-30 is not harvested
    for the cutoff 2023-12-01. *)
Lemma harvest_stops_at_first_old_commit_witness :
  get_recent_commits ascii_ucd sample_emoji_data sample_digest sample_datetime_str
    FILTER_CONFIG
    (RepoCommits
       ([sample_commit (U "aa01") (U "feat: add led driver") (U "alice") 1704103200 []]
          ++ sample_commit (U "bb02") (U "fix: old crash") (U "bob") 1701302400 []
          :: [sample_commit (U "cc03") (U "fix: late crash") (U "carol") 1704189600 []]))
    (U "BananaWRT") 1701388800
  = get_recent_commits ascii_ucd sample_emoji_data sample_digest sample_datetime_str
      FILTER_CONFIG
      (RepoCommits
         [sample_commit (U "aa01") (U "feat: add led driver") (U "alice") 1704103200 []])
      (U "BananaWRT") 1701388800.
Proof.
  apply (harvest_stops_at_first_old_commit
           ascii_ucd sample_emoji_data sample_digest sample_datetime_str FILTER_CONFIG
           [sample_commit (U "aa01") (U "feat: add led driver") (U "alice") 1704103200 []]
           (sample_commit (U "bb02") (U "fix: old crash") (U "bob") 1701302400 [])
           [sample_commit (U "cc03") (U "fix: late crash") (U "carol") 1704189600 []]).
  - reflexivity.
  - vm_compute. discriminate.
Defined.

(** No kept commit is credited to the automation account: its commits go to
    the committer, or to SuperKali when the committer is the account too;
    and the rendered line ends with the credited name. *)
Theorem no_commit_is_credited_to_the_bot (ucd : UCD) (emoji_data : list str)
        (md5_hexdigest : str -> str) (datetime_str : Z -> str)
        (cfg : FilterConfig) (repo : Repo) (repo_name : str) (since_date : Z) :
  Forall (fun d =>
            cd_author d <> U "GitHub Actions"
            /\ exists line, cd_formatted d = line ++ U " by @" ++ cd_author d)
         (get_recent_commits ucd emoji_data md5_hexdigest datetime_str cfg
                             repo repo_name since_date).
Proof.
  unfold get_recent_commits. destruct repo as [|commits]; [constructor|].
  destruct (walk_commits _ _ _ _ _ _ _ _ _) as [kept|] eqn:Hw; [|constructor].
  apply walk_commits_kept in Hw.
  eapply Forall_impl; [|exact Hw].
  intros d (commit & _ & -> & _). cbn [commit_data cd_author cd_formatted]. split.
  - apply resolve_author_not_the_bot.
  - unfold format_commit_message. eexists. rewrite !app_assoc. reflexivity.
Qed.

(** ** Sorting by date *)

Section SortFacts.
Context {A : Type}.
Variable key : A -> Z.

Let newer_first (y x : A) : bool := (key x <? key y)%Z.

Lemma insert_newest_first_perm x l :
  Permutation (x :: l) (insert_stable newer_first x l).
Proof.
  induction l as [|y l IH]; simpl; auto.
  destruct (newer_first y x); auto.
  rewrite perm_swap. now constructor.
Qed.

Lemma sort_newest_first_perm l : Permutation l (sort_stable newer_first l).
Proof.
  induction l as [|x l IH]; simpl; auto.
  rewrite <- insert_newest_first_perm. now constructor.
Qed.

Lemma insert_newest_first_sorted x l :
  StronglySorted (fun a b => (key b <= key a)%Z) l ->
  StronglySorted (fun a b => (key b <= key a)%Z) (insert_stable newer_first x l).
Proof.
  induction 1 as [|y l Hs IH Hy]; simpl.
  - repeat constructor.
  - unfold newer_first at 1. destruct (key x <? key y)%Z eqn:E.
    + apply Z.ltb_lt in E. constructor; auto.
      rewrite <- insert_newest_first_perm. constructor; [lia | exact Hy].
    + apply Z.ltb_ge in E. constructor; [now constructor|].
      constructor; auto.
      eapply Forall_impl; [|exact Hy]. simpl. intros. lia.
Qed.

Lemma sort_newest_first_sorted l :
  StronglySorted (fun a b => (key b <= key a)%Z) (sort_stable newer_first l).
Proof.
  induction l as [|x l IH]; simpl; [constructor|].
  now apply insert_newest_first_sorted.
Qed.

Lemma insert_newest_first_filter t x l :
  filter (fun d => (key d =? t)%Z) (insert_stable newer_first x l)
  = filter (fun d => (key d =? t)%Z) (x :: l).
Proof.
  induction l as [|y l IH]; auto.
  cbn [insert_stable]. unfold newer_first at 1.
  destruct (key x <? key y)%Z eqn:E; auto.
  apply Z.ltb_lt in E.
  cbn [filter] in *. rewrite IH.
  destruct (key x =? t)%Z eqn:Ex, (key y =? t)%Z eqn:Ey; auto.
  apply Z.eqb_eq in Ex, Ey. lia.
Qed.

Lemma sort_newest_first_filter t l :
  filter (fun d => (key d =? t)%Z) (sort_stable newer_first l)
  = filter (fun d => (key d =? t)%Z) l.
Proof.
  induction l as [|x l IH]; auto.
  cbn [sort_stable fold_right]. fold (sort_stable newer_first l).
  rewrite insert_newest_first_filter. cbn [filter]. now rewrite IH.
Qed.

End SortFacts.

(** [sort_commits] rearranges the commits, loses and adds none, and puts
    them newest first. *)
Theorem sort_commits_newest_first (commits : list CommitData) :
  Permutation commits (sort_commits commits)
  /\ StronglySorted (fun a b => (cd_date b <= cd_date a)%Z) (sort_commits commits).
Proof.
  split.
  - apply (sort_newest_first_perm cd_date).
  - apply (sort_newest_first_sorted cd_date).
Qed.

(** [sort_commits] is stable: the commits that carry one and the same date
    stay in the order of the harvest (main repository before packages
    repository, and the order of the walk within each). *)
Theorem sort_commits_keeps_order_of_equal_dates (commits : list CommitData) (date : Z) :
  filter (fun d => (cd_date d =? date)%Z) (sort_commits commits)
  = filter (fun d => (cd_date d =? date)%Z) commits.
Proof. apply (sort_newest_first_filter cd_date). Qed.

(** ** Grouping by category *)

(** The lines of [commits] that belong to the category [k], in order. *)
Lemma categorize_from_lookup k commits acc :
  dict_get k
    (fold_left
       (fun categorized_commits commit =>
          let category := cd_category commit in
          let sofar :=
            match dict_get category categorized_commits with
            | Some l => l
            | None => []
            end in
          dict_set category (sofar ++ [cd_formatted commit]) categorized_commits)
       commits acc)
  = match map cd_formatted (filter (fun d => str_eqb (cd_category d) k) commits) with
    | [] => dict_get k acc
    | new => Some (match dict_get k acc with Some l => l | None => [] end ++ new)
    end.
Proof.
  revert acc. induction commits as [|d commits IH]; intros acc; auto.
  cbn [fold_left filter]. rewrite IH. clear IH.
  destruct (str_eqb (cd_category d) k) eqn:E.
  - apply str_eqb_eq in E. subst k. rewrite dict_get_set_same.
    cbn [map].
    destruct (map cd_formatted _); [reflexivity|].
    now rewrite <- app_assoc.
  - assert (k <> cd_category d).
    { intros ->. now rewrite str_eqb_refl in E. }
    now rewrite dict_get_set_other.
Qed.

Lemma categorize_lookup k commits :
  dict_get k (categorize commits)
  = match filter (fun d => str_eqb (cd_category d) k) commits with
    | [] => None
    | (_ :: _) as group => Some (map cd_formatted group)
    end.
Proof.
  unfold categorize. rewrite categorize_from_lookup.
  now destruct (filter _ commits).
Qed.

Lemma total_commits_sum d :
  total_commits d = list_sum (map (fun kv => List.length (snd kv)) d).
Proof.
  unfold total_commits.
  assert (H : forall n,
             fold_left (fun n (kv : str * list str) => n + List.length (snd kv)) d n
             = n + list_sum (map (fun kv => List.length (snd kv)) d)).
  { induction d as [|kv d IH]; intros n; simpl; [lia|]. rewrite IH. lia. }
  apply H.
Qed.

Lemma total_commits_step k x (d : list (str * list str)) :
  total_commits
    (dict_set k (match dict_get k d with Some l => l | None => [] end ++ [x]) d)
  = S (total_commits d).
Proof.
  rewrite !total_commits_sum.
  induction d as [|[k' v'] d IH]; simpl; auto.
  destruct (str_eqb k' k); simpl.
  - rewrite length_app. simpl. lia.
  - rewrite IH. lia.
Qed.

(** The grouping loop of [update_changelog] files every commit under the key
    of its category: the list under a key holds the rendered lines of the
    commits of that category, in the order given, and a key without commit
    is absent. *)
Theorem grouping_keeps_order_within_category (commits : list CommitData) (k : str) :
  dict_get k (categorize commits)
  = match filter (fun d => str_eqb (cd_category d) k) commits with
    | [] => None
    | (_ :: _) as group => Some (map cd_formatted group)
    end.
Proof. apply categorize_lookup. Qed.

(** The figure of the "Total changes" line and of the summary log: the lists
    of the grouping hold as many lines as there are commits. *)
Theorem total_is_the_number_of_commits (commits : list CommitData) :
  total_commits (categorize commits) = List.length commits.
Proof.
  unfold categorize.
  assert (H : forall acc,
             total_commits
               (fold_left
                  (fun categorized_commits commit =>
                     let category := cd_category commit in
                     let sofar :=
                       match dict_get category categorized_commits with
                       | Some l => l
                       | None => []
                       end in
                     dict_set category (sofar ++ [cd_formatted commit]) categorized_commits)
                  commits acc)
             = total_commits acc + List.length commits).
  { induction commits as [|d commits IH]; intros acc; simpl; [lia|].
    rewrite IH, total_commits_step. lia. }
  apply H.
Qed.

(** ** The rendered entry *)

Lemma category_lines_nil categorized entry :
  category_lines categorized entry = []
  <-> dict_get (fst entry) categorized = None \/ dict_get (fst entry) categorized = Some [].
Proof.
  unfold category_lines.
  destruct (dict_get (fst entry) categorized) as [[|x l]|]; split; auto.
  - discriminate.
  - intros [H|H]; discriminate.
Qed.

Lemma flat_map_nil {X Y} (f : X -> list Y) l :
  flat_map f l = [] <-> forall x, In x l -> f x = [].
Proof.
  induction l as [|y l IH]; simpl.
  - split; [intros _ x [] | auto].
  - split.
    + intros H. apply app_eq_nil in H. destruct H as [Hy Hl].
      intros x [<-|Hx]; auto. now apply IH.
    + intros H. rewrite (H y) by now left. apply IH. intros x Hx. apply H. now right.
Qed.

Lemma entry_none_iff (ucd : UCD) (stats : str)
      (categorized_commits : list (str * list str)) (release_date : str) :
  generate_changelog_entry ucd stats categorized_commits release_date = None
  <-> forall k, In k (map fst CATEGORIES) ->
                dict_get k categorized_commits = None
                \/ dict_get k categorized_commits = Some [].
Proof.
  unfold generate_changelog_entry.
  destruct (flat_map _ sorted_categories) as [|x body] eqn:E.
  - split; [intros _ | reflexivity].
    intros k Hk. apply in_map_iff in Hk. destruct Hk as (entry & <- & Hin).
    apply category_lines_nil.
    apply (proj1 (flat_map_nil _ _) E).
    now apply sort_stable_In.
  - split; [discriminate|]. intros H. exfalso.
    assert (Hnil : flat_map (category_lines categorized_commits) sorted_categories = []).
    { apply flat_map_nil. intros entry Hin. apply category_lines_nil.
      apply H. apply in_map. now apply sort_stable_In in Hin. }
    congruence.
Qed.

(** [generate_changelog_entry] gives up ([None], after the warning) exactly
    when no key of [CATEGORIES] holds a line: lines filed under any other key
    do not count. *)
Theorem entry_is_none_without_lines (ucd : UCD) (stats : str)
        (categorized_commits : list (str * list str)) (release_date : str) :
  generate_changelog_entry ucd stats categorized_commits release_date = None
  <-> forall k, In k (map fst CATEGORIES) ->
                dict_get k categorized_commits = None
                \/ dict_get k categorized_commits = Some [].
Proof. apply entry_none_iff. Qed.

Section BulletFacts.
Variable ucd : UCD.
Variable emoji_data : list str.
Variable md5_hexdigest : str -> str.
Variable datetime_str : Z -> str.

Lemma bullet_in_entry stats categorized release_date lines d group :
  generate_changelog_entry ucd stats categorized release_date = Some lines ->
  known_category d ->
  dict_get (cd_category d) categorized = Some group ->
  In (cd_formatted d) group ->
  In (U "- " ++ cd_formatted d) lines.
Proof.
  unfold generate_changelog_entry. intros Hgen Hk Hget Hin.
  assert (Hbody : In (U "- " ++ cd_formatted d)
                     (flat_map (category_lines categorized) sorted_categories)).
  { apply in_map_iff in Hk. destruct Hk as (entry & Hfst & Hentry).
    apply in_flat_map. exists entry. split; [now apply sort_stable_In|].
    unfold category_lines. rewrite Hfst, Hget.
    destruct group as [|x group]; [contradiction|].
    right. apply in_or_app. left.
    apply (in_map (fun commit => U "- " ++ commit)) in Hin. exact Hin. }
  destruct (flat_map _ sorted_categories) as [|x body]; [contradiction|].
  apply (f_equal (fun o => match o with Some l => l | None => [] end)) in Hgen.
  cbv beta iota in Hgen. subst lines.
  apply in_or_app. left. right. exact Hbody.
Qed.

End BulletFacts.

Lemma harvest_is_rendered (ucd : UCD) (emoji_data : list str)
      (md5_hexdigest : str -> str) (datetime_str : Z -> str) (w : World) :
  all_commits ucd emoji_data md5_hexdigest datetime_str w <> [] ->
  exists lines,
    generate_changelog_entry ucd (CHANGELOG_STATS w)
      (categorize (sort_commits (all_commits ucd emoji_data md5_hexdigest datetime_str w)))
      (RELEASE_DATE w)
    = Some lines
    /\ forall d, In d (all_commits ucd emoji_data md5_hexdigest datetime_str w) ->
                 In (U "- " ++ cd_formatted d) lines.
Proof.
  intros Hne.
  set (commits := all_commits ucd emoji_data md5_hexdigest datetime_str w) in *.
  assert (Hknown : Forall known_category commits)
    by apply all_commits_categories.
  assert (Hgroup : forall d, In d commits ->
             exists group,
               dict_get (cd_category d) (categorize (sort_commits commits)) = Some group
               /\ In (cd_formatted d) group).
  { intros d Hd. rewrite categorize_lookup.
    assert (Hin : In d (filter (fun d' => str_eqb (cd_category d') (cd_category d))
                               (sort_commits commits))).
    { apply filter_In. split; [now apply sort_stable_In | apply str_eqb_refl]. }
    destruct (filter _ (sort_commits commits)) as [|x group]; [contradiction|].
    eexists. split; [reflexivity|]. now apply in_map. }
  destruct (generate_changelog_entry ucd (CHANGELOG_STATS w)
              (categorize (sort_commits commits)) (RELEASE_DATE w))
    as [lines|] eqn:Hgen.
  - exists lines. split; [reflexivity|].
    intros d Hd. destruct (Hgroup d Hd) as (group & Hget & Hin).
    eapply bullet_in_entry; eauto.
    eapply Forall_forall in Hknown; eauto.
  - exfalso. destruct commits as [|d commits'] eqn:Hc; [congruence|].
    destruct (Hgroup d (in_eq _ _)) as (group & Hget & Hin).
    pose proof (proj1 (entry_none_iff ucd _ _ _) Hgen (cd_category d)) as Hnone.
    assert (Hk : known_category d).
    { eapply Forall_forall in Hknown; [exact Hknown | apply in_eq]. }
    destruct (Hnone Hk) as [H|H]; rewrite H in Hget; [discriminate|].
    injection Hget as <-. contradiction.
Qed.

(** When the harvest is not empty the entry is rendered, and every harvested
    commit has its bullet in it: none is lost between harvest, sorting,
    grouping and rendering. *)
Theorem every_harvested_commit_gets_a_bullet (ucd : UCD) (emoji_data : list str)
        (md5_hexdigest : str -> str) (datetime_str : Z -> str) (w : World) :
  all_commits ucd emoji_data md5_hexdigest datetime_str w <> [] ->
  exists lines,
    generate_changelog_entry ucd (CHANGELOG_STATS w)
      (categorize (sort_commits (all_commits ucd emoji_data md5_hexdigest datetime_str w)))
      (RELEASE_DATE w)
    = Some lines
    /\ forall d, In d (all_commits ucd emoji_data md5_hexdigest datetime_str w) ->
                 In (U "- " ++ cd_formatted d) lines.
Proof. apply harvest_is_rendered. Qed.

(** The two harvested commits of [two_repositories] both have their bullet. *)
Lemma every_harvested_commit_gets_a_bullet_witness :
  exists lines,
    generate_changelog_entry ascii_ucd (CHANGELOG_STATS two_repositories)
      (categorize
         (sort_commits
            (all_commits ascii_ucd sample_emoji_data sample_digest sample_datetime_str
                         two_repositories)))
      (RELEASE_DATE two_repositories)
    = Some lines
    /\ forall d,
        In d (all_commits ascii_ucd sample_emoji_data sample_digest sample_datetime_str
                          two_repositories) ->
        In (U "- " ++ cd_formatted d) lines.
Proof.
  apply (every_harvested_commit_gets_a_bullet
           ascii_ucd sample_emoji_data sample_digest sample_datetime_str two_repositories).
  vm_compute. discriminate.
Defined.

(** ** How a run ends *)

Ltac outcome_cases :=
  repeat split; intros;
  repeat match goal with H : _ /\ _ |- _ => destruct H end;
  cbn [wrote] in *; try congruence; try discriminate; try tauto.

Lemma update_release_date_none ucd content release_date :
  update_release_date ucd content release_date = None
  <-> strptime_ymd ucd release_date = None.
Proof.
  unfold update_release_date.
  destruct (strptime_ymd ucd release_date); [|split; reflexivity].
  destruct (re_search _ _ _ _); split; discriminate.
Qed.

Section OutcomeFacts.
Variable ucd : UCD.
Variable emoji_data : list str.
Variable md5_hexdigest : str -> str.
Variable datetime_str : Z -> str.

Lemma update_changelog_cases w :
  let commits := all_commits ucd emoji_data md5_hexdigest datetime_str w in
  let run := update_changelog ucd emoji_data md5_hexdigest datetime_str w in
  let present := contains (release_heading (RELEASE_DATE w)) (document_read w) in
  (run = NoNewCommits <-> commits = [])
  /\ (run = AlreadyPresent <-> commits <> [] /\ present = true)
  /\ (run = Failed
      <-> commits <> [] /\ present = false /\ strptime_ymd ucd (RELEASE_DATE w) = None)
  /\ (wrote run = true
      <-> commits <> [] /\ present = false /\ strptime_ymd ucd (RELEASE_DATE w) <> None).
Proof.
  intros commits run present. subst commits run present.
  unfold update_changelog, document_read, release_heading.
  destruct (all_commits _ _ _ _ w) as [|d commits]; [outcome_cases|].
  destruct (contains _ _); [outcome_cases|].
  destruct (update_release_date ucd _ (RELEASE_DATE w)) as [content|] eqn:Hu.
  - assert (Hd : strptime_ymd ucd (RELEASE_DATE w) <> None).
    { intros H. rewrite (proj2 (update_release_date_none _ _ _) H) in Hu. discriminate. }
    outcome_cases.
  - apply update_release_date_none in Hu. outcome_cases.
Qed.

End OutcomeFacts.

(** A release label that is no date leaves [CHANGELOG.md] as it was. *)
Theorem bad_label_leaves_the_document (ucd : UCD) (emoji_data : list str)
        (md5_hexdigest : str -> str) (datetime_str : Z -> str) (w : World) :
  strptime_ymd ucd (RELEASE_DATE w) = None ->
  changelog_after ucd emoji_data md5_hexdigest datetime_str w = changelog w.
Proof.
  intros Hd. unfold changelog_after.
  destruct (update_changelog ucd emoji_data md5_hexdigest datetime_str w) eqn:Hrun; auto.
  assert (Hw : wrote (update_changelog ucd emoji_data md5_hexdigest datetime_str w) = true)
    by now rewrite Hrun.
  apply update_changelog_cases in Hw. destruct Hw as (_ & _ & Hw). contradiction.
Qed.

Lemma bad_label_leaves_the_document_witness :
  update_changelog ascii_ucd sample_emoji_data sample_digest sample_datetime_str
                   scenario_bad_label = Failed
  /\ changelog_after ascii_ucd sample_emoji_data sample_digest sample_datetime_str
                     scenario_bad_label
     = changelog scenario_bad_label.
Proof.
  split; [vm_compute; reflexivity|].
  apply (bad_label_leaves_the_document
           ascii_ucd sample_emoji_data sample_digest sample_datetime_str scenario_bad_label).
  vm_compute. reflexivity.
Defined.

(** ** The banner after a run *)

Lemma In_list_insert_new {A} (y : A) i l : In y (list_insert i y l).
Proof.
  revert i. induction l as [|x l IH]; intros [|i]; simpl; auto.
Qed.

Lemma rewrite_banners_shows new s :
  has_banner s = true -> contains new (rewrite_banners new s 0) = true.
Proof.
  induction s as [|c s IH].
  - vm_compute. discriminate.
  - cbn [has_banner rewrite_banners].
    destruct (banner_len (c :: s)) as [n|].
    + intros _. apply (contains_app new [] _).
    + intros H. rewrite contains_cons, (IH H). apply orb_true_r.
Qed.

Lemma update_release_date_shows ucd content release_date date content' :
  strptime_ymd ucd release_date = Some date ->
  update_release_date ucd content release_date = Some content' ->
  contains (new_date_line date) content' = true.
Proof.
  intros Hd. rewrite (update_release_date_eq ucd _ _ _ Hd).
  intros [= <-].
  destruct (has_banner content) eqn:Hb.
  - now apply rewrite_banners_shows.
  - apply contains_join.
    destruct (first_blank_from ucd 0 (split_char 10 content)).
    + apply In_list_insert_new.
    + apply in_or_app. right. now left.
Qed.

(** Whenever a run writes, the release label is a date and the written
    document shows the banner of that date, whether a banner was rewritten
    or a banner line was inserted. *)
Theorem written_document_shows_the_release_date (ucd : UCD) (emoji_data : list str)
        (md5_hexdigest : str -> str) (datetime_str : Z -> str) (w : World) (document : str) :
  update_changelog ucd emoji_data md5_hexdigest datetime_str w = Written document ->
  exists date,
    strptime_ymd ucd (RELEASE_DATE w) = Some date
    /\ contains (new_date_line date) document = true.
Proof.
  unfold update_changelog.
  destruct (all_commits _ _ _ _ w) as [|d commits]; [discriminate|].
  destruct (contains _ _); [discriminate|].
  destruct (update_release_date ucd _ (RELEASE_DATE w)) as [content|] eqn:Hu; [|discriminate].
  intros [= <-].
  destruct (strptime_ymd ucd (RELEASE_DATE w)) as [date|] eqn:Hd.
  - exists date. split; [reflexivity|].
    eapply update_release_date_shows; eauto.
  - rewrite (proj2 (update_release_date_none ucd _ _) Hd) in Hu. discriminate.
Qed.

Lemma written_document_shows_the_release_date_witness :
  exists date,
    strptime_ymd ascii_ucd (RELEASE_DATE scenario_a) = Some date
    /\ contains (new_date_line date)
         (match update_changelog ascii_ucd sample_emoji_data sample_digest
                  sample_datetime_str scenario_a with
          | Written document => document
          | _ => []
          end) = true.
Proof.
  apply (written_document_shows_the_release_date
           ascii_ucd sample_emoji_data sample_digest sample_datetime_str scenario_a).
  vm_compute. reflexivity.
Defined.

(** ** Where the entry goes *)

Lemma str_find_unfold sub s :
  str_find sub s
  = if startswith sub s then Some O
    else match s with
         | [] => None
         | _ :: s' => option_map S (str_find sub s')
         end.
Proof. destruct s; reflexivity. Qed.

Lemma contains_false_find sub s : contains sub s = false <-> str_find sub s = None.
Proof.
  unfold contains. destruct (str_find sub s); split; congruence.
Qed.

Lemma startswith_within p x y :
  List.length p <= List.length x -> startswith p (x ++ y) = startswith p x.
Proof.
  revert x. induction p as [|a p IH]; intros [|b x] H; simpl in *; auto; [lia|].
  rewrite IH by lia. reflexivity.
Qed.

(** The first occurrence of [sub]: it follows [p], and does not start inside
    [p]. *)
Lemma str_find_first sub p q :
  sub <> [] ->
  contains sub (p ++ removelast sub) = false ->
  str_find sub (p ++ sub ++ q) = Some (List.length p).
Proof.
  intros Hsub. induction p as [|c p IH]; intros Hno.
  - cbn [app List.length]. rewrite str_find_unfold.
    now rewrite startswith_app.
  - cbn [app] in *. rewrite contains_cons in Hno.
    apply orb_false_iff in Hno. destruct Hno as [Hhead Htail].
    rewrite str_find_unfold.
    assert (Hs : startswith sub (c :: p ++ sub ++ q) = false).
    { rewrite (app_removelast_last 0%N Hsub) at 2.
      rewrite <- app_assoc, app_assoc.
      change (c :: (p ++ removelast sub) ++ [last sub 0%N] ++ q)
        with ((c :: p ++ removelast sub) ++ [last sub 0%N] ++ q).
      rewrite startswith_within; [exact Hhead|].
      cbn [List.length]. rewrite length_app.
      destruct sub as [|a sub]; [congruence|].
      rewrite (app_removelast_last 0%N Hsub) at 1.
      rewrite length_app. cbn [List.length]. lia. }
    rewrite Hs, (IH Htail). reflexivity.
Qed.

Lemma split_once_first sub p q :
  sub <> [] ->
  contains sub (p ++ removelast sub) = false ->
  split_once sub (p ++ sub ++ q) = Some (p, q).
Proof.
  intros Hsub Hno. unfold split_once. rewrite (str_find_first _ _ _ Hsub Hno).
  f_equal. f_equal.
  - now rewrite firstn_app, firstn_all, Nat.sub_diag, firstn_O, app_nil_r.
  - rewrite app_assoc, <- length_app.
    now rewrite skipn_app, skipn_all, Nat.sub_diag, skipn_O.
Qed.

Lemma splice_cases (content : str) (new_entry : list str) :
  (forall p q,
      content = p ++ U "---" ++ q ->
      contains (U "---") (p ++ U "--") = false ->
      splice content new_entry = p ++ U "---" ++ [10%N] ++ join [] new_entry ++ q)
  /\ (contains (U "---") content = false ->
      forall p q,
        content = p ++ [10%N; 10%N] ++ q ->
        contains [10%N; 10%N] (p ++ [10%N]) = false ->
        splice content new_entry
        = p ++ [10%N; 10%N] ++ U "---" ++ [10%N] ++ join [] new_entry ++ q)
  /\ (contains (U "---") content = false ->
      contains [10%N; 10%N] content = false ->
      splice content new_entry = content ++ [10%N] ++ U "---" ++ [10%N] ++ join [] new_entry).
Proof.
  unfold splice. repeat split.
  - intros p q -> Hno.
    rewrite (split_once_first (U "---") p q); [reflexivity | discriminate | exact Hno].
  - intros Hmarker p q -> Hno.
    apply contains_false_find in Hmarker.
    unfold split_once. rewrite Hmarker.
    rewrite (str_find_first [10%N; 10%N] p q); [|discriminate | exact Hno].
    change 2 with (List.length [10%N; 10%N]) at 1 2.
    rewrite (app_assoc p), <- length_app.
    rewrite firstn_app, firstn_all, Nat.sub_diag, firstn_O, app_nil_r.
    rewrite skipn_app, skipn_all, Nat.sub_diag, skipn_O.
    now rewrite <- !app_assoc.
  - intros Hmarker Hblank.
    apply contains_false_find in Hmarker, Hblank.
    unfold split_once. now rewrite Hmarker, Hblank.
Qed.

(** The splice only inserts.  With a marker [---] in the document, the entry
    goes right after the line feed that is put after the first marker, and
    the text before and after the marker stays; without a marker, the marker
    and the entry go right after the first empty line; without either, they
    are appended after a line feed. *)
Theorem splice_inserts_without_deleting (content : str) (new_entry : list str) :
  (forall p q,
      content = p ++ U "---" ++ q ->
      contains (U "---") (p ++ U "--") = false ->
      splice content new_entry = p ++ U "---" ++ [10%N] ++ join [] new_entry ++ q)
  /\ (contains (U "---") content = false ->
      forall p q,
        content = p ++ [10%N; 10%N] ++ q ->
        contains [10%N; 10%N] (p ++ [10%N]) = false ->
        splice content new_entry
        = p ++ [10%N; 10%N] ++ U "---" ++ [10%N] ++ join [] new_entry ++ q)
  /\ (contains (U "---") content = false ->
      contains [10%N; 10%N] content = false ->
      splice content new_entry = content ++ [10%N] ++ U "---" ++ [10%N] ++ join [] new_entry).
Proof. apply splice_cases. Qed.

(** A document with an older section after the marker: the new entry goes
    between the marker and the older section. *)
Lemma splice_inserts_without_deleting_witness :
  splice (U "# Changelog" ++ [10%N; 10%N] ++ U "---" ++ [10%N] ++ U "## [2023-12-01]")
         [U "## [2024-01-01]"; [10%N]]
  = (U "# Changelog" ++ [10%N; 10%N]) ++ U "---" ++ [10%N]
      ++ join [] [U "## [2024-01-01]"; [10%N]] ++ ([10%N] ++ U "## [2023-12-01]").
Proof.
  apply (proj1 (splice_inserts_without_deleting
                  (U "# Changelog" ++ [10%N; 10%N] ++ U "---" ++ [10%N] ++ U "## [2023-12-01]")
                  [U "## [2024-01-01]"; [10%N]])
               (U "# Changelog" ++ [10%N; 10%N]) ([10%N] ++ U "## [2023-12-01]"));
    vm_compute; reflexivity.
Defined.

(** ** A run without [CHANGELOG.md] *)

Lemma default_document_has_no_heading release_date :
  contains (U "## [" ++ release_date ++ U "]") (U "# Changelog" ++ [10%N; 10%N]) = false.
Proof. vm_compute. reflexivity. Qed.

Lemma entry_needs_commits ucd stats release_date :
  generate_changelog_entry ucd stats (categorize (sort_commits [])) release_date = None.
Proof. reflexivity. Qed.

(** When [CHANGELOG.md] does not exist the run starts from the title alone:
    the written document is the title, the banner line, an empty line, a
    marker and the entry.  (No banner is assumed to sit in the rendered
    entry, that is, in a commit message or an author's name.) *)
Theorem missing_file_starts_a_document (ucd : UCD) (emoji_data : list str)
        (md5_hexdigest : str -> str) (datetime_str : Z -> str) (w : World)
        (date : N * N * N) (new_entry : list str) :
  changelog w = None ->
  strptime_ymd ucd (RELEASE_DATE w) = Some date ->
  generate_changelog_entry ucd (CHANGELOG_STATS w)
    (categorize (sort_commits (all_commits ucd emoji_data md5_hexdigest datetime_str w)))
    (RELEASE_DATE w)
  = Some new_entry ->
  has_banner (join [] new_entry) = false ->
  update_changelog ucd emoji_data md5_hexdigest datetime_str w
  = Written (U "# Changelog" ++ [10%N] ++ new_date_line date ++ [10%N; 10%N]
               ++ U "---" ++ [10%N] ++ join [] new_entry).
Proof.
  intros Hc Hd Hgen Hban. unfold update_changelog.
  destruct (all_commits _ _ _ _ w) as [|d commits].
  { rewrite entry_needs_commits in Hgen. discriminate. }
  rewrite Hc, default_document_has_no_heading, Hgen.
  rewrite (proj1 (proj2 (splice_cases (U "# Changelog" ++ [10%N; 10%N]) new_entry))
             eq_refl (U "# Changelog") [] eq_refl eq_refl).
  set (E := join [] new_entry) in *. clearbody E.
  set (T := U "# Changelog").
  assert (HT : ~ In 10%N T)
    by (vm_compute; intros H; repeat (destruct H as [H|H]; [discriminate|]); exact H).
  assert (Hb : has_banner (T ++ 10%N :: 10%N :: (U "---" ++ [10%N] ++ E)) = false).
  { change (T ++ 10%N :: 10%N :: (U "---" ++ [10%N] ++ E))
      with ((T ++ [10%N; 10%N; 45%N; 45%N; 45%N; 10%N]) ++ E).
    rewrite has_banner_app_no_glyph; [exact Hban|].
    vm_compute; intros H; repeat (destruct H as [H|H]; [discriminate|]); exact H. }
  clearbody T.
  change (T ++ [10%N; 10%N] ++ U "---" ++ [10%N] ++ E ++ [])
    with (T ++ 10%N :: 10%N :: (U "---" ++ [10%N] ++ E ++ [])).
  rewrite app_nil_r.
  rewrite (release_date_after_title ucd T _ _ date HT Hb Hd).
  reflexivity.
Qed.

Lemma missing_file_starts_a_document_witness :
  update_changelog ascii_ucd sample_emoji_data sample_digest sample_datetime_str
                   scenario_without_file
  = Written (U "# Changelog" ++ [10%N] ++ new_date_line (2024, 1, 1)%N ++ [10%N; 10%N]
               ++ U "---" ++ [10%N]
               ++ join [] [ [10%N] ++ U "## [2024-01-01]" ++ [10%N];
                            U "### 🐛 Bug Fixes" ++ [10%N];
                            U "- 🐛 `fix`: resolve login crash by @alice";
                            [];
                            U "---" ++ [10%N] ]).
Proof.
  apply (missing_file_starts_a_document
           ascii_ucd sample_emoji_data sample_digest sample_datetime_str
           scenario_without_file (2024, 1, 1)%N);
    vm_compute; reflexivity.
Defined.

(** ** Formatter: the first line *)

Lemma first_line_subject subject body :
  ~ In 10%N subject -> first_line (subject ++ 10%N :: body) = subject.
Proof.
  intros H. unfold first_line.
  now rewrite split_char_app, (split_char_line 10 subject H).
Qed.

Lemma first_line_whole subject : ~ In 10%N subject -> first_line subject = subject.
Proof.
  intros H. unfold first_line. now rewrite (split_char_line 10 subject H).
Qed.

(** Only the subject line of a commit message reaches the changelog: the
    rendered line is the one of the commit with the subject alone as its
    message, whatever follows the first line feed. *)
Theorem body_does_not_change_the_bullet (ucd : UCD) (emoji_data : list str)
        (commit : Commit) (subject body author : str) :
  ~ In 10%N subject ->
  message commit = subject ++ 10%N :: body ->
  format_commit_message ucd emoji_data commit author
  = format_commit_message ucd emoji_data (with_message commit subject) author.
Proof.
  intros Hs Hm. unfold format_commit_message, format_message.
  cbn [message with_message]. rewrite Hm.
  now rewrite first_line_subject, first_line_whole.
Qed.

Lemma body_does_not_change_the_bullet_witness :
  format_commit_message ascii_ucd sample_emoji_data
    (sample_commit (U "3f2a9c")
       (U "add led driver" ++ 10%N :: U "Fixes #12 and is a breaking change")
       (U "alice") 1704103200 [])
    (U "alice")
  = format_commit_message ascii_ucd sample_emoji_data
      (with_message
         (sample_commit (U "3f2a9c")
            (U "add led driver" ++ 10%N :: U "Fixes #12 and is a breaking change")
            (U "alice") 1704103200 [])
         (U "add led driver"))
      (U "alice").
Proof.
  apply (body_does_not_change_the_bullet ascii_ucd sample_emoji_data
           (sample_commit (U "3f2a9c")
              (U "add led driver" ++ 10%N :: U "Fixes #12 and is a breaking change")
              (U "alice") 1704103200 [])
           (U "add led driver") (U "Fixes #12 and is a breaking change")).
  - vm_compute. intros H; repeat (destruct H as [H|H]; [discriminate|]); exact H.
  - reflexivity.
Defined.

(** ** Classifier: the result is a key, and [other] means no signal *)

Lemma max_from_ge best d :
  Forall (fun kv => snd kv <= snd (max_from best d)) (best :: d).
Proof.
  revert best. induction d as [|kv d IH]; intros best; cbn [max_from].
  - repeat constructor.
  - destruct (snd best <? snd kv) eqn:E.
    + apply Nat.ltb_lt in E. specialize (IH kv).
      inversion IH as [|? ? Hkv Hd]; subst.
      constructor; [lia|]. constructor; auto.
    + specialize (IH best). inversion IH as [|? ? Hb Hd]; subst.
      apply Nat.ltb_ge in E.
      constructor; auto. constructor; [lia | auto].
Qed.

Lemma positive_scores_In ucd table msg files k s :
  In (k, s) (positive_scores ucd table msg files)
  <-> exists details,
      In (k, details) table /\ s = category_score ucd details msg files /\ 0 < s.
Proof.
  unfold positive_scores. rewrite in_flat_map. split.
  - intros ([k' details] & Hin & H). cbn [fst snd] in H.
    destruct (0 <? category_score ucd details msg files) eqn:E; [|contradiction].
    destruct H as [[= <- <-]|[]]. apply Nat.ltb_lt in E. eauto.
  - intros (details & Hin & -> & Hpos). exists (k, details). split; auto.
    cbn [fst snd]. apply Nat.ltb_lt in Hpos. rewrite Hpos. now left.
Qed.

Lemma no_patterns_no_score ucd details msg files :
  patterns details = [] -> file_patterns details = [] ->
  category_score ucd details msg files = 0.
Proof.
  intros Hp Hf. unfold category_score.
  rewrite files_score_eq, message_score_eq, Hp, Hf. cbn [filter List.length].
  induction files; simpl; auto.
Qed.

Lemma other_has_no_patterns details :
  In (U "other", details) CATEGORIES ->
  patterns details = [] /\ file_patterns details = [].
Proof.
  intros H.
  repeat (destruct H as [H|H];
          [first [ discriminate H | injection H as <-; split; reflexivity ]|]).
  contradiction.
Qed.

(** [categorize_commit] always answers with a key of [CATEGORIES], so that
    the look-ups [CATEGORIES[category]] of the rendering and of the summary
    cannot miss. *)
Theorem category_is_always_a_key (ucd : UCD) (commit_msg : str) (files_changed : list str) :
  In (categorize_commit ucd commit_msg files_changed) (map fst CATEGORIES)
  /\ dict_get (categorize_commit ucd commit_msg files_changed) CATEGORIES <> None.
Proof.
  pose proof (categorize_commit_key ucd commit_msg files_changed) as H.
  split; [exact H|].
  intros Hn. now apply dict_get_none_notin in Hn.
Qed.

(** A commit lands in [other] exactly when no category scores 2 or more:
    a category that reaches 2 always wins over the catch-all. *)
Theorem other_means_no_category_reaches_two (ucd : UCD) (commit_msg : str)
        (files_changed : list str) :
  categorize_commit ucd commit_msg files_changed = U "other"
  <-> list_max (map (score_of ucd commit_msg files_changed) CATEGORIES) < 2.
Proof.
  set (msg := commit_msg). set (files := files_changed).
  split.
  - intros Hother.
    destruct (Nat.lt_ge_cases (list_max (map (score_of ucd msg files) CATEGORIES)) 2)
      as [|Hge]; auto.
    exfalso. revert Hother.
    unfold categorize_commit, categorize_commit_in.
    rewrite category_scores_eq by apply CATEGORIES_keys_distinct.
    (* an entry with the largest score *)
    assert (Hmax : exists k details,
               In (k, details) CATEGORIES
               /\ 2 <= category_score ucd details (lower ucd msg) files).
    { assert (Hne : map (score_of ucd msg files) CATEGORIES <> []) by discriminate.
      destruct (list_max (map (score_of ucd msg files) CATEGORIES)) as [|m] eqn:Em; [lia|].
      assert (Hin : In (S m) (map (score_of ucd msg files) CATEGORIES)).
      { rewrite <- Em. clear -Hne.
        induction (map (score_of ucd msg files) CATEGORIES) as [|x l IH]; [congruence|].
        cbn [list_max fold_right]. fold (list_max l).
        destruct l as [|y l'].
        - left. cbn. lia.
        - destruct (Nat.max_spec x (list_max (y :: l'))) as [[_ ->]|[_ ->]].
          + right. apply IH. discriminate.
          + now left. }
      apply in_map_iff in Hin. destruct Hin as ([k details] & Hs & Hin).
      exists k, details. split; auto. unfold score_of in Hs. cbn [snd] in Hs. lia. }
    destruct Hmax as (k & details & Hin & Hscore).
    assert (Hpos : In (k, category_score ucd details (lower ucd msg) files)
                      (positive_scores ucd CATEGORIES (lower ucd msg) files)).
    { apply positive_scores_In. exists details. repeat split; auto. lia. }
    destruct (positive_scores ucd CATEGORIES (lower ucd msg) files) as [|p P] eqn:E;
      [contradiction|].
    pose proof (max_from_ge p P) as Hall.
    pose proof (max_from_in p P) as Hbest.
    rewrite Forall_forall in Hall. specialize (Hall _ Hpos). cbn [snd] in Hall.
    destruct (max_from p P) as [bk bs]. cbn [snd] in Hall.
    replace (bs <? 2) with false by (symmetry; apply Nat.ltb_ge; lia).
    cbn [andb]. intros ->.
    rewrite <- E in Hbest. apply positive_scores_In in Hbest.
    destruct Hbest as (d & Hd & Hs & Hp).
    destruct (other_has_no_patterns d Hd) as [H1 H2].
    rewrite (no_patterns_no_score ucd d _ _ H1 H2) in Hs. lia.
  - intros H. unfold categorize_commit.
    apply categorize_below_two.
    + apply CATEGORIES_keys_distinct.
    + reflexivity.
    + assert (H1 : list_max (map (score_of ucd msg files) CATEGORIES) <= 1) by lia.
      apply list_max_le in H1. rewrite Forall_map in H1. exact H1.
Qed.

(** ** The filter: alternatives that are not anchored *)

Section SearchFacts.
Variable ucd : UCD.
Variable icase : bool.

Lemma search_from_finds r pre :
  forall b s,
    match_at ucd icase r (rev pre ++ b) s <> None ->
    search_from ucd icase r b (pre ++ s) <> None.
Proof.
  induction pre as [|c pre IH]; intros b s H.
  - cbn [rev app] in *. destruct s; cbn [search_from];
      destruct (match_at ucd icase r b _); congruence.
  - cbn [app search_from].
    destruct (match_at ucd icase r b (c :: pre ++ s)); [discriminate|].
    apply IH. cbn [rev] in H. now rewrite <- app_assoc in H.
Qed.

Lemma matches_word p :
  forall w b a,
    Forall2 (fun c x => lit_match ucd icase c x = true) p w ->
    matches ucd icase (word_re p) b w a [].
Proof.
  induction p as [|c p IH]; intros w b a H; inversion H as [|? x ? w' Hc Hw]; subst.
  - constructor.
  - destruct p as [|c' p].
    + inversion Hw; subst. now constructor.
    + change (word_re (c :: c' :: p)) with (Seq (Lit c) (word_re (c' :: p))).
      apply (M_Seq ucd icase (Lit c) (word_re (c' :: p)) b [x] w' a [] []).
      * now constructor.
      * now apply IH.
Qed.

(** A pattern whose reading has the word [p] as an alternative is found in
    every subject that holds the word. *)
Lemma searches_word pattern r p pre w post :
  re_compile pattern = Some r ->
  (forall b a, matches ucd icase (word_re p) b w a [] ->
               exists cs, matches ucd icase r b w a cs) ->
  Forall2 (fun c x => lit_match ucd icase c x = true) p w ->
  searches ucd icase (pre ++ w ++ post) pattern = true.
Proof.
  intros Hc Halt Hw. unfold searches, re_search. rewrite Hc.
  assert (H : search_from ucd icase r [] (pre ++ w ++ post) <> None).
  { apply search_from_finds. apply match_at_iff.
    destruct (Halt (rev pre ++ []) post (matches_word p w _ _ Hw)) as (cs & Hm).
    eauto. }
  now destruct (search_from ucd icase r [] (pre ++ w ++ post)).
Qed.

End SearchFacts.

Lemma third_exclude_pattern_compiles :
  re_compile (U "^style:\s*whitespace|spacing|indent")
  = Some (Alt style_whitespace_re (Alt (word_re (U "spacing")) (word_re (U "indent")))).
Proof. vm_compute. reflexivity. Qed.

(** In the third exclude pattern of [FILTER_CONFIG] only the first
    alternative is anchored to [^style:]: with the default configuration a
    commit whose message holds "spacing" or "indent" anywhere, in any case,
    is skipped. *)
Theorem stray_alternatives_skip_commits (ucd : UCD) (commit : Commit)
        (pre w post : str) :
  message commit = pre ++ w ++ post ->
  same_ignoring_case ucd (U "spacing") w \/ same_ignoring_case ucd (U "indent") w ->
  should_skip_commit ucd FILTER_CONFIG commit = Some true.
Proof.
  intros Hm Hw. unfold should_skip_commit.
  destruct (_ && _); [reflexivity|].
  assert (H3 : searches ucd true (message commit) (U "^style:\s*whitespace|spacing|indent")
               = true).
  { rewrite Hm. destruct Hw as [Hw|Hw].
    - eapply searches_word; [apply third_exclude_pattern_compiles | | exact Hw].
      intros b a H. eexists. apply M_AltR, M_AltL. exact H.
    - eapply searches_word; [apply third_exclude_pattern_compiles | | exact Hw].
      intros b a H. eexists. apply M_AltR, M_AltR. exact H. }
  cbn [FILTER_CONFIG exclude_patterns matches_exclude].
  assert (H1 : re_compile (U "^typo:\s*fix") <> None) by (vm_compute; discriminate).
  assert (H2 : re_compile (U "^docs:\s*update readme only") <> None)
    by (vm_compute; discriminate).
  destruct (re_compile (U "^typo:\s*fix")); [|contradiction].
  destruct (searches ucd true (message commit) (U "^typo:\s*fix")); [reflexivity|].
  destruct (re_compile (U "^docs:\s*update readme only")); [|contradiction].
  destruct (searches ucd true (message commit) (U "^docs:\s*update readme only"));
    [reflexivity|].
  rewrite third_exclude_pattern_compiles, H3. reflexivity.
Qed.

(** "Fix indentation of the dts files" is no style commit, and is skipped. *)
Lemma stray_alternatives_skip_commits_witness :
  should_skip_commit ascii_ucd FILTER_CONFIG
    (sample_commit (U "7c1d2e") (U "Fix Indentation of the dts files") (U "alice")
                   1704103200 [U "target/linux/board.dts"])
  = Some true.
Proof.
  apply (stray_alternatives_skip_commits ascii_ucd
           (sample_commit (U "7c1d2e") (U "Fix Indentation of the dts files") (U "alice")
                          1704103200 [U "target/linux/board.dts"])
           (U "Fix ") (U "Indent") (U "ation of the dts files")).
  - vm_compute. reflexivity.
  - right. vm_compute. repeat constructor.
Defined.

(** ** The entry in the written document *)

Lemma contains_iff sub s :
  contains sub s = true <-> exists x y, s = x ++ sub ++ y.
Proof.
  split.
  - induction s as [|c s IH].
    + unfold contains. rewrite str_find_unfold.
      destruct (startswith sub []) eqn:E; [|discriminate].
      intros _. exists [], []. destruct sub; [reflexivity | discriminate].
    + rewrite contains_cons. intros H. apply orb_true_iff in H. destruct H as [H|H].
      * exists [], (skipn (List.length sub) (c :: s)). now apply startswith_split.
      * destruct (IH H) as (x & y & ->). now exists (c :: x), y.
  - intros (x & y & ->). apply contains_app.
Qed.

Lemma contains_trans a b c :
  contains a b = true -> contains b c = true -> contains a c = true.
Proof.
  intros Hab Hbc. apply contains_iff in Hab, Hbc.
  destruct Hab as (x & y & ->), Hbc as (x' & y' & ->).
  apply contains_iff. exists (x' ++ x), (y ++ y'). now rewrite <- !app_assoc.
Qed.

Lemma rewrite_banners_no_glyph new x y :
  ~ In 128197%N x -> rewrite_banners new (x ++ y) 0 = x ++ rewrite_banners new y 0.
Proof.
  induction x as [|c x IH]; intros Hn; auto.
  cbn [app rewrite_banners]. rewrite no_banner_at_other_glyph.
  - f_equal. apply IH. intros H. apply Hn. now right.
  - intros ->. apply Hn. now left.
Qed.

Lemma splice_around content new_entry :
  exists a b, splice content new_entry = a ++ U "---" ++ [10%N] ++ join [] new_entry ++ b.
Proof.
  unfold splice.
  destruct (split_once (U "---") content) as [[part0 part1]|].
  - now exists part0, part1.
  - destruct (str_find [10%N; 10%N] content) as [title_end|].
    + now exists (firstn (title_end + 2) content), (skipn (title_end + 2) content).
    + exists (content ++ [10%N]), []. now rewrite <- !app_assoc, app_nil_r.
Qed.

Lemma join_app sep (l1 l2 : list str) :
  l1 <> [] -> l2 <> [] -> join sep (l1 ++ l2) = join sep l1 ++ sep ++ join sep l2.
Proof.
  intros H1 H2. induction l1 as [|p l1 IH]; [congruence|].
  destruct l1 as [|q l1].
  - cbn [app]. now rewrite join_cons.
  - change ((p :: q :: l1) ++ l2) with (p :: ((q :: l1) ++ l2)).
    rewrite !join_cons by discriminate.
    rewrite IH by discriminate. now rewrite <- !app_assoc.
Qed.

Lemma list_insert_left {A} i (x : A) l1 l2 :
  i <= List.length l1 -> list_insert i x (l1 ++ l2) = list_insert i x l1 ++ l2.
Proof.
  revert i. induction l1 as [|y l1 IH]; intros [|i] H; simpl in *; auto; try lia.
  now rewrite IH by lia.
Qed.

Lemma list_insert_nonempty {A} i (x : A) l : list_insert i x l <> [].
Proof. destruct i, l; discriminate. Qed.

Lemma first_blank_at_most ucd l1 blank l2 :
  forall k,
    0 < k -> is_blank ucd blank = true ->
    exists i, first_blank_from ucd k (l1 ++ blank :: l2) = Some i
              /\ i <= k + List.length l1.
Proof.
  induction l1 as [|l l1 IH]; intros k Hk Hb; cbn [app first_blank_from].
  - rewrite Hb. apply Nat.ltb_lt in Hk. rewrite Hk. exists k. split; [reflexivity|].
    cbn [List.length]. lia.
  - destruct (is_blank ucd l && (0 <? k)).
    + exists k. split; [reflexivity | lia].
    + destruct (IH (S k) (Nat.lt_0_succ k) Hb) as (i & Hi & Hle).
      exists i. split; [exact Hi|]. cbn [List.length]. lia.
Qed.

(** Text without calendar glyph that starts a line right after a line break
    comes through the release-date step as it is. *)
Lemma entry_survives ucd x E y release_date document :
  ~ In 128197%N E ->
  update_release_date ucd (x ++ 10%N :: 10%N :: E ++ y) release_date = Some document ->
  contains (10%N :: E) document = true.
Proof.
  intros HE Hu.
  destruct (strptime_ymd ucd release_date) as [date|] eqn:Hd.
  2:{ rewrite (proj2 (update_release_date_none ucd _ _) Hd) in Hu. discriminate. }
  rewrite (update_release_date_eq ucd _ _ _ Hd) in Hu. injection Hu as <-.
  destruct (has_banner _).
  - destruct (rewrite_banners_line (new_date_line date) x (10%N :: E ++ y) 0)
      as (a' & ->); [cbn [firstn]; tauto|].
    change (10%N :: E ++ y) with ((10%N :: E) ++ y).
    rewrite rewrite_banners_no_glyph.
    + set (R := rewrite_banners (new_date_line date) y 0).
      replace (a' ++ 10%N :: (10%N :: E) ++ R) with ((a' ++ [10%N]) ++ (10%N :: E) ++ R)
        by (now rewrite <- app_assoc).
      apply contains_app.
    + intros [H|H]; [discriminate | exact (HE H)].
  - rewrite split_char_app.
    change (split_char 10 (10%N :: E ++ y)) with ([] :: split_char 10 (E ++ y)).
    destruct (split_char 10 x) as [|first l1] eqn:Hx;
      [now apply split_char_nonempty in Hx|].
    cbn [app]. rewrite first_blank_skips_first.
    destruct (first_blank_at_most ucd l1 [] (split_char 10 (E ++ y)) 1
                Nat.lt_0_1 (is_blank_nil ucd)) as (i & -> & Hi).
    change (first :: l1 ++ [] :: split_char 10 (E ++ y))
      with ((first :: l1) ++ [] :: split_char 10 (E ++ y)).
    rewrite list_insert_left by (cbn [List.length]; lia).
    rewrite join_app; [|apply list_insert_nonempty | discriminate].
    change ([] :: split_char 10 (E ++ y)) with (split_char 10 (10%N :: E ++ y)).
    rewrite join_split.
    set (A := join [10%N] _).
    replace (A ++ [10%N] ++ 10%N :: E ++ y) with ((A ++ [10%N]) ++ (10%N :: E) ++ y)
      by (now rewrite <- app_assoc).
    apply contains_app.
Qed.

(** The written document holds the rendered entry word for word, and with
    it the bullet of every harvested commit, provided the entry is free of
    the calendar glyph that opens the release-date banner (a commit message
    with banner text in it would be rewritten by the release-date step like
    the banner itself). *)
Theorem written_document_holds_the_entry (ucd : UCD) (emoji_data : list str)
        (md5_hexdigest : str -> str) (datetime_str : Z -> str) (w : World)
        (document : str) (new_entry : list str) :
  update_changelog ucd emoji_data md5_hexdigest datetime_str w = Written document ->
  generate_changelog_entry ucd (CHANGELOG_STATS w)
    (categorize (sort_commits (all_commits ucd emoji_data md5_hexdigest datetime_str w)))
    (RELEASE_DATE w)
  = Some new_entry ->
  ~ In 128197%N (join [] new_entry) ->
  contains (join [] new_entry) document = true
  /\ forall d,
      In d (all_commits ucd emoji_data md5_hexdigest datetime_str w) ->
      contains (U "- " ++ cd_formatted d) document = true.
Proof.
  intros Hrun Hgen Hglyph.
  assert (Hne : all_commits ucd emoji_data md5_hexdigest datetime_str w <> []).
  { intros H. unfold update_changelog in Hrun. rewrite H in Hrun. discriminate. }
  destruct (harvest_is_rendered ucd emoji_data md5_hexdigest datetime_str w Hne)
    as (lines & Hlines & Hbullets).
  assert (lines = new_entry) by congruence. subst lines. clear Hlines.
  assert (Hentry : contains (join [] new_entry) document = true).
  { unfold update_changelog in Hrun.
    destruct (all_commits ucd emoji_data md5_hexdigest datetime_str w) as [|d0 commits];
      [congruence|].
    destruct (contains _ _); [discriminate|].
    rewrite Hgen in Hrun.
    destruct (update_release_date ucd _ (RELEASE_DATE w)) as [content|] eqn:Hu;
      [|discriminate].
    injection Hrun as ->.
    assert (Hhead : exists E, join [] new_entry = 10%N :: E).
    { unfold generate_changelog_entry in Hgen.
      destruct (flat_map _ sorted_categories); [discriminate|].
      apply (f_equal (fun o => match o with Some l => l | None => [] end)) in Hgen.
      cbv beta iota in Hgen. subst new_entry.
      cbn [app]. rewrite join_nil_cons. cbn [app]. eauto. }
    destruct Hhead as (E & HE). rewrite HE in *.
    destruct (splice_around
                match changelog w with
                | Some text => text
                | None => U "# Changelog" ++ [10%N; 10%N]
                end new_entry) as (a & b & Hs).
    rewrite Hs, HE in Hu.
    replace (a ++ U "---" ++ [10%N] ++ (10%N :: E) ++ b)
      with ((a ++ U "---") ++ 10%N :: 10%N :: E ++ b) in Hu
      by (now rewrite <- !app_assoc).
    eapply entry_survives; [|exact Hu].
    intros H. apply Hglyph. now right. }
  split; [exact Hentry|].
  intros d Hd. eapply contains_trans; [|exact Hentry].
  apply contains_join. now apply Hbullets.
Qed.

(** The run on [two_repositories]: the entry with its two bullets is in the
    written document. *)
Lemma written_document_holds_the_entry_witness :
  let document :=
    match update_changelog ascii_ucd sample_emoji_data sample_digest
            sample_datetime_str two_repositories with
    | Written document => document
    | _ => []
    end in
  contains
    (join [] [ [10%N] ++ U "## [2024-01-01]" ++ [10%N];
               U "### 🐛 Bug Fixes" ++ [10%N];
               U "- 🐛 `fix`: resolve login crash by @alice";
               U "- 🐛 `fix`: resolve login crash by @alice";
               [];
               U "---" ++ [10%N] ])
    document = true
  /\ forall d,
      In d (all_commits ascii_ucd sample_emoji_data sample_digest sample_datetime_str
                        two_repositories) ->
      contains (U "- " ++ cd_formatted d) document = true.
Proof.
  apply (written_document_holds_the_entry
           ascii_ucd sample_emoji_data sample_digest sample_datetime_str two_repositories).
  - vm_compute. reflexivity.
  - vm_compute. reflexivity.
  - vm_compute. intros H; repeat (destruct H as [H|H]; [discriminate|]); exact H.
Defined.

(** ** The release-date step, applied twice *)

Lemma uint_to_str_plain d : Forall plain (uint_to_str d).
Proof.
  induction d; cbn [uint_to_str]; constructor; auto; split; discriminate.
Qed.

Lemma literal_plain (s : str) :
  forallb (fun c => negb (c =? 42)%N && negb (c =? 10)%N) s = true -> Forall plain s.
Proof.
  induction s as [|c s IH]; cbn [forallb]; intros H; constructor.
  - apply andb_true_iff in H. destruct H as [H _].
    apply andb_true_iff in H. destruct H as [H1 H2].
    apply negb_true_iff in H1, H2. apply N.eqb_neq in H1, H2. now split.
  - apply IH. apply andb_true_iff in H. tauto.
Qed.

Lemma month_name_plain m : Forall plain (month_name m).
Proof.
  unfold month_name.
  set (names := [ _; _; _; _; _; _; _; _; _; _; _; _ ]).
  assert (H : Forall (Forall plain) names).
  { repeat (constructor; [apply literal_plain; vm_compute; reflexivity|]).
    constructor. }
  clearbody names. revert H. generalize (N.to_nat m - 1).
  induction names as [|x names IH]; intros [|n] H; cbn [nth]; try constructor.
  - now inversion H.
  - apply IH. now inversion H.
Qed.

Lemma strftime_plain date : Forall plain (strftime_BdY date).
Proof.
  destruct date as [[y mo] d]. unfold strftime_BdY.
  apply Forall_app; split; [apply month_name_plain|].
  apply Forall_app; split; [apply literal_plain; reflexivity|].
  apply Forall_app; split.
  { unfold two_digits. destruct (d <? 10)%N.
    - constructor; [split; discriminate | apply uint_to_str_plain].
    - apply uint_to_str_plain. }
  apply Forall_app; split; [apply literal_plain; reflexivity|].
  apply uint_to_str_plain.
Qed.

Lemma stars_after_plain body rest :
  Forall plain body ->
  stars_on_line (body ++ [42; 42]%N ++ rest) = Some (List.length body + 2).
Proof.
  induction 1 as [|c body [H42 H10] _ IH].
  - reflexivity.
  - cbn [app stars_on_line startswith List.length].
    apply N.eqb_neq in H42, H10. rewrite N.eqb_sym in H42.
    rewrite H42, H10. cbn [andb]. cbn [app] in IH. rewrite IH. reflexivity.
Qed.

Lemma new_date_line_shape date :
  new_date_line date = banner_open ++ strftime_BdY date ++ [42; 42]%N.
Proof. unfold new_date_line, banner_open. do 2 f_equal. Qed.

Lemma banner_len_new date rest :
  banner_len (new_date_line date ++ rest) = Some (List.length (new_date_line date)).
Proof.
  rewrite new_date_line_shape. unfold banner_len.
  rewrite <- app_assoc, startswith_app.
  rewrite skipn_app, skipn_all, Nat.sub_diag, skipn_O. cbn [app].
  rewrite <- app_assoc, (stars_after_plain _ _ (strftime_plain date)).
  cbn [option_map]. f_equal. rewrite !length_app. reflexivity.
Qed.

Lemma rewrite_banner_head new x rest :
  x <> [] ->
  banner_len (x ++ rest) = Some (List.length x) ->
  rewrite_banners new (x ++ rest) 0 = new ++ rewrite_banners new rest 0.
Proof.
  destruct x as [|c x]; [congruence|]. intros _ H.
  cbn [app rewrite_banners].
  change (c :: x ++ rest) with ((c :: x) ++ rest). rewrite H.
  cbn [List.length Nat.sub]. rewrite Nat.sub_0_r.
  rewrite rewrite_banners_skip by (rewrite length_app; lia).
  now rewrite skipn_app, skipn_all, Nat.sub_diag, skipn_O.
Qed.

(** *** A banner is read from its own line *)

Lemma startswith_line p u v :
  ~ In 10%N p -> startswith p (u ++ 10%N :: v) = startswith p u.
Proof.
  revert u. induction p as [|a p IH]; intros u Hp; [now destruct u|].
  destruct u as [|b u]; cbn [app startswith].
  - replace (a =? 10)%N with false; [reflexivity|].
    symmetry. apply N.eqb_neq. intros ->. apply Hp. now left.
  - rewrite IH; [reflexivity|]. intros H. apply Hp. now right.
Qed.

Lemma stars_on_line_line u v : stars_on_line (u ++ 10%N :: v) = stars_on_line u.
Proof.
  induction u as [|c u IH].
  - reflexivity.
  - cbn [app stars_on_line]. rewrite IH.
    change (c :: u ++ 10%N :: v) with ((c :: u) ++ 10%N :: v).
    rewrite (startswith_line [42; 42]%N); [reflexivity|].
    intros [H|[H|[]]]; discriminate.
Qed.

Lemma banner_open_no_newline : ~ In 10%N banner_open.
Proof.
  vm_compute. intros H; repeat (destruct H as [H|H]; [discriminate|]); exact H.
Qed.

Lemma banner_len_line u v : banner_len (u ++ 10%N :: v) = banner_len u.
Proof.
  unfold banner_len. rewrite (startswith_line _ _ _ banner_open_no_newline).
  destruct (startswith banner_open u) eqn:E; [|reflexivity].
  apply startswith_length in E.
  rewrite skipn_app.
  replace (List.length banner_open - List.length u) with 0 by lia.
  cbn [skipn]. now rewrite stars_on_line_line.
Qed.

Lemma has_banner_nil : has_banner [] = false.
Proof. reflexivity. Qed.

Lemma has_banner_cons c s :
  has_banner (c :: s) = false <-> banner_len (c :: s) = None /\ has_banner s = false.
Proof.
  cbn [has_banner]. destruct (banner_len (c :: s)); split;
    try discriminate; try tauto; intros [H _]; discriminate.
Qed.

Lemma has_banner_suffix x y : has_banner (x ++ y) = false -> has_banner y = false.
Proof.
  induction x as [|c x IH]; auto.
  cbn [app]. intros H. apply has_banner_cons in H. tauto.
Qed.

Lemma has_banner_first_lines a y : has_banner (a ++ 10%N :: y) = false -> has_banner a = false.
Proof.
  induction a as [|c a IH]; intros H; [reflexivity|].
  cbn [app] in H. apply has_banner_cons in H. destruct H as [H1 H2].
  apply has_banner_cons. split; [|now apply IH].
  change (c :: a ++ 10%N :: y) with ((c :: a) ++ 10%N :: y) in H1.
  now rewrite banner_len_line in H1.
Qed.

(** *** What a rewrite leaves of the text before the first banner *)

Lemma stars_on_line_tail w t t' :
  tail_free w = true -> stars_on_line (w ++ t) = stars_on_line (w ++ t').
Proof.
  unfold tail_free. induction w as [|c w IH]; intros H.
  - discriminate.
  - cbn [app stars_on_line].
    destruct w as [|d w].
    + (* one character: it is the line feed *)
      cbn [existsb] in H. rewrite orb_false_r in H.
      replace (contains [42; 42]%N [c]) with false in H
        by (unfold contains; cbn; now rewrite andb_false_r).
      cbn [orb] in H. apply N.eqb_eq in H. subst c. reflexivity.
    + assert (Hs : forall z, startswith [42; 42]%N (c :: (d :: w) ++ z)
                             = startswith [42; 42]%N (c :: d :: w)).
      { intros z. change (c :: (d :: w) ++ z) with ((c :: d :: w) ++ z).
        apply startswith_within. cbn [List.length]. lia. }
      rewrite !Hs.
      destruct (startswith [42; 42]%N (c :: d :: w)) eqn:E; [reflexivity|].
      destruct (c =? 10)%N eqn:Ec; [reflexivity|].
      rewrite IH; [reflexivity|].
      rewrite contains_cons, E in H. cbn [orb existsb] in H.
      rewrite N.eqb_sym, Ec in H. exact H.
Qed.

Lemma startswith_before_char (c : char) p v rest :
  ~ In c p -> startswith p (v ++ c :: rest) = true -> List.length p <= List.length v.
Proof.
  revert v. induction p as [|a p IH]; intros v Hp H; [cbn; lia|].
  destruct v as [|b v]; cbn [app startswith List.length] in *.
  - apply andb_true_iff in H. destruct H as [H _]. apply N.eqb_eq in H.
    exfalso. apply Hp. now left.
  - apply andb_true_iff in H. destruct H as [_ H].
    apply IH in H; [lia|]. intros Hc. apply Hp. now right.
Qed.

Lemma banner_open_shape :
  banner_open = 128197%N :: skipn 1 banner_open
  /\ ~ In 128197%N (skipn 1 banner_open)
  /\ List.length (skipn 1 banner_open) = 17
  /\ contains [42; 42]%N banner_open = true.
Proof.
  repeat split; try (vm_compute; reflexivity).
  vm_compute. intros H; repeat (destruct H as [H|H]; [discriminate|]); exact H.
Qed.

(** What follows an opening further down does not change whether a banner
    starts here, nor its length. *)
Lemma banner_len_until_open c v t t' :
  banner_len (c :: v ++ banner_open ++ t) = banner_len (c :: v ++ banner_open ++ t').
Proof.
  destruct banner_open_shape as (Hopen & Hglyph & Hlen & Hstars).
  unfold banner_len.
  assert (Hs : forall z, startswith banner_open (c :: v ++ banner_open ++ z)
                         = startswith banner_open (c :: v ++ banner_open)).
  { intros z. rewrite app_assoc.
    change (c :: (v ++ banner_open) ++ z) with ((c :: v ++ banner_open) ++ z).
    apply startswith_within. cbn [List.length]. rewrite length_app. lia. }
  rewrite !Hs.
  destruct (startswith banner_open (c :: v ++ banner_open)) eqn:E; [|reflexivity].
  (* the opening found here ends before the opening further down begins *)
  assert (Hv : 17 <= List.length v).
  { rewrite Hopen in E at 1. cbn [startswith] in E.
    apply andb_true_iff in E. destruct E as [_ E].
    rewrite Hopen in E at 2. cbn [app] in E.
    apply startswith_before_char in E; [lia | exact Hglyph]. }
  assert (Hk : forall z,
             skipn (List.length banner_open) (c :: v ++ banner_open ++ z)
             = (skipn 17 v ++ banner_open) ++ z).
  { intros z. replace (List.length banner_open) with (S 17) by reflexivity.
    rewrite skipn_cons, skipn_app.
    replace (17 - List.length v) with 0 by lia. rewrite skipn_O.
    now rewrite <- app_assoc. }
  rewrite !Hk.
  rewrite (stars_on_line_tail _ t t'); [reflexivity|].
  unfold tail_free. apply orb_true_iff. left.
  rewrite <- (app_nil_r (skipn 17 v ++ banner_open)), <- app_assoc.
  apply contains_trans with (b := banner_open); [exact Hstars|].
  apply contains_app.
Qed.

Section Twice.
(** The replacement: a banner, whatever follows it. *)
Variable new : str.
Variable tl : str.
Hypothesis new_opens : new = banner_open ++ tl.
Hypothesis new_is_banner :
  forall rest, banner_len (new ++ rest) = Some (List.length new).

Let R (s : str) := rewrite_banners new s 0.

Lemma new_nonempty : new <> [].
Proof.
  rewrite new_opens, (proj1 banner_open_shape). discriminate.
Qed.

Lemma rewrite_new rest : R (new ++ rest) = new ++ R rest.
Proof.
  unfold R. apply rewrite_banner_head.
  - apply new_nonempty.
  - apply new_is_banner.
Qed.

Lemma has_banner_new x y : has_banner (x ++ new ++ y) = true.
Proof.
  induction x as [|c x IH].
  - pose proof (new_is_banner y) as H. cbn [app].
    destruct (new ++ y) as [|c s].
    + discriminate H.
    + cbn [has_banner]. now rewrite H.
  - cbn [app has_banner]. now destruct (banner_len _).
Qed.

Lemma rewrite_nothing s : has_banner s = false -> R s = s.
Proof.
  unfold R. induction s as [|c s IH]; intros H; [reflexivity|].
  apply has_banner_cons in H. destruct H as [H1 H2].
  cbn [rewrite_banners]. rewrite H1. f_equal. now apply IH.
Qed.

Lemma rewrite_first_lines a y :
  has_banner a = false -> R (a ++ 10%N :: y) = a ++ 10%N :: R y.
Proof.
  unfold R. induction a as [|c a IH]; intros H.
  - cbn [app rewrite_banners].
    now rewrite no_banner_at_other_glyph by discriminate.
  - apply has_banner_cons in H. destruct H as [H1 H2].
    cbn [app rewrite_banners].
    change (c :: a ++ 10%N :: y) with ((c :: a) ++ 10%N :: y).
    rewrite banner_len_line, H1. f_equal. now apply IH.
Qed.

Lemma rewrite_first_banner s :
  has_banner s = true ->
  exists v t t', s = v ++ banner_open ++ t /\ R s = v ++ banner_open ++ t'.
Proof.
  unfold R. induction s as [|c s IH]; intros H; [discriminate|].
  cbn [has_banner rewrite_banners] in *.
  destruct (banner_len (c :: s)) as [n|] eqn:E.
  - exists [], (skipn (List.length banner_open) (c :: s)),
           (tl ++ rewrite_banners new s (n - 1)).
    split.
    + rewrite app_nil_l. apply startswith_split.
      unfold banner_len in E. now destruct (startswith banner_open (c :: s)).
    + now rewrite app_nil_l, new_opens, <- app_assoc.
  - destruct (IH H) as (v & t & t' & Hs & Hr).
    exists (c :: v), t, t'. rewrite <- !app_comm_cons. now rewrite <- Hs, Hr.
Qed.

Lemma banner_len_rewrite c s : banner_len (c :: R s) = banner_len (c :: s).
Proof.
  destruct (has_banner s) eqn:H.
  - destruct (rewrite_first_banner s H) as (v & t & t' & Hs & Hr).
    rewrite Hr, Hs. apply banner_len_until_open.
  - now rewrite rewrite_nothing.
Qed.

Lemma rewrite_twice_upto n : forall s, List.length s <= n -> R (R s) = R s.
Proof.
  induction n as [|n IH]; intros s Hn.
  - destruct s; [reflexivity | cbn in Hn; lia].
  - destruct s as [|c s]; [reflexivity|].
    cbn [List.length] in Hn.
    destruct (banner_len (c :: s)) as [m|] eqn:E.
    + assert (HR : R (c :: s) = new ++ R (skipn (m - 1) s)).
      { unfold R. cbn [rewrite_banners]. rewrite E.
        apply banner_len_bounds in E. cbn [List.length] in E.
        now rewrite rewrite_banners_skip by lia. }
      rewrite HR, rewrite_new. f_equal. apply IH.
      rewrite length_skipn. lia.
    + assert (HR : R (c :: s) = c :: R s).
      { unfold R. cbn [rewrite_banners]. now rewrite E. }
      rewrite HR.
      assert (HR2 : R (c :: R s) = c :: R (R s)).
      { unfold R at 1. cbn [rewrite_banners]. fold (R s).
        now rewrite banner_len_rewrite, E. }
      rewrite HR2. f_equal. apply IH. lia.
Qed.

Lemma rewrite_twice s : R (R s) = R s.
Proof. now apply (rewrite_twice_upto (List.length s)). Qed.

End Twice.

Lemma first_blank_bounds ucd lines :
  forall k i,
    first_blank_from ucd k lines = Some i -> 0 < i /\ k <= i < k + List.length lines.
Proof.
  induction lines as [|l lines IH]; intros k i; cbn [first_blank_from]; [discriminate|].
  destruct (is_blank ucd l && (0 <? k)) eqn:E.
  - intros [= <-]. apply andb_true_iff in E. destruct E as [_ E].
    apply Nat.ltb_lt in E. cbn [List.length]. lia.
  - intros H. apply IH in H. cbn [List.length]. lia.
Qed.

Lemma list_insert_split {A} i (x : A) l :
  i <= List.length l -> list_insert i x l = firstn i l ++ x :: skipn i l.
Proof.
  revert i. induction l as [|y l IH]; intros [|i] H; cbn in *; auto; try lia.
  now rewrite IH by lia.
Qed.

(** The document after the insertion of the banner line: the lines before
    it, the banner line, and the lines after it. *)
Lemma inserted_shape ucd new content :
  has_banner content = false ->
  exists a b,
    join [10%N]
      (match first_blank_from ucd 0 (split_char 10 content) with
       | Some i => list_insert i new (split_char 10 content)
       | None => split_char 10 content ++ [new]
       end)
    = a ++ 10%N :: new ++ b
    /\ has_banner a = false
    /\ (b = [] \/ exists j, b = 10%N :: j /\ has_banner j = false).
Proof.
  intros Hb.
  pose proof (join_split 10 content) as Hjoin.
  pose proof (split_char_nonempty 10 content) as Hne.
  destruct (first_blank_from ucd 0 (split_char 10 content)) as [i|] eqn:Hi.
  - apply first_blank_bounds in Hi. cbn [Nat.add] in Hi.
    rewrite list_insert_split by lia.
    set (l1 := firstn i (split_char 10 content)) in *.
    set (l2 := skipn i (split_char 10 content)) in *.
    assert (H1 : l1 <> []).
    { intros H. apply (f_equal (@List.length _)) in H. unfold l1 in H.
      rewrite length_firstn in H. cbn in H. lia. }
    assert (H2 : l2 <> []).
    { intros H. apply (f_equal (@List.length _)) in H. unfold l2 in H.
      rewrite length_skipn in H. cbn in H. lia. }
    assert (Hc : content = join [10%N] l1 ++ 10%N :: join [10%N] l2).
    { rewrite <- Hjoin at 1. rewrite <- (firstn_skipn i (split_char 10 content)).
      fold l1 l2. now rewrite join_app. }
    exists (join [10%N] l1), (10%N :: join [10%N] l2). repeat split.
    + rewrite join_app by (assumption || discriminate).
      now rewrite join_cons by assumption.
    + rewrite Hc in Hb. now apply has_banner_first_lines in Hb.
    + right. eexists. split; [reflexivity|].
      rewrite Hc in Hb.
      change (join [10%N] l1 ++ 10%N :: join [10%N] l2)
        with (join [10%N] l1 ++ [10%N] ++ join [10%N] l2) in Hb.
      rewrite app_assoc in Hb. now apply has_banner_suffix in Hb.
  - exists content, []. repeat split; auto.
    rewrite join_app_one by assumption. now rewrite Hjoin, app_nil_r.
Qed.

(** Applied to its own result, [update_release_date] changes nothing: a
    banner that was rewritten or inserted for a release label is the banner
    the step writes for that label, and the step finds no other. *)
Theorem release_date_step_is_idempotent (ucd : UCD) (content release_date content' : str) :
  update_release_date ucd content release_date = Some content' ->
  update_release_date ucd content' release_date = Some content'.
Proof.
  intros Hu.
  destruct (strptime_ymd ucd release_date) as [date|] eqn:Hd.
  2:{ rewrite (proj2 (update_release_date_none ucd _ _) Hd) in Hu. discriminate. }
  rewrite (update_release_date_eq ucd content _ _ Hd) in Hu.
  rewrite (update_release_date_eq ucd content' _ _ Hd).
  injection Hu as Hc.
  destruct (has_banner content) eqn:Hb.
  - assert (Hb' : has_banner content' = true).
    { pose proof (rewrite_banners_shows (new_date_line date) content Hb) as Hs.
      rewrite Hc in Hs. apply contains_iff in Hs. destruct Hs as (x & y & ->).
      apply (has_banner_new _ (banner_len_new date)). }
    rewrite Hb'. f_equal. rewrite <- Hc.
    apply (rewrite_twice _ _ (new_date_line_shape date) (banner_len_new date)).
  - destruct (inserted_shape ucd (new_date_line date) content Hb)
      as (a & b & Hshape & Ha & Hrest).
    rewrite Hshape in Hc. subst content'.
    assert (Hb' : has_banner (a ++ 10%N :: new_date_line date ++ b) = true).
    { change (a ++ 10%N :: new_date_line date ++ b)
        with (a ++ [10%N] ++ new_date_line date ++ b).
      rewrite app_assoc. apply (has_banner_new _ (banner_len_new date)). }
    rewrite Hb'. f_equal.
    rewrite rewrite_first_lines by exact Ha.
    rewrite (rewrite_new _ _ (new_date_line_shape date) (banner_len_new date)).
    do 3 f_equal.
    destruct Hrest as [->|(j & -> & Hj)]; [reflexivity|].
    apply rewrite_nothing. apply has_banner_cons. split; [|exact Hj].
    apply no_banner_at_other_glyph. discriminate.
Qed.

(** The step on a document without banner, and again on the result. *)
Lemma release_date_step_is_idempotent_witness :
  update_release_date ascii_ucd
    (U "# Changelog" ++ [10%N] ++ U "📅 Release date: **January 01, 2024**"
       ++ [10; 10]%N ++ U "Text")
    (U "2024-01-01")
  = Some (U "# Changelog" ++ [10%N] ++ U "📅 Release date: **January 01, 2024**"
            ++ [10; 10]%N ++ U "Text").
Proof.
  apply (release_date_step_is_idempotent ascii_ucd
           (U "# Changelog" ++ [10; 10]%N ++ U "Text")).
  vm_compute. reflexivity.
Defined.

(** ** Classifier: the case of the message *)

Lemma lower_from_ascii ucd s :
  Forall (fun c => is_ascii c = true) s ->
  forall b, lower_from ucd b s = map ascii_lower s.
Proof.
  induction 1 as [|c s Hc _ IH]; intros b; [reflexivity|].
  cbn [lower_from map]. rewrite Hc, IH. reflexivity.
Qed.

(** The classifier does not see the case of an ASCII message: two messages
    that differ only in the case of their letters land in the same
    category. *)
Theorem classification_ignores_case (ucd : UCD) (msg1 msg2 : str)
        (files_changed : list str) :
  Forall (fun c => is_ascii c = true) msg1 ->
  Forall (fun c => is_ascii c = true) msg2 ->
  map ascii_lower msg1 = map ascii_lower msg2 ->
  categorize_commit ucd msg1 files_changed = categorize_commit ucd msg2 files_changed.
Proof.
  intros H1 H2 H. unfold categorize_commit, categorize_commit_in, lower.
  now rewrite (lower_from_ascii ucd msg1 H1), (lower_from_ascii ucd msg2 H2), H.
Qed.

Lemma classification_ignores_case_witness :
  categorize_commit ascii_ucd (U "FIX: Resolve Login Crash") []
  = categorize_commit ascii_ucd (U "fix: resolve login crash") [].
Proof.
  apply (classification_ignores_case ascii_ucd
           (U "FIX: Resolve Login Crash") (U "fix: resolve login crash") []).
  - vm_compute. repeat constructor.
  - vm_compute. repeat constructor.
  - vm_compute. reflexivity.
Defined.

(** ** The order of the bullets of a category *)

Lemma Permutation_filter_same {A} (f : A -> bool) l l' :
  Permutation l l' -> Permutation (filter f l) (filter f l').
Proof.
  induction 1 as [|x l l' _ IH|x y l|l l' l'' _ IH1 _ IH2]; cbn [filter].
  - constructor.
  - destruct (f x); auto.
  - destruct (f x), (f y); auto. apply perm_swap.
  - now transitivity (filter f l').
Qed.

Lemma StronglySorted_filter_same {A} (R : A -> A -> Prop) (f : A -> bool) l :
  StronglySorted R l -> StronglySorted R (filter f l).
Proof.
  induction 1 as [|x l _ IH Hx]; cbn [filter]; [constructor|].
  destruct (f x); auto. constructor; auto.
  apply Forall_forall. intros y Hy. apply filter_In in Hy.
  rewrite Forall_forall in Hx. now apply Hx.
Qed.

(** Sorting and grouping together: the bullets filed under a category are
    those of the commits of that category, none lost or repeated, newest
    first. *)
Theorem category_bullets_are_newest_first (commits : list CommitData) (k : str) :
  exists group,
    Permutation group (filter (fun d => str_eqb (cd_category d) k) commits)
    /\ StronglySorted (fun a b => (cd_date b <= cd_date a)%Z) group
    /\ dict_get k (categorize (sort_commits commits))
       = match group with
         | [] => None
         | _ :: _ => Some (map cd_formatted group)
         end.
Proof.
  exists (filter (fun d => str_eqb (cd_category d) k) (sort_commits commits)).
  repeat split.
  - apply Permutation_filter_same. symmetry. apply (sort_newest_first_perm cd_date).
  - apply StronglySorted_filter_same. apply (sort_newest_first_sorted cd_date).
  - rewrite categorize_lookup. now destruct (filter _ (sort_commits commits)).
Qed.

(** ** Package names are not empty *)

Section GroupFacts.
Variable ucd : UCD.
Variable icase : bool.

Lemma matches_nonnull r b w a cs :
  matches ucd icase r b w a cs -> nullable r = false -> w <> [].
Proof.
  induction 1; cbn [nullable]; intros Hn; try discriminate.
  - apply andb_false_iff in Hn. destruct Hn as [Hn|Hn].
    + destruct w1; [now apply IHmatches1 in Hn | discriminate].
    + destruct w2; [now apply IHmatches2 in Hn|].
      destruct w1; discriminate.
  - apply orb_false_iff in Hn. tauto.
  - apply orb_false_iff in Hn. tauto.
  - auto.
Qed.

Lemma matches_groups r b w a cs :
  matches ucd icase r b w a cs ->
  groups_nonempty r = true ->
  Forall (fun p => snd p <> []) cs.
Proof.
  induction 1; cbn [groups_nonempty]; intros Hg; try constructor.
  - apply andb_true_iff in Hg. apply Forall_app. tauto.
  - apply andb_true_iff in Hg. tauto.
  - apply andb_true_iff in Hg. tauto.
  - apply Forall_app. split; auto.
  - apply andb_true_iff in Hg. destruct Hg as [Hn _].
    apply negb_true_iff in Hn. cbn [snd]. eapply matches_nonnull; eauto.
  - apply andb_true_iff in Hg. tauto.
Qed.

Lemma search_from_sound r aft :
  forall bef m,
    search_from ucd icase r bef aft = Some m ->
    exists bef' aft', match_at ucd icase r bef' aft' = Some m.
Proof.
  induction aft as [|c aft IH]; intros bef m; cbn [search_from].
  - destruct (match_at ucd icase r bef []) eqn:E; [|discriminate].
    intros [= <-]. eauto.
  - destruct (match_at ucd icase r bef (c :: aft)) eqn:E.
    + intros [= <-]. eauto.
    + apply IH.
Qed.

Lemma searched_groups_nonempty pattern s m n g :
  captures_text pattern ->
  re_search ucd icase pattern s = Some m ->
  group n m = Some g ->
  g <> [].
Proof.
  unfold captures_text, re_search. intros Hc Hs Hg.
  destruct (re_compile pattern) as [r|]; [|discriminate].
  apply search_from_sound in Hs. destruct Hs as (bef & aft & Hm).
  unfold match_at in Hm.
  destruct (run ucd icase r (MState bef aft []) Some) as [e|] eqn:Hrun; [|discriminate].
  injection Hm as <-.
  apply run_sound in Hrun. destruct Hrun as (w & a & cs & _ & Hmatch & He).
  injection He as <-.
  unfold group in Hg. cbn [m_groups caps] in Hg. rewrite app_nil_r in Hg.
  destruct (find (fun p => Nat.eqb (fst p) n) cs) as [[n' g']|] eqn:Hf; [|discriminate].
  injection Hg as <-. apply find_some in Hf. destruct Hf as [Hin _].
  pose proof (matches_groups _ _ _ _ _ Hmatch Hc) as Hall.
  rewrite Forall_forall in Hall. exact (Hall _ Hin).
Qed.

End GroupFacts.

Lemma package_patterns_capture_text : Forall captures_text package_patterns.
Proof. repeat constructor; vm_compute; reflexivity. Qed.

(** [extract_package_name] never answers with the empty string: in each of
    its four patterns the group takes at least one character.  The test
    [if package_name and ...] of the formatter therefore only tells [None]
    from a name. *)
Theorem package_name_is_not_empty (ucd : UCD) (msg pkg : str) :
  extract_package_name ucd msg = Some pkg -> pkg <> [].
Proof.
  unfold extract_package_name.
  pose proof package_patterns_capture_text as Hall.
  induction Hall as [|pattern pats Hp _ IH]; cbn [first_group]; [discriminate|].
  destruct (re_search ucd true pattern msg) as [m|] eqn:Hs; [|exact IH].
  intros Hg. eapply searched_groups_nonempty; eauto.
Qed.

Lemma package_name_is_not_empty_witness :
  extract_package_name ascii_ucd (U "luci-app-modem: bump version") = Some (U "luci-app-modem")
  /\ U "luci-app-modem" <> [].
Proof.
  split; [vm_compute; reflexivity|].
  apply (package_name_is_not_empty ascii_ucd (U "luci-app-modem: bump version")).
  vm_compute. reflexivity.
Defined.

(** ** The glyph of a commit: the first keyword of the table wins *)

Lemma fix_word_compiles : re_compile (U "\b" ++ U "fix" ++ U "\b") = Some fix_word_re.
Proof. vm_compute. reflexivity. Qed.

Lemma EMOJI_MAP_head : EMOJI_MAP = (U "fix", U "🐛") :: skipn 1 EMOJI_MAP.
Proof. reflexivity. Qed.

Lemma matches_fix_word ucd b post :
  word_at ucd b = false ->
  word_at ucd post = false ->
  matches ucd false fix_word_re b [102; 105; 120]%N post [].
Proof.
  intros Hb Hp. unfold fix_word_re.
  apply (M_Seq ucd false WordB _ b [] [102; 105; 120]%N post [] []).
  { constructor. unfold at_boundary. cbn [before after app]. rewrite Hb. reflexivity. }
  apply (M_Seq ucd false (Lit 102) _ _ [102%N] [105; 120]%N post [] []).
  { now constructor. }
  apply (M_Seq ucd false (Lit 105) _ _ [105%N] [120%N] post [] []).
  { now constructor. }
  apply (M_Seq ucd false (Lit 120) _ _ [120%N] [] post [] []).
  { now constructor. }
  constructor. unfold at_boundary. cbn [before after app rev]. rewrite Hp. reflexivity.
Qed.

(** The keywords are tried in the order of [EMOJI_MAP], not in the order in
    which they stand in the message: a message without leading emoji that
    holds the word "fix" (in any case, between characters that are no word
    characters) gets the bug glyph, whatever other keywords it holds. *)
Theorem fix_keyword_wins (ucd : UCD) (emoji_data : list str)
        (commit_msg pre post : str) :
  leading_emoji emoji_data commit_msg = None ->
  lower ucd commit_msg = pre ++ U "fix" ++ post ->
  word_at ucd (rev pre) = false ->
  word_at ucd post = false ->
  get_emoji_for_commit ucd emoji_data commit_msg = U "🐛".
Proof.
  intros Hle Hlow Hpre Hpost. unfold get_emoji_for_commit.
  rewrite Hle, EMOJI_MAP_head. cbn [first_keyword].
  assert (H : re_search ucd false (U "\b" ++ U "fix" ++ U "\b") (lower ucd commit_msg)
              <> None).
  { unfold re_search. rewrite fix_word_compiles, Hlow.
    apply search_from_finds. apply match_at_iff.
    exists [102; 105; 120]%N, post, []. split; [reflexivity|].
    rewrite app_nil_r. now apply matches_fix_word. }
  destruct (re_search ucd false _ (lower ucd commit_msg)); [reflexivity | congruence].
Qed.

(** "security" stands first in the message and later in the table. *)
Lemma fix_keyword_wins_witness :
  get_emoji_for_commit ascii_ucd sample_emoji_data (U "Security Fix for the login page")
  = U "🐛".
Proof.
  apply (fix_keyword_wins ascii_ucd sample_emoji_data
           (U "Security Fix for the login page")
           (U "security ") (U " for the login page"));
    vm_compute; reflexivity.
Defined.
